(** * Manipulation-risk scoring engine: [analyze_wallet_clustering]

    A shallow embedding of [analyzer.py], function
    [analyze_wallet_clustering] (lines 280-526), and the properties the
    specification states about it.

    Modelling conventions.
    - A [datetime] is an integer number of microseconds ([Z]); a
      [timedelta] is a difference of two of them.  Only naive datetimes
      are modelled, and the finite range of [datetime] is not.  A
      timestamp given as an ISO string stands for the [datetime] that
      [datetime.fromisoformat] makes of it (line 309).
    - A Python [float] of the engine is a rational ([Q]); rounding is not
      modelled there.  The comparisons the engine makes on quotients of
      small integers ([<= 0.5], [>= 1.0], [>= 0.6], [< 24.0] hours) come
      out the same in binary64 and in exact arithmetic.
    - Whatever the function obtains from outside its arguments (the
      system clock and the three RPC helpers) is a field of [World].  A
      helper is modelled by what it returns; a call in which a helper
      raises is outside the model.
    - A reason string is a constructor of [Reason] that carries the
      values the f-string interpolates.

    The development then embeds the code around the engine: the three
    helpers and [fetch_top_recent_purchases] of [analyzer.py],
    [analyze_pair] of [collector.py], and the rate limiter and the
    request handler of [main.py] with the models of [models.py].  There a
    call returns or raises ([Outcome]), a float of the helpers and of
    [collector.py] is a binary64 value ([Float], rounded by [round64]),
    and what the Solana endpoint and DexScreener answer is a parameter
    ([Rpc], [Service]). *)

From Stdlib Require Import ZArith QArith Qminmax Qabs Qround Lia Sorting.Sorted.
From stdpp Require Import base list gmap strings fin_maps sorting.

Local Open Scope Z_scope.

(** ** Data model *)

(** One entry of [norm_tx] (lines 311-315): the dict
    [{"wallet": ..., "timestamp": ..., "amount": ...}]. *)
Record Trade := mkTrade {
  wallet : string;
  timestamp : Z;
  amount : option Q
}.

(** The evidence trail.  Each constructor stands for one [reasons.append]
    of the source. *)
Inductive Reason :=
  | SequentialBuying (max_in_window total : nat)              (* line 351 *)
  | NewWalletConcentration (new_wallet_count unique : nat)    (* line 384 *)
  | FreshWalletSurge (recent_new_count recent_unique : nat)   (* line 405 *)
  | HighVolumeLowDiversity (tx_count_5m unique_buyers : nat)  (* line 428 *)
  | HelperReason (msg : string)                     (* lines 443, 447, 451 *)
  | InsufficientData                                          (* line 461 *)
  | WashTradingPattern (top_cluster : list (string * nat))    (* line 479 *)
  | NoRiskDetected.                                           (* line 500 *)

(** The text of the two reasons that interpolate nothing. *)
Definition reason_text (r : Reason) : option string :=
  match r with
  | InsufficientData =>
      Some "Insufficient transaction data for depth analysis."%string
  | NoRiskDetected =>
      Some ("No strong clustering, new-wallet anomalies, source-of-funds correlation, "
            ++ "high-volume/low-diversity patterns, honeypot-like token behavior, or "
            ++ "centralized authority risks detected.")%string
  | _ => None
  end.

(** The returned tuple (line 526). *)
Record Assessment := mkAssessment {
  manipulation_score : Q;
  reasons : list Reason;
  freeze_authority_present : bool;
  mint_authority_present : bool;
  top_10_holder_share_pct : Q
}.

(** What a call reads from outside its arguments: [datetime.utcnow()]
    (line 368) and the results of the three helpers that query the Solana
    RPC endpoint (lines 440, 446, 450). *)
Record World := mkWorld {
  utcnow : Z;
  simulate_token_authorities : string → bool * bool * list string;
  get_top_holders_onchain : string → Q * list string;
  simulate_lp_stability : string → Q * list string
}.

(** ** Float comparisons *)

Definition Qlt_bool (a b : Q) : bool := negb (Qle_bool b a).

Definition Qnat (n : nat) : Q := inject_Z (Z.of_nat n).

(** ** Sorting *)

(** [list.sort(key=...)] and [sorted(..., key=..., reverse=...)] are
    stable: elements with equal keys keep their input order, also with
    [reverse=True]. *)
Section sorted_by.
Context {A : Type} (key : A → Z) (reverse : bool).

Definition goes_before (x y : A) : bool :=
  if reverse then key y <=? key x else key x <=? key y.

Fixpoint insert_sorted (x : A) (l : list A) : list A :=
  match l with
  | [] => [x]
  | y :: l' => if goes_before x y then x :: y :: l' else y :: insert_sorted x l'
  end.

Fixpoint sorted_by (l : list A) : list A :=
  match l with
  | [] => []
  | x :: l' => insert_sorted x (sorted_by l')
  end.
End sorted_by.

(** ** 1) Temporal clustering (lines 327-348) *)

Definition window_size : Z := 2 * 1000000.

(** The inner [while] of line 334.  It stops at the latest when
    [start = end], so [end - start] iterations are enough. *)
Fixpoint advance_start (ts : list Z) (e fuel start : nat) : nat :=
  match fuel with
  | O => start
  | S fuel' =>
      if nth e ts 0 - nth start ts 0 >? window_size
      then advance_start ts e fuel' (S start)
      else start
  end.

(** One iteration of the [for end in range(total)] loop; the state is
    [(start, max_in_window)]. *)
Definition window_step (ts : list Z) (st : nat * nat) (e : nat) : nat * nat :=
  let start := advance_start ts e (e - st.1) st.1 in
  let window_count := (e - start + 1)%nat in
  (start, if (st.2 <? window_count)%nat then window_count else st.2).

Definition window_scan (ts : list Z) : nat * nat :=
  foldl (window_step ts) (0%nat, 1%nat) (seq 0 (length ts)).

Definition max_in_window (norm_tx : list Trade) : nat :=
  (window_scan (timestamp <$> norm_tx)).2.

Definition clustered_fraction (norm_tx : list Trade) : Q :=
  Qnat (max_in_window norm_tx) / Qnat (length norm_tx).

Definition sequential_risk_of (clustered_fraction : Q) : Q :=
  if Qle_bool clustered_fraction 0.5 then 0
  else if Qle_bool 1 clustered_fraction then 1
  else (clustered_fraction - 0.5) / 0.5.

Definition sequential_risk (norm_tx : list Trade) : Q :=
  sequential_risk_of (clustered_fraction norm_tx).

(** ** 2) Wallet age (lines 357-411) *)

Definition unique_wallets (norm_tx : list Trade) : gset string :=
  list_to_set (wallet <$> norm_tx).

(** The loop of lines 362-366 over the dict [first_tx_times]. *)
Definition record_first_tx (m : gmap string Z) (tx : Trade) : gmap string Z :=
  match m !! wallet tx with
  | None => <[wallet tx := timestamp tx]> m
  | Some first_ts =>
      if timestamp tx <? first_ts then <[wallet tx := timestamp tx]> m else m
  end.

Definition first_tx_times (norm_tx : list Trade) : gmap string Z :=
  foldl record_first_tx ∅ norm_tx.

(** [timedelta.total_seconds()] *)
Definition total_seconds (d : Z) : Q := inject_Z d / inject_Z 1000000.

Definition age_hours (now_utc first_ts : Z) : Q :=
  total_seconds (now_utc - first_ts) / 3600.

Definition new_wallet_threshold_hours : Q := 24.

(** The body of the loops of lines 371-377 and 395-401: does wallet [w]
    add one to the count?  A wallet without an entry is skipped. *)
Definition is_new_wallet (now_utc : Z) (first : gmap string Z) (w : string) : bool :=
  match first !! w with
  | None => false
  | Some first_ts => Qlt_bool (age_hours now_utc first_ts) new_wallet_threshold_hours
  end.

Definition count_new (now_utc : Z) (first : gmap string Z) (ws : list string) : nat :=
  length (filter (λ w, is_new_wallet now_utc first w) ws).

Definition new_wallet_count (now_utc : Z) (norm_tx : list Trade) : nat :=
  count_new now_utc (first_tx_times norm_tx) (elements (unique_wallets norm_tx)).

(** [count / max(len, 1)] *)
Definition fraction_of (count len : nat) : Q := Qnat count / Qnat (Nat.max len 1).

Definition new_wallet_fraction (now_utc : Z) (norm_tx : list Trade) : Q :=
  fraction_of (new_wallet_count now_utc norm_tx) (size (unique_wallets norm_tx)).

(** [wallet_age_risk] as line 382 leaves it. *)
Definition wallet_age_risk_base (now_utc : Z) (norm_tx : list Trade) : Q :=
  Qmin 1 (new_wallet_fraction now_utc norm_tx).

(** [l[-n:]] *)
Definition last_n {A} (n : nat) (l : list A) : list A := drop (length l - n) l.

(** [list(dict.fromkeys(l))]: the distinct elements in the order of their
    first occurrence. *)
Definition dict_fromkeys (l : list string) : list string :=
  foldl (λ acc x, if decide (x ∈ acc) then acc else acc ++ [x]) [] l.

Definition recent_wallets_ordered (norm_tx : list Trade) : list string :=
  wallet <$> last_n 50 norm_tx.

Definition recent_unique_wallets (norm_tx : list Trade) : list string :=
  dict_fromkeys (recent_wallets_ordered norm_tx).

Definition recent_new_count (now_utc : Z) (norm_tx : list Trade) : nat :=
  count_new now_utc (first_tx_times norm_tx) (recent_unique_wallets norm_tx).

Definition recent_fraction (now_utc : Z) (norm_tx : list Trade) : Q :=
  fraction_of (recent_new_count now_utc norm_tx) (length (recent_unique_wallets norm_tx)).

(** The condition of line 404, under the guard of line 391. *)
Definition fresh_wallet_surge (now_utc : Z) (norm_tx : list Trade) : bool :=
  match recent_wallets_ordered norm_tx with
  | [] => false
  | _ => Qlt_bool 0.5 (recent_fraction now_utc norm_tx)
         && (10 <=? length (recent_unique_wallets norm_tx))%nat
  end.

(** [wallet_age_risk] as line 411 leaves it. *)
Definition wallet_age_risk (now_utc : Z) (norm_tx : list Trade) : Q :=
  if fresh_wallet_surge now_utc norm_tx
  then Qmin 1 (Qmax (wallet_age_risk_base now_utc norm_tx) (recent_fraction now_utc norm_tx))
  else wallet_age_risk_base now_utc norm_tx.

(** ** 3) High volume, low diversity (lines 414-425) *)

(** [norm_tx[-1]["timestamp"]]; the list is not empty where this is used. *)
Definition latest_ts (norm_tx : list Trade) : Z :=
  match last norm_tx with Some tx => timestamp tx | None => 0 end.

Definition five_min_window_start (norm_tx : list Trade) : Z :=
  latest_ts norm_tx - 5 * 60 * 1000000.

Definition last_5m_txs (norm_tx : list Trade) : list Trade :=
  filter (λ tx, five_min_window_start norm_tx ≤ timestamp tx) norm_tx.

Definition unique_buyers_5m (norm_tx : list Trade) : gset string :=
  list_to_set (wallet <$> last_5m_txs norm_tx).

Definition tx_count_5m (norm_tx : list Trade) : nat := length (last_5m_txs norm_tx).

Definition unique_buyers_count_5m (norm_tx : list Trade) : nat :=
  size (unique_buyers_5m norm_tx).

Definition high_volume_low_diversity (norm_tx : list Trade) : bool :=
  (8 <=? tx_count_5m norm_tx)%nat && (unique_buyers_count_5m norm_tx <? 10)%nat.

Definition hvld_risk (norm_tx : list Trade) : Q :=
  if high_volume_low_diversity norm_tx then 1 else 0.

(** ** 7) Wash trading (lines 464-477) *)

(** A dict keeps its keys in insertion order: [d.get(w, default)] and
    [d[w] = v]. *)
Fixpoint dict_get (d : list (string * nat)) (w : string) (default : nat) : nat :=
  match d with
  | [] => default
  | (k, c) :: d' => if decide (k = w) then c else dict_get d' w default
  end.

Fixpoint dict_set (w : string) (v : nat) (d : list (string * nat)) : list (string * nat) :=
  match d with
  | [] => [(w, v)]
  | (k, c) :: d' => if decide (k = w) then (k, v) :: d' else (k, c) :: dict_set w v d'
  end.

(** Lines 464-467. *)
Definition count_trade (d : list (string * nat)) (tx : Trade) : list (string * nat) :=
  dict_set (wallet tx) (dict_get d (wallet tx) 0 + 1)%nat d.

Definition wallet_trade_counts (norm_tx : list Trade) : list (string * nat) :=
  foldl count_trade [] norm_tx.

Definition sorted_wallets (norm_tx : list Trade) : list (string * nat) :=
  sorted_by (λ kv, Z.of_nat kv.2) true (wallet_trade_counts norm_tx).

Definition top_cluster (norm_tx : list Trade) : list (string * nat) :=
  take 3 (sorted_wallets norm_tx).

Definition top_cluster_trades (norm_tx : list Trade) : nat :=
  sum_list (snd <$> top_cluster norm_tx).

(** Line 474; [total] is [len(norm_tx)]. *)
Definition wash_fraction (norm_tx : list Trade) : Q :=
  match length norm_tx with
  | O => 0
  | total => Qnat (top_cluster_trades norm_tx) / Qnat total
  end.

Definition wash_trading_detected (norm_tx : list Trade) : bool :=
  Qle_bool 0.6 (wash_fraction norm_tx)
  && forallb (λ kv, (2 <=? kv.2)%nat) (top_cluster norm_tx).

Definition wash_trading_risk (norm_tx : list Trade) : Q :=
  if wash_trading_detected norm_tx then 1 else 0.

(** ** The engine (lines 280-526) *)

(** Lines 310-316: the dict appended to [norm_tx] for the event [tx]. *)
Definition copy_event (tx : Trade) : Trade :=
  {| wallet := wallet tx; timestamp := timestamp tx; amount := amount tx |}.

(** Lines 304-316: every event is copied into a fresh dict. *)
Definition normalize (transactions : list Trade) : list Trade :=
  match transactions with
  | [] => []
  | _ => copy_event <$> transactions
  end.

(** Line 327: [norm_tx.sort(key=lambda x: x["timestamp"])]. *)
Definition sort_by_timestamp (norm_tx : list Trade) : list Trade :=
  sorted_by timestamp false norm_tx.

(** The reasons appended inside [if total > 0] (lines 350-431). *)
Definition trade_reasons (now_utc : Z) (norm_tx : list Trade) : list Reason :=
  (if Qlt_bool 0 (sequential_risk norm_tx)
   then [SequentialBuying (max_in_window norm_tx) (length norm_tx)] else [])
  ++ (if Qlt_bool 0.5 (wallet_age_risk_base now_utc norm_tx)
      then [NewWalletConcentration (new_wallet_count now_utc norm_tx)
                                   (size (unique_wallets norm_tx))] else [])
  ++ (if fresh_wallet_surge now_utc norm_tx
      then [FreshWalletSurge (recent_new_count now_utc norm_tx)
                             (length (recent_unique_wallets norm_tx))] else [])
  ++ (if high_volume_low_diversity norm_tx
      then [HighVolumeLowDiversity (tx_count_5m norm_tx)
                                   (unique_buyers_count_5m norm_tx)] else []).

(** The token-level facts of lines 434-451. *)
Record TokenFacts := mkTokenFacts {
  freeze_present : bool;
  mint_present : bool;
  top_10_share : Q;
  lp_risk : Q;
  facts_reasons : list Reason
}.

Definition token_facts (w : World) (token_address : option string) : TokenFacts :=
  match token_address with
  | None =>
      {| freeze_present := false; mint_present := false; top_10_share := 0;
         lp_risk := 0; facts_reasons := [] |}
  | Some addr =>
      let '(freeze_present, mint_present, authority_reasons) :=
        simulate_token_authorities w addr in
      let '(top_10_share, th_reasons) := get_top_holders_onchain w addr in
      let '(lp_risk, lp_reasons) := simulate_lp_stability w addr in
      {| freeze_present := freeze_present; mint_present := mint_present;
         top_10_share := top_10_share; lp_risk := lp_risk;
         facts_reasons := HelperReason <$> (authority_reasons ++ th_reasons ++ lp_reasons) |}
  end.

(** Lines 486-491: the additive modifier. *)
Definition modifier (wallet_age_risk hvld_risk lp_risk wash_trading_risk : Q) : Q :=
  wallet_age_risk * 10 + hvld_risk * 20 + lp_risk * 10 + wash_trading_risk * 10.

(** Lines 455-460 and 492-524: from the risk signals to the score. *)
Definition aggregate_score (total : nat) (sequential_risk wallet_age_risk hvld_risk
    wash_trading_risk : Q) (facts : TokenFacts) : Q :=
  (let base_risk_score :=
     if (0 <? total)%nat then sequential_risk * 100 else 50 in
   let modifier :=
     modifier wallet_age_risk hvld_risk (lp_risk facts) wash_trading_risk in
   let manipulation_score := base_risk_score + modifier in
   let honeypot_risk : Q := 0 in
   let manipulation_score :=
     if Qlt_bool 0 honeypot_risk then 100 else manipulation_score in
   let manipulation_score :=
     if Qlt_bool 30 (top_10_share facts)
     then Qmin 100 (manipulation_score + 10) else manipulation_score in
   let manipulation_score :=
     if (total =? 0)%nat && Qlt_bool manipulation_score 85
     then 85 else manipulation_score in
   let manipulation_score :=
     if (0 <? total)%nat && (Qlt_bool 0 (lp_risk facts) || freeze_present facts)
        && Qlt_bool manipulation_score 85
     then 85 else manipulation_score in
   Qmax 0 (Qmin 100 manipulation_score))%Q.

(** Lines 499-504: [if not reasons: reasons.append(...)]. *)
Definition or_no_risk (reasons : list Reason) : list Reason :=
  match reasons with [] => [NoRiskDetected] | _ => reasons end.

(** Lines 318-526 but for the sort of line 327: what the function does
    with [total] and with [norm_tx], which is sorted when it is not
    empty. *)
Definition assess (w : World) (total : nat) (norm_tx : list Trade)
    (token_address : option string) : Assessment :=
  let has_trades := (0 <? total)%nat in
  let now_utc := utcnow w in
  let sequential_risk := if has_trades then sequential_risk norm_tx else 0%Q in
  let wallet_age_risk := if has_trades then wallet_age_risk now_utc norm_tx else 0%Q in
  let hvld_risk := if has_trades then hvld_risk norm_tx else 0%Q in
  let reasons := if has_trades then trade_reasons now_utc norm_tx else [] in
  let facts := token_facts w token_address in
  let reasons := reasons ++ facts_reasons facts in
  let reasons := if has_trades then reasons else reasons ++ [InsufficientData] in
  let wash_trading_risk := wash_trading_risk norm_tx in
  let reasons :=
    if wash_trading_detected norm_tx
    then reasons ++ [WashTradingPattern (top_cluster norm_tx)] else reasons in
  let reasons := or_no_risk reasons in
  {| manipulation_score :=
       aggregate_score total sequential_risk wallet_age_risk hvld_risk
                       wash_trading_risk facts;
     reasons := reasons;
     freeze_authority_present := freeze_present facts;
     mint_authority_present := mint_present facts;
     top_10_holder_share_pct := top_10_share facts |}.

Definition analyze_wallet_clustering (w : World) (transactions : list Trade)
    (token_address : option string) : Assessment :=
  let norm_tx := normalize transactions in
  let total := length norm_tx in
  let norm_tx := if (0 <? total)%nat then sort_by_timestamp norm_tx else norm_tx in
  assess w total norm_tx token_address.

(** ** The caller's objects

    Python passes [transactions] and the dicts in it by reference.  A heap
    maps object identities to objects; the function below is lines 301-327
    on that heap, followed by [assess] on the values of [norm_tx]. *)

Abbreviation loc := positive.

Inductive Obj :=
  | ListObj (items : list loc)   (* a list of references *)
  | DictObj (fields : Trade).    (* an event dict *)

Abbreviation heap := (gmap loc Obj).

Definition get_list (h : heap) (l : loc) : option (list loc) :=
  match h !! l with Some (ListObj items) => Some items | _ => None end.

Definition get_dict (h : heap) (l : loc) : option Trade :=
  match h !! l with Some (DictObj fields) => Some fields | _ => None end.

(** A new object gets an identity that no live object has. *)
Definition alloc (o : Obj) (h : heap) : loc * heap :=
  let l := fresh (dom h) in (l, <[l := o]> h).

(** [l.append(x)] *)
Definition list_append (l x : loc) (h : heap) : option heap :=
  items ← get_list h l; Some (<[l := ListObj (items ++ [x])]> h).

(** [tx["timestamp"]] of the dict behind a reference. *)
Definition timestamp_at (h : heap) (r : loc) : Z :=
  match get_dict h r with Some fields => timestamp fields | None => 0 end.

(** [l.sort(key=lambda x: x["timestamp"])]: the list object is updated in
    place. *)
Definition list_sort (l : loc) (h : heap) : option heap :=
  items ← get_list h l;
  Some (<[l := ListObj (sorted_by (timestamp_at h) false items)]> h).

(** The events behind a list of references. *)
Definition read_trades (h : heap) (l : loc) : option (list Trade) :=
  items ← get_list h l; mapM (get_dict h) items.

(** The loop of lines 306-316. *)
Fixpoint normalize_loop (norm_tx : loc) (items : list loc) (h : heap) : option heap :=
  match items with
  | [] => Some h
  | tx :: rest =>
      fields ← get_dict h tx;
      let '(d, h) := alloc (DictObj (copy_event fields)) h in
      h ← list_append norm_tx d h;
      normalize_loop norm_tx rest h
  end.

Definition analyze_wallet_clustering_heap (w : World) (transactions : loc)
    (token_address : option string) (h : heap) : option (Assessment * heap) :=
  items ← get_list h transactions;
  let '(norm_tx, h) := alloc (ListObj []) h in
  h ← match items with [] => Some h | _ => normalize_loop norm_tx items h end;
  refs ← get_list h norm_tx;
  let total := length refs in
  h ← (if (0 <? total)%nat then list_sort norm_tx h else Some h);
  norm_tx_values ← read_trades h norm_tx;
  Some (assess w total norm_tx_values token_address, h).

(** * The rest of [analyzer.py]

    The helpers that talk to the Solana JSON-RPC endpoint, with the reply
    of the endpoint as a typed value: a field a reply may lack is an
    [option], and a reply whose fields have another JSON type than the
    endpoint documents is outside the model.  The listing of DexScreener
    is decoded JSON of any shape ([Json]).  Where these functions compute
    with floats, the model rounds as binary64 does ([Float]).  Library
    functions whose results the code only passes on are parameters
    ([Lib]); the constants read from the environment are [Config]. *)

(** ** Exceptions *)

Inductive ExnClass :=
  | AttributeError | IndexError | ValueError | TypeError | RuntimeError
  | OverflowError | ZeroDivisionError | HTTPError | HTTPException | ValidationError.

(** An exception: its class and [str(e)]. *)
Record Exn := mkExn { exn_class : ExnClass; exn_text : string }.

(** A call returns a value or raises. *)
Inductive Outcome (A : Type) :=
  | Returns (a : A)
  | Raises (e : Exn).
Arguments Returns {A} a.
Arguments Raises {A} e.

(** A raised exception passes through the caller. *)
Definition and_then {A B} (m : Outcome A) (k : A → Outcome B) : Outcome B :=
  match m with Returns a => k a | Raises e => Raises e end.

#[global] Instance outcome_bind : MBind Outcome := λ A B k m, and_then m k.
#[global] Instance outcome_ret : MRet Outcome := λ A a, Returns a.

(** [None.get(...)] *)
Definition none_has_no_get : Exn :=
  mkExn AttributeError "'NoneType' object has no attribute 'get'".

(** ** Floats

    A Python [float] in the helpers, in [collector.py] and in the share
    that reaches [main.py]: [Finite q] for a rational [q] that binary64
    represents, or one of the three values that are no number.  The sign
    of a zero is not modelled. *)
Inductive Float :=
  | Finite (q : Q)
  | PosInf
  | NegInf
  | NaN.

(** [2 ** e] *)
Definition two_to (e : Z) : Q := Qpower 2 e.

(** The [e] with [2 ** e <= |q| < 2 ** (e + 1)], for a [q] other than 0. *)
Definition exponent_of (q : Q) : Z :=
  let e := Z.log2 (Z.abs (Qnum q)) - Z.log2 (Zpos (Qden q)) in
  if Qle_bool (two_to e) (Qabs q) then e else e - 1.

(** The nearest integer, the even one of two that are equally near. *)
Definition round_half_even (x : Q) : Z :=
  let f := Qfloor x in
  let r := (x - inject_Z f)%Q in
  if Qlt_bool r (1 # 2) then f
  else if Qlt_bool (1 # 2) r then f + 1
  else if Z.even f then f else f + 1.

(** The binary64 value nearest to [q] (53 significant bits, exponents down
    to that of the subnormal numbers), an infinity when that is beyond the
    largest one. *)
Definition round64 (q : Q) : Float :=
  if Qeq_bool q 0 then Finite 0
  else
    let ulp := two_to (Z.max (exponent_of q - 52) (-1074)) in
    let r := (inject_Z (round_half_even (q / ulp)) * ulp)%Q in
    if Qle_bool (two_to 1024) (Qabs r) then (if Qlt_bool 0 q then PosInf else NegInf)
    else Finite (Qred r).

(** [x < y] and [x <= y]: false when one side is no number. *)
Definition flt (x y : Float) : bool :=
  match x, y with
  | NaN, _ | _, NaN => false
  | Finite a, Finite b => Qlt_bool a b
  | _, NegInf | PosInf, _ => false
  | NegInf, _ | _, PosInf => true
  end.

Definition fle (x y : Float) : bool :=
  match x, y with
  | NaN, _ | _, NaN => false
  | Finite a, Finite b => Qle_bool a b
  | NegInf, _ | _, PosInf => true
  | _, NegInf | PosInf, _ => false
  end.

Definition is_zero (x : Float) : bool :=
  match x with Finite q => Qeq_bool q 0 | _ => false end.

Definition fopp (x : Float) : Float :=
  match x with
  | Finite q => Finite (Qred (- q))
  | PosInf => NegInf
  | NegInf => PosInf
  | NaN => NaN
  end.

(** [x + y], [x - y] and [x * y] *)
Definition fadd (x y : Float) : Float :=
  match x, y with
  | Finite a, Finite b => round64 (a + b)
  | NaN, _ | _, NaN => NaN
  | PosInf, NegInf | NegInf, PosInf => NaN
  | PosInf, _ | _, PosInf => PosInf
  | NegInf, _ | _, NegInf => NegInf
  end.

Definition fsub (x y : Float) : Float := fadd x (fopp y).

Definition fmul (x y : Float) : Float :=
  match x, y with
  | Finite a, Finite b => round64 (a * b)
  | NaN, _ | _, NaN => NaN
  | Finite a, PosInf | PosInf, Finite a =>
      if Qeq_bool a 0 then NaN else if Qlt_bool 0 a then PosInf else NegInf
  | Finite a, NegInf | NegInf, Finite a =>
      if Qeq_bool a 0 then NaN else if Qlt_bool 0 a then NegInf else PosInf
  | PosInf, PosInf | NegInf, NegInf => PosInf
  | PosInf, NegInf | NegInf, PosInf => NegInf
  end.

Definition float_division_by_zero : Exn :=
  mkExn ZeroDivisionError "float division by zero".

(** [x / y] on floats: Python raises for a divisor that is zero. *)
Definition fdiv (x y : Float) : Outcome Float :=
  if is_zero y then Raises float_division_by_zero
  else
    Returns
      match x, y with
      | Finite a, Finite b => round64 (a / b)
      | NaN, _ | _, NaN => NaN
      | Finite _, _ => Finite 0
      | PosInf, Finite b => if Qlt_bool 0 b then PosInf else NegInf
      | NegInf, Finite b => if Qlt_bool 0 b then NegInf else PosInf
      | _, _ => NaN
      end.

(** [float(n)] for an [int]. *)
Definition float_of_int (n : Z) : Outcome Float :=
  match round64 (inject_Z n) with
  | Finite q => Returns (Finite q)
  | _ => Raises (mkExn OverflowError "int too large to convert to float")
  end.

(** [a / b] on [int]s: the quotient itself is rounded, not the
    operands. *)
Definition int_true_div (a b : Z) : Outcome Float :=
  if b =? 0 then Raises (mkExn ZeroDivisionError "division by zero")
  else
    match round64 (inject_Z a / inject_Z b) with
    | Finite q => Returns (Finite q)
    | _ => Raises (mkExn OverflowError "integer division result too large for a float")
    end.

(** ** Decoded JSON

    What [json.loads] makes of a document: [None], a [bool], an [int], a
    [float], a [str], a [list] or a [dict]; the keys of a [dict] are
    distinct. *)
#[warnings="-register-all"] Inductive Json :=
  | JNull
  | JBool (b : bool)
  | JInt (n : Z)
  | JFloat (x : Float)
  | JStr (s : string)
  | JArr (items : list Json)
  | JObj (fields : list (string * Json)).

(** [type(v).__name__] *)
Definition type_name (v : Json) : string :=
  match v with
  | JNull => "NoneType"
  | JBool _ => "bool"
  | JInt _ => "int"
  | JFloat _ => "float"
  | JStr _ => "str"
  | JArr _ => "list"
  | JObj _ => "dict"
  end.

(** [bool(v)] *)
Definition truthy (v : Json) : bool :=
  match v with
  | JNull => false
  | JBool b => b
  | JInt n => negb (n =? 0)
  | JFloat x => negb (is_zero x)
  | JStr s => negb (bool_decide (s = ""%string))
  | JArr items => match items with [] => false | _ => true end
  | JObj fields => match fields with [] => false | _ => true end
  end.

(** The entry of a [dict] for a key. *)
Fixpoint obj_entry (key : string) (fields : list (string * Json)) : option Json :=
  match fields with
  | [] => None
  | (k, v) :: rest => if bool_decide (k = key) then Some v else obj_entry key rest
  end.

(** [v == s] for a [str] [s] *)
Definition is_str (s : string) (v : Json) : bool :=
  match v with JStr s' => bool_decide (s' = s) | _ => false end.

Definition has_no_get (v : Json) : Exn :=
  mkExn AttributeError ("'" ++ type_name v ++ "' object has no attribute 'get'").

(** [v.get(key)]: [AttributeError] on anything but a [dict]. *)
Definition obj_get (v : Json) (key : string) : Outcome (option Json) :=
  match v with
  | JObj fields => Returns (obj_entry key fields)
  | _ => Raises (has_no_get v)
  end.

(** [v.get(key, d)] *)
Definition obj_get_or (v : Json) (key : string) (d : Json) : Outcome Json :=
  found ← obj_get v key; Returns (default d found).

(** ** The endpoint *)

(** The JSON-RPC envelope [data]: [rpc_error] is the entry "error" (shown
    as [str]) when the key is there, [rpc_result] the entry "result". *)
Record Envelope (R : Type) := mkEnvelope {
  rpc_error : option string;
  rpc_result : option R
}.
Arguments mkEnvelope {R} _ _.
Arguments rpc_error {R} _.
Arguments rpc_result {R} _.

(** A result object [{"context": ..., "value": ...}]; [value] is [None]
    when the entry is missing or null. *)
Record Reply (V : Type) := mkReply { value : option V }.
Arguments mkReply {V} _.
Arguments value {V} _.

(** [value] of getAccountInfo: the entry "data", [None] when the key is
    missing. *)
Record AccountValue := mkAccountValue { data : option (list string) }.

(** One entry of getTokenLargestAccounts. *)
Record Account := mkAccount {
  address : option string;
  account_amount : option string      (* the entry "amount" *)
}.

(** One entry of getSignaturesForAddress. *)
Record SigInfo := mkSigInfo {
  signature : option string;
  blockTime : option Z
}.

(** One entry of [accountKeys] with encoding "jsonParsed": an object with
    "pubkey" and "signer", or a bare key. *)
Inductive AccountKey :=
  | ParsedKey (pubkey : option string) (signer : bool)
  | BareKey (key : string).

(** What the HTTP round trip of [_solana_rpc_call] gives for each method
    and parameter: the decoded body, or the exception of [httpx.post],
    [raise_for_status] or [resp.json()].  [getTokenSupply] carries the
    entry "amount" of "value"; [getTransaction] carries
    [transaction.message.accountKeys], empty when a level is missing, and
    no result when [tx_res] is null or empty. *)
Record Rpc := mkRpc {
  getAccountInfo : string → Outcome (Envelope (Reply AccountValue));
  getTokenSupply : string → Outcome (Envelope (Reply (option string)));
  getTokenLargestAccounts : string → Outcome (Envelope (Reply (list Account)));
  getSignaturesForAddress : string → Z → Outcome (Envelope (list SigInfo));
  getTransaction : string → Outcome (Envelope (list AccountKey))
}.

(** Lines 23-33. *)
Definition _solana_rpc_call {R} (method : string) (resp : Outcome (Envelope R))
    : Outcome (option R) :=
  match resp with
  | Raises e => Raises e
  | Returns data =>
      match rpc_error data with
      | Some err =>
          Raises (mkExn RuntimeError ("Solana RPC error for " ++ method ++ ": " ++ err))
      | None => Returns (rpc_result data)
      end
  end.

(** Library functions: [base64.b64decode] on a [str]; [int] and [float] on
    a [str] ([None] for [ValueError]); the built-in [sum] on floats, which
    adds from left to right before Python 3.12 and with a compensation
    since; the format [{:.2f}]; [str] as an f-string applies it; and the
    exception of [datetime.utcfromtimestamp] for an instant outside the
    range of [datetime], whose class and text depend on the platform. *)
Record Lib := mkLib {
  b64decode : string → Outcome (list Byte.byte);
  parse_int : string → option Z;
  parse_float : string → option Float;
  float_sum : list Float → Float;
  format_2f : Float → string;
  str_of : Json → string;
  timestamp_out_of_range : Z → Exn
}.

(** Lines 12-20: the constants read from the environment. *)
Record Config := mkConfig {
  LP_MINT_ADDRESS : option string;
  LOCKER_ADDRESSES : gset string
}.

Definition BURN_ADDRESSES : gset string := {[ "11111111111111111111111111111111"%string ]}.

(** [not s] for an optional string: [None] and [""] are falsy. *)
Definition falsy (s : option string) : bool :=
  match s with None => true | Some s => bool_decide (s = ""%string) end.

(** ** [simulate_token_authorities] (lines 39-120) *)

Inductive AuthorityReason :=
  | AuthRpcFailed (e : Exn)            (* line 60 *)
  | AuthNoAccountData                  (* line 65 *)
  | AuthDecodeFailed (e : Exn)         (* line 72 *)
  | AuthParsingError (e : Exn)         (* line 101 *)
  | FreezeAuthorityActive              (* line 105 *)
  | MintAuthorityActive                (* line 110 *)
  | AuthoritiesRenounced.              (* line 116 *)

Definition authority_reason_text (r : AuthorityReason) : string :=
  match r with
  | AuthRpcFailed e => "Mint authority check failed via RPC: " ++ exn_text e
  | AuthNoAccountData => "Mint authority check: no account data returned for this mint."
  | AuthDecodeFailed e =>
      "Mint authority check: failed to decode mint data: " ++ exn_text e
  | AuthParsingError e => "Mint authority parsing error: " ++ exn_text e
  | FreezeAuthorityActive =>
      "Authority Risk: Token has an active freezeAuthority on-chain, allowing accounts "
      ++ "to be frozen."
  | MintAuthorityActive =>
      "Authority Risk: Token has an active mintAuthority on-chain, enabling additional "
      ++ "supply to be minted."
  | AuthoritiesRenounced =>
      "Authority Check: Both mintAuthority and freezeAuthority appear to be renounced."
  end%string.

(** [raw[idx] != 0] *)
Definition nonzero (b : Byte.byte) : bool := negb (Byte.eqb b Byte.x00).

(** Lines 83-99: [(mint_present, freeze_present)], or [None] when an index
    is out of range. *)
Definition parse_mint (raw : list Byte.byte) : option (bool * bool) :=
  let idx := 0%nat in
  mint_auth_option ← raw !! idx;
  let idx := (idx + 1)%nat in
  let mint_present := nonzero mint_auth_option in
  let idx := if mint_present then (idx + 32)%nat else idx in
  let idx := (idx + (8 + 1 + 1))%nat in
  freeze_auth_option ← raw !! idx;
  Some (mint_present, nonzero freeze_auth_option).

(** [IndexError] of [bytes.__getitem__]. *)
Definition index_out_of_range : Exn := mkExn IndexError "index out of range".

(** Lines 104-118. *)
Definition authority_reasons (freeze_present mint_present : bool) : list AuthorityReason :=
  (if freeze_present then [FreezeAuthorityActive] else [])
  ++ (if mint_present then [MintAuthorityActive] else [])
  ++ (if negb freeze_present && negb mint_present then [AuthoritiesRenounced] else []).

Definition simulate_token_authorities_rpc (lib : Lib) (rpc : Rpc) (token_address : string)
    : Outcome (bool * bool * list AuthorityReason) :=
  match _solana_rpc_call "getAccountInfo" (getAccountInfo rpc token_address) with
  | Raises e => Returns (false, false, [AuthRpcFailed e])
  | Returns None => Raises none_has_no_get
  | Returns (Some result) =>
      match value result ≫= data with
      | None | Some [] => Returns (false, false, [AuthNoAccountData])
      | Some (data_b64 :: _) =>
          match b64decode lib data_b64 with
          | Raises e => Returns (false, false, [AuthDecodeFailed e])
          | Returns raw =>
              match parse_mint raw with
              | None => Returns (false, false, [AuthParsingError index_out_of_range])
              | Some (mint_present, freeze_present) =>
                  Returns (freeze_present, mint_present,
                           authority_reasons freeze_present mint_present)
              end
          end
      end
  end.

(** ** [simulate_lp_stability] (lines 123-181) *)

Inductive LpReason :=
  | LpCheckSkipped                     (* line 137 *)
  | LpRpcFailed (e : Exn)              (* line 151 *)
  | LpNoAccounts                       (* line 156 *)
  | LiquidityGuard                     (* line 169 *)
  | UnlockedLiquidity.                 (* line 176 *)

Definition lp_reason_text (r : LpReason) : string :=
  match r with
  | LpCheckSkipped =>
      "Liquidity lock check skipped: LP_MINT_ADDRESS is not configured for this token."
  | LpRpcFailed e => "Liquidity lock check via RPC failed: " ++ exn_text e
  | LpNoAccounts =>
      "Liquidity lock check: no largest accounts returned for LP mint; "
      ++ "cannot determine lock status."
  | LiquidityGuard =>
      "Liquidity Guard: LP token largest accounts include known burn/locker targets; "
      ++ "liquidity appears locked or burned."
  | UnlockedLiquidity =>
      "⚠️ Unlocked Liquidity Risk: LP tokens are not concentrated in known burn/locker "
      ++ "addresses, indicating withdrawable liquidity."
  end%string.

(** The condition of line 167. *)
Definition is_burn_or_locker (cfg : Config) (addr : string) : bool :=
  bool_decide (addr ∈ BURN_ADDRESSES) || bool_decide (addr ∈ LOCKER_ADDRESSES cfg).

(** The loop of lines 163-173: does it reach the [break]? *)
Fixpoint finds_locked (cfg : Config) (accounts : list Account) : bool :=
  match accounts with
  | [] => false
  | acc :: rest =>
      match address acc with
      | Some addr =>
          if bool_decide (addr = ""%string) then finds_locked cfg rest
          else if is_burn_or_locker cfg addr then true
          else finds_locked cfg rest
      | None => finds_locked cfg rest
      end
  end.

(** The parameter [token_address] is not used by the source. *)
Definition simulate_lp_stability_rpc (cfg : Config) (rpc : Rpc) (token_address : string)
    : Outcome (Q * list LpReason) :=
  if falsy (LP_MINT_ADDRESS cfg) then Returns (0%Q, [LpCheckSkipped])
  else
    let lp_mint := default ""%string (LP_MINT_ADDRESS cfg) in
    match _solana_rpc_call "getTokenLargestAccounts" (getTokenLargestAccounts rpc lp_mint) with
    | Raises e => Returns (0.5%Q, [LpRpcFailed e])
    | Returns None => Raises none_has_no_get
    | Returns (Some result) =>
        let accounts := default [] (value result) in
        match accounts with
        | [] => Returns (0.5%Q, [LpNoAccounts])
        | _ =>
            if finds_locked cfg accounts then Returns (0%Q, [LiquidityGuard])
            else Returns (1%Q, [UnlockedLiquidity])
        end
    end.

(** ** [get_top_holders_onchain] (lines 184-277) *)

Inductive HolderReason :=
  | SupplyRpcError (e : Exn)                           (* line 199 *)
  | SupplyInvalidFormat (e : Exn)                      (* line 208 *)
  | SupplyZero                                         (* line 214 *)
  | LargestAccountsRpcError (e : Exn)                  (* line 226 *)
  | NoLargestAccounts                                  (* line 233 *)
  | UnparsableBalances                                 (* line 252 *)
  | WhaleConcentration (addr : string) (pct : Float)   (* line 263 *)
  | TopHolderConcentration (top_10_share : Float).     (* line 272 *)

Definition holder_reason_text (lib : Lib) (r : HolderReason) : string :=
  match r with
  | SupplyRpcError e =>
      "Top-Holder analysis: Data Unavailable (getTokenSupply RPC error: "
      ++ exn_text e ++ ")."
  | SupplyInvalidFormat e =>
      "Top-Holder analysis: Data Unavailable (invalid supply format: " ++ exn_text e ++ ")."
  | SupplyZero => "Top-Holder analysis: Data Unavailable (total supply reported as zero)."
  | LargestAccountsRpcError e =>
      "Top-Holder analysis: Data Unavailable (getTokenLargestAccounts RPC error: "
      ++ exn_text e ++ ")."
  | NoLargestAccounts =>
      "Top-Holder analysis: Data Unavailable (no largest accounts returned)."
  | UnparsableBalances =>
      "Top-Holder analysis: Data Unavailable (unable to parse holder balances)."
  | WhaleConcentration addr pct =>
      "Whale Concentration Risk: Wallet '" ++ addr ++ "' controls "
      ++ format_2f lib pct ++ "% of total supply."
  | TopHolderConcentration share =>
      "Top-Holder Concentration: Top 10 holders collectively own "
      ++ format_2f lib share ++ "% of the verified total supply."
  end%string.

(** [ValueError] of [int] on a string that is no integer literal. *)
Definition invalid_literal (s : string) : Exn :=
  mkExn ValueError ("invalid literal for int() with base 10: '" ++ s ++ "'").

(** Lines 205-206 under the [try] of line 204. *)
Definition total_supply (lib : Lib) (supply_res : option (Reply (option string)))
    : Outcome Z :=
  match supply_res with
  | None => Raises none_has_no_get
  | Some res =>
      let amount := default "0"%string (value res ≫= id) in
      match parse_int lib amount with
      | Some n => Returns n
      | None => Raises (invalid_literal amount)
      end
  end.

(** Line 248: [(amt / total_amount) * 100.0].  The division is one of
    [int]s and raises when its result is too large for a float; it stands
    outside the [try] of line 244. *)
Definition percentage (amt total_amount : Z) : Outcome Float :=
  quotient ← int_true_div amt total_amount;
  Returns (fmul quotient (Finite 100)).

(** The loop of lines 239-249, from the holders collected so far. *)
Fixpoint collect_holders (lib : Lib) (total_amount : Z) (accounts : list Account)
    (holders : list (string * Float)) : Outcome (list (string * Float)) :=
  match accounts with
  | [] => Returns holders
  | acc :: rest =>
      if falsy (address acc) then collect_holders lib total_amount rest holders
      else
        match account_amount acc ≫= parse_int lib with
        | None => collect_holders lib total_amount rest holders
        | Some amt =>
            pct ← percentage amt total_amount;
            collect_holders lib total_amount rest
              (holders ++ [(default ""%string (address acc), pct)])
        end
  end.

(** Line 257: [sum(p for _, p in holders)] *)
Definition sum_pct (lib : Lib) (holders : list (string * Float)) : Float :=
  float_sum lib (snd <$> holders).

(** [max(whale_holders, key=lambda x: x[1])]: the first holder with the
    largest share. *)
Definition largest_of (first : string * Float) (others : list (string * Float))
    : string * Float :=
  foldl (λ best h, if flt best.2 h.2 then h else best) first others.

Definition holder_reasons (holders : list (string * Float)) (top_10_share : Float)
    : list HolderReason :=
  let whale_holders := filter (λ h, flt (Finite 10) h.2) holders in
  (match whale_holders with
   | [] => []
   | first :: others =>
       let largest_whale := largest_of first others in
       [WhaleConcentration largest_whale.1 largest_whale.2]
   end)
  ++ (if flt (Finite 30) top_10_share then [TopHolderConcentration top_10_share] else []).

Definition get_top_holders_onchain_rpc (lib : Lib) (rpc : Rpc) (token_address : string)
    : Outcome (Float * list HolderReason) :=
  match _solana_rpc_call "getTokenSupply" (getTokenSupply rpc token_address) with
  | Raises e => Returns (Finite 0, [SupplyRpcError e])
  | Returns supply_res =>
      match total_supply lib supply_res with
      | Raises e => Returns (Finite 0, [SupplyInvalidFormat e])
      | Returns total_amount =>
          if total_amount <=? 0 then Returns (Finite 0, [SupplyZero])
          else
            match _solana_rpc_call "getTokenLargestAccounts"
                    (getTokenLargestAccounts rpc token_address) with
            | Raises e => Returns (Finite 0, [LargestAccountsRpcError e])
            | Returns None => Raises none_has_no_get
            | Returns (Some largest_res) =>
                let accounts := default [] (value largest_res) in
                match accounts with
                | [] => Returns (Finite 0, [NoLargestAccounts])
                | _ =>
                    holders ← collect_holders lib total_amount (take 10 accounts) [];
                    match holders with
                    | [] => Returns (Finite 0, [UnparsableBalances])
                    | _ =>
                        let top_10_share := sum_pct lib holders in
                        Returns (top_10_share, holder_reasons holders top_10_share)
                    end
                end
            end
      end
  end.

(** ** The engine with its helpers (lines 433-451) *)

(** The engine reads the share in one test only, [top_10_share > 30.0]
    (line 508; so does line 184 of [main.py]), and passes it on.  For the
    engine above, whose share is a rational, a share that is no number is
    replaced by a rational on which that test comes out the same. *)
Definition in_the_test (top_10_share : Float) : Q :=
  match top_10_share with
  | Finite q => q
  | PosInf => 31
  | NegInf | NaN => 0
  end.

(** The world of a call whose clock reads [now_utc] and whose helpers
    returned the given values. *)
Definition world_of (now_utc : Z) (authorities : bool * bool * list string)
    (top_holders lp_stability : Q * list string) : World :=
  {| utcnow := now_utc;
     simulate_token_authorities := λ _, authorities;
     get_top_holders_onchain := λ _, top_holders;
     simulate_lp_stability := λ _, lp_stability |}.

(** The tuple of line 526, with the share as the float it is. *)
Record Returned := mkReturned {
  returned_score : Q;
  returned_reasons : list Reason;
  returned_freeze : bool;
  returned_mint : bool;
  returned_share : Float
}.

Definition returned (a : Assessment) (top_10_share : Float) : Returned :=
  {| returned_score := manipulation_score a;
     returned_reasons := reasons a;
     returned_freeze := freeze_authority_present a;
     returned_mint := mint_authority_present a;
     returned_share := top_10_share |}.

(** [analyze_wallet_clustering] with the bodies of its three helpers, which
    line 439 calls when [token_address is not None]. *)
Definition analyze_wallet_clustering_rpc (lib : Lib) (cfg : Config) (rpc : Rpc)
    (now_utc : Z) (transactions : list Trade) (token_address : option string)
    : Outcome Returned :=
  match token_address with
  | None =>
      Returns (returned
                 (analyze_wallet_clustering
                    (world_of now_utc (false, false, []) (0%Q, []) (0%Q, []))
                    transactions None)
                 (Finite 0))
  | Some addr =>
      '(freeze, mint, ar) ← simulate_token_authorities_rpc lib rpc addr;
      '(top_10, hr) ← get_top_holders_onchain_rpc lib rpc addr;
      '(lp, lr) ← simulate_lp_stability_rpc cfg rpc addr;
      Returns (returned
                 (analyze_wallet_clustering
                    (world_of now_utc
                       (freeze, mint, authority_reason_text <$> ar)
                       (in_the_test top_10, holder_reason_text lib <$> hr)
                       (lp, lp_reason_text <$> lr))
                    transactions (Some addr))
                 top_10)
  end.

(** ** [fetch_top_recent_purchases] (lines 529-601) *)

(** Lines 578-588: the payer among the account keys. *)
Fixpoint find_payer (account_keys : list AccountKey) : option string :=
  match account_keys with
  | [] => None
  | ParsedKey pubkey signer :: rest => if signer then pubkey else find_payer rest
  | BareKey key :: _ => Some key
  end.

(** The seconds since the epoch of 0001-01-01 00:00:00 and of 9999-12-31
    23:59:59. *)
Definition min_timestamp : Z := -62135596800.
Definition max_timestamp : Z := 253402300799.

(** [datetime.utcfromtimestamp(block_time)], in microseconds; it raises for
    an instant outside the range of [datetime]. *)
Definition utcfromtimestamp (lib : Lib) (block_time : Z) : Outcome Z :=
  if (min_timestamp <=? block_time) && (block_time <=? max_timestamp)
  then Returns (block_time * 1000000)
  else Raises (timestamp_out_of_range lib block_time).

(** The loop of lines 552-599 from the signature [signatures] starts with,
    [transactions] being what was appended so far.  Line 590 stands in no
    [try]. *)
Fixpoint collect_purchases (lib : Lib) (rpc : Rpc) (limit : Z)
    (signatures : list SigInfo) (transactions : list Trade) : Outcome (list Trade) :=
  match signatures with
  | [] => Returns transactions
  | sig_info :: rest =>
      if limit <=? Z.of_nat (length transactions) then Returns transactions
      else
        let skip := collect_purchases lib rpc limit rest transactions in
        match signature sig_info, blockTime sig_info with
        | Some sig, Some block_time =>
            if bool_decide (sig = ""%string) then skip
            else
              match _solana_rpc_call "getTransaction" (getTransaction rpc sig) with
              | Raises _ => skip
              | Returns None => skip
              | Returns (Some account_keys) =>
                  let payer := find_payer account_keys in
                  if falsy payer then skip
                  else
                    ts ← utcfromtimestamp lib block_time;
                    collect_purchases lib rpc limit rest
                      (transactions
                       ++ [{| wallet := default ""%string payer;
                              timestamp := ts;
                              amount := None |}])
              end
        | _, _ => skip
        end
  end.

Definition fetch_top_recent_purchases (lib : Lib) (rpc : Rpc) (token_address : string)
    (limit : Z) : Outcome (list Trade) :=
  match _solana_rpc_call "getSignaturesForAddress"
          (getSignaturesForAddress rpc token_address (Z.max (limit * 3) limit)) with
  | Raises _ => Returns []
  | Returns sig_result => collect_purchases lib rpc limit (default [] sig_result) []
  end.

(** * [collector.py] *)

Module collector.

(** Lines 18-19. *)
Record Thresholds := mkThresholds {
  VOLUME_INCREASE_THRESHOLD_PCT : Float;
  WASH_TRADING_RATIO_THRESHOLD : Float
}.

(** The dict returned at lines 97-107. *)
Record Analysis := mkAnalysis {
  pair : string;
  pair_address : Json;
  base_token_address : Json;
  volume_h1 : Float;
  volume_h2 : Float;
  volume_increase_pct : Float;
  liquidity_usd : Float;
  volume_liquidity_ratio : Float;
  wash_trading_risk : string
}.

(** [float(v)] for a truthy [v]. *)
Definition float_of (lib : Lib) (v : Json) : Outcome Float :=
  match v with
  | JBool b => Returns (Finite (if b then 1 else 0))
  | JInt n => float_of_int n
  | JFloat x => Returns x
  | JStr s =>
      match parse_float lib s with
      | Some x => Returns x
      | None => Raises (mkExn ValueError ("could not convert string to float: '" ++ s ++ "'"))
      end
  | _ =>
      Raises (mkExn TypeError
                ("float() argument must be a string or a real number, not '"
                 ++ type_name v ++ "'"))
  end.

(** [float(d.get(key) or 0.0)] *)
Definition float_or_zero (lib : Lib) (d : Json) (key : string) : Outcome Float :=
  found ← obj_get d key;
  match found with
  | Some v => if truthy v then float_of lib v else Returns (Finite 0)
  | None => Returns (Finite 0)
  end.

(** Lines 69-107, the body of the [try]. *)
Definition analyze_pair_body (lib : Lib) (th : Thresholds) (p : Json)
    : Outcome (option Analysis) :=
  volume ← obj_get_or p "volume" (JObj []);
  liquidity ← obj_get_or p "liquidity" (JObj []);
  vol_h1 ← float_or_zero lib volume "h1";
  vol_h2 ← float_or_zero lib volume "h2";
  if fle vol_h2 (Finite 0) then Returns None
  else
    liquidity_usd ← float_or_zero lib liquidity "usd";
    if fle liquidity_usd (Finite 0) then Returns None
    else
      increase ← fdiv (fsub vol_h1 vol_h2) vol_h2;
      let volume_increase_pct := fmul increase (Finite 100) in
      if fle volume_increase_pct (VOLUME_INCREASE_THRESHOLD_PCT th) then Returns None
      else
        volume_liquidity_ratio ← fdiv vol_h1 liquidity_usd;
        let high_wash_trading_risk :=
          flt (WASH_TRADING_RATIO_THRESHOLD th) volume_liquidity_ratio in
        base_token ← obj_get_or p "baseToken" (JObj []);
        base_symbol ← obj_get_or base_token "symbol" (JStr "UNKNOWN");
        quote_token ← obj_get_or p "quoteToken" (JObj []);
        quote_symbol ← obj_get_or quote_token "symbol" (JStr "UNKNOWN");
        base_token ← obj_get_or p "baseToken" (JObj []);
        base_address ← obj_get_or base_token "address" JNull;
        pair_address ← obj_get_or p "pairAddress" (JStr "N/A");
        Returns (Some {|
          pair := str_of lib base_symbol ++ "/" ++ str_of lib quote_symbol;
          pair_address := pair_address;
          base_token_address := base_address;
          volume_h1 := vol_h1;
          volume_h2 := vol_h2;
          volume_increase_pct := volume_increase_pct;
          liquidity_usd := liquidity_usd;
          volume_liquidity_ratio := volume_liquidity_ratio;
          wash_trading_risk :=
            if high_wash_trading_risk then "High Wash-Trading Risk" else "Normal"
        |}%string).

(** The classes that line 109 catches. *)
Definition caught (e : Exn) : bool :=
  match exn_class e with TypeError | ValueError => true | _ => false end.

(** Lines 61-112: [Returns None] is the [return None] of lines 79, 83, 87
    and 112; any other exception leaves the function. *)
Definition analyze_pair (lib : Lib) (th : Thresholds) (p : Json)
    : Outcome (option Analysis) :=
  match analyze_pair_body lib th p with
  | Raises e => if caught e then Returns None else Raises e
  | Returns r => Returns r
  end.

End collector.

(** * [main.py] and [models.py] *)

Module main.

(** ** The rate limiter (lines 55-77) *)

(** Lines 24-25. *)
Record Limits := mkLimits {
  RATE_LIMIT_REQUESTS : Z;
  RATE_LIMIT_WINDOW_SEC : Z
}.

Definition too_many_requests : Exn :=
  mkExn HTTPException "Rate limit exceeded. Try again later.".

(** One call of [rate_limiter] on the store [_rate_limit_store], with
    [now] the reading of [time.time()]: the store it leaves, and whether
    it returns or raises the 429. *)
Definition rate_limiter (lim : Limits) (store : gmap string (Z * Q))
    (client : option string) (now : Q) : gmap string (Z * Q) * Outcome unit :=
  let client_ip := default "unknown"%string client in
  let '(count, window_start) := default (0, now) (store !! client_ip) in
  let '(count, window_start) :=
    if Qlt_bool (inject_Z (RATE_LIMIT_WINDOW_SEC lim)) (now - window_start)
    then (0, now) else (count, window_start) in
  let count := count + 1 in
  let store := <[client_ip := (count, window_start)]> store in
  (store,
   if RATE_LIMIT_REQUESTS lim <? count then Raises too_many_requests else Returns ()).

(** ** [models.py] *)

(** [RiskAnalysisRequest]: the field [max_transactions] after validation
    ([Field(10, ge=1, le=50)]); the body may leave it out. *)
Definition validate_request (max_transactions : option Z) : Outcome Z :=
  let n := default 10 max_transactions in
  if (1 <=? n) && (n <=? 50) then Returns n
  else Raises (mkExn ValidationError "max_transactions").

(** [PairRisk] *)
Record PairRisk := mkPairRisk {
  risk_pair : string;
  risk_pair_address : string;
  risk_base_token_address : option string;
  risk_volume_h1 : Float;
  risk_volume_h2 : Float;
  risk_volume_increase_pct : Float;
  risk_liquidity_usd : Float;
  risk_volume_liquidity_ratio : Float;
  risk_wash_trading_risk : string
}.

(** The [PairRisk] that line 169 makes of the dict [analyzed]:
    [pair_address] has to be a [str] and
    [base_token_address] a [str] or [None]; the other entries have their
    types from [analyze_pair]. *)
Definition pair_risk (a : collector.Analysis) : Outcome PairRisk :=
  match collector.pair_address a with
  | JStr pair_address =>
      let with_base (base : option string) :=
        Returns {| risk_pair := collector.pair a;
                   risk_pair_address := pair_address;
                   risk_base_token_address := base;
                   risk_volume_h1 := collector.volume_h1 a;
                   risk_volume_h2 := collector.volume_h2 a;
                   risk_volume_increase_pct := collector.volume_increase_pct a;
                   risk_liquidity_usd := collector.liquidity_usd a;
                   risk_volume_liquidity_ratio := collector.volume_liquidity_ratio a;
                   risk_wash_trading_risk := collector.wash_trading_risk a |} in
      match collector.base_token_address a with
      | JStr base => with_base (Some base)
      | JNull => with_base None
      | _ => Raises (mkExn ValidationError "PairRisk")
      end
  | _ => Raises (mkExn ValidationError "PairRisk")
  end.

(** A reason of the response: one of the engine's, or the one appended at
    line 173. *)
Inductive ResponseReason :=
  | EngineReason (r : Reason)
  | DexScreenerWashTrading.

(** [RiskAnalysisResponse] *)
Record RiskAnalysisResponse := mkResponse {
  token_address : string;
  manipulation_score : Q;
  reasons : list ResponseReason;
  analyzed_transactions : nat;
  timestamp_utc : Z;
  pair_risks : list PairRisk;
  freeze_authority_present : bool;
  mint_authority_present : bool;
  trust_score : Q;
  top_holders_share : Float
}.

Definition in_0_100 (x : Q) : bool := Qle_bool 0 x && Qle_bool x 100.

(** The constraints of the model: [ge=0, le=100] on three fields and the
    validator of [token_address]. *)
Definition valid_response (r : RiskAnalysisResponse) : bool :=
  negb (bool_decide (token_address r = ""%string))
  && in_0_100 (manipulation_score r)
  && in_0_100 (trust_score r)
  && fle (Finite 0) (top_holders_share r) && fle (top_holders_share r) (Finite 100).

(** ** [risk_analysis] (lines 113-211) *)

(** What a request meets: the endpoint, the library and the constants, the
    two readings of the clock (line 368 of the engine and line 204) and
    what [fetch_solana_pairs] returns, a list or [None]; [None] also when
    the call raises (lines 152-155). *)
Record Service := mkService {
  rpc : Rpc;
  lib : Lib;
  cfg : Config;
  thresholds : collector.Thresholds;
  utcnow_engine : Z;
  utcnow_response : Z;
  solana_pairs : option (list Json)
}.

Definition unhashable (v : Json) : Exn :=
  mkExn TypeError ("unhashable type: '" ++ type_name v ++ "'").

(** [token_address not in {base_addr, pair_addr}] (line 166): a [list] or
    a [dict] cannot be put in a set; a [str] equals no value of another
    type. *)
Definition not_in_set (token_address : string) (base_addr pair_addr : Json)
    : Outcome bool :=
  match base_addr, pair_addr with
  | (JArr _ | JObj _), _ => Raises (unhashable base_addr)
  | _, (JArr _ | JObj _) => Raises (unhashable pair_addr)
  | _, _ => Returns (negb (is_str token_address base_addr || is_str token_address pair_addr))
  end.

(** The loop of lines 158-169, from the risks appended so far. *)
Fixpoint collect_pair_risks (s : Service) (token_address : string) (pairs : list Json)
    (pair_risks : list PairRisk) : Outcome (list PairRisk) :=
  match pairs with
  | [] => Returns pair_risks
  | p :: rest =>
      analyzed ← collector.analyze_pair (lib s) (thresholds s) p;
      match analyzed with
      | None => collect_pair_risks s token_address rest pair_risks
      | Some analyzed =>
          skip ← not_in_set token_address (collector.base_token_address analyzed)
                   (collector.pair_address analyzed);
          if (skip : bool) then collect_pair_risks s token_address rest pair_risks
          else
            risk ← pair_risk analyzed;
            collect_pair_risks s token_address rest (pair_risks ++ [risk])
      end
  end.

(** Lines 157-169. *)
Definition matching_pairs (s : Service) (token_address : string) : Outcome (list PairRisk) :=
  collect_pair_risks s token_address (default [] (solana_pairs s)) [].

(** The condition of line 172. *)
Definition dex_high_risk (pair_risks : list PairRisk) : bool :=
  existsb (λ p, bool_decide (risk_wash_trading_risk p = "High Wash-Trading Risk"%string))
          pair_risks.

(** Lines 178-186. *)
Definition derive_trust (manipulation_score : Q) (freeze_present mint_present : bool)
    (top_10_share : Q) : Q :=
  let base_trust := Qmax 0 (100 - manipulation_score) in
  let base_trust := if freeze_present then Qmax 0 (base_trust - 20) else base_trust in
  let base_trust := if mint_present then Qmax 0 (base_trust - 20) else base_trust in
  let base_trust :=
    if Qlt_bool 30 top_10_share then Qmax 0 (base_trust - 10) else base_trust in
  base_trust.

(** The exception of lines 133-136. *)
Definition bad_gateway (e : Exn) : Exn :=
  mkExn HTTPException ("Failed to fetch recent transactions: " ++ exn_text e).

(** The handler after request validation and rate limiting; the log
    entries of lines 188-196 are left out. *)
Definition risk_analysis (s : Service) (token : string) (max_transactions : Z)
    : Outcome RiskAnalysisResponse :=
  match fetch_top_recent_purchases (lib s) (rpc s) token max_transactions with
  | Raises e => Raises (bad_gateway e)
  | Returns transactions =>
      '(mkReturned score engine_reasons freeze_present mint_present top_10_share) ←
        analyze_wallet_clustering_rpc (lib s) (cfg s) (rpc s) (utcnow_engine s)
          transactions (Some token);
      pair_risks ← matching_pairs s token;
      let reasons := EngineReason <$> engine_reasons in
      let high := dex_high_risk pair_risks in
      let reasons := if high then reasons ++ [DexScreenerWashTrading] else reasons in
      let score := if high then Qmin 100 (score + 10) else score in
      let response :=
        {| token_address := token;
           manipulation_score := score;
           reasons := reasons;
           analyzed_transactions := length transactions;
           timestamp_utc := utcnow_response s;
           pair_risks := pair_risks;
           freeze_authority_present := freeze_present;
           mint_authority_present := mint_present;
           trust_score :=
             derive_trust score freeze_present mint_present (in_the_test top_10_share);
           top_holders_share := top_10_share |} in
      if valid_response response then Returns response
      else Raises (mkExn ValidationError "RiskAnalysisResponse")
  end.

End main.
(** * Specification vocabulary

    The notions in which the properties below are stated; none of them is
    part of the program. *)

(** The order on keys that [sorted_by] establishes. *)
Definition key_order (reverse : bool) (a b : Z) : Prop :=
  if reverse then b ≤ a else a ≤ b.

(** Trades [i..j] of the sorted list fit in one window. *)
Definition within (ts : list Z) (i j : nat) : Prop :=
  nth j ts 0 - nth i ts 0 ≤ window_size.

(** The number of timestamps in the span [[a, a + 2s]], both ends
    included. *)
Definition count_in_span (a : Z) (ts : list Z) : nat :=
  length (filter (λ t, a ≤ t ≤ a + window_size) ts).

(** The loop invariant after the iterations [end = 0 .. n - 1]. *)
Definition scan_inv (ts : list Z) (n : nat) (st : nat * nat) : Prop :=
  (st.1 ≤ n)%nat ∧
  (∀ s j, (s < st.1)%nat → (n ≤ S j)%nat → (j < length ts)%nat → ¬ within ts s j) ∧
  (∀ i j, (i ≤ j < n)%nat → within ts i j → (j - i + 1 ≤ st.2)%nat) ∧
  (1 ≤ st.2)%nat ∧
  (st.2 = 1%nat ∨ ∃ i j, (i ≤ j < n)%nat ∧ within ts i j ∧ st.2 = (j - i + 1)%nat).

(** The same count, on trades. *)
Definition trades_in_span (a : Z) (txs : list Trade) : nat :=
  length (filter (λ tx, a ≤ timestamp tx ≤ a + window_size) txs).

(** [t] is the earliest timestamp of wallet [w] in the sample [txs]. *)
Definition first_seen (txs : list Trade) (w : string) (t : Z) : Prop :=
  (∃ tx, tx ∈ txs ∧ wallet tx = w ∧ timestamp tx = t) ∧
  (∀ tx, tx ∈ txs → wallet tx = w → t ≤ timestamp tx).

(** A wallet counts as new when its earliest trade in the sample is less
    than 24 hours before the clock reading. *)
Definition younger_than_24h (now_utc : Z) (txs : list Trade) (w : string) : Prop :=
  ∃ t, first_seen txs w t ∧ now_utc - t < 24 * 3600 * 1000000.

(** The distinct elements of [l] that are not in [seen], each at the place
    of its first occurrence. *)
Fixpoint first_occurrences (seen l : list string) : list string :=
  match l with
  | [] => []
  | x :: l' =>
      if decide (x ∈ seen) then first_occurrences seen l'
      else x :: first_occurrences (seen ++ [x]) l'
  end.

(** [in_time_order] holds the trades of [transactions] by ascending
    timestamp, trades with the same timestamp in the order of the input. *)
Definition time_ordered (transactions in_time_order : list Trade) : Prop :=
  in_time_order ≡ₚ transactions ∧
  StronglySorted Z.le (timestamp <$> in_time_order) ∧
  ∀ t, filter (λ tx, timestamp tx = t) in_time_order
       = filter (λ tx, timestamp tx = t) transactions.

(** [recent] is the last [n] elements of [l], all of [l] when it has
    fewer. *)
Definition last_up_to {A} (n : nat) (l recent : list A) : Prop :=
  ∃ older, l = older ++ recent ∧ length recent = Nat.min n (length l).

(** [t] is the latest timestamp of the sample. *)
Definition is_latest (txs : list Trade) (t : Z) : Prop :=
  (∃ tx, tx ∈ txs ∧ timestamp tx = t) ∧ (∀ tx, tx ∈ txs → timestamp tx ≤ t).

(** The trades of the sample from the instant [start] on. *)
Definition trades_since (start : Z) (txs : list Trade) : list Trade :=
  filter (λ tx, start ≤ timestamp tx) txs.

(** The number of distinct wallets among the trades [txs]. *)
Definition distinct_wallets (txs : list Trade) : nat :=
  size (list_to_set (wallet <$> txs) : gset string).

(** The number of trades of wallet [w] in the sample. *)
Definition trade_count (w : string) (txs : list Trade) : nat :=
  length (filter (λ tx, wallet tx = w) txs).

(** [top] lists at most three wallets with their trade counts, and no
    wallet outside [top] has more trades than one inside. *)
Definition is_top3 (txs : list Trade) (top : list (string * nat)) : Prop :=
  NoDup top.*1 ∧
  length top = Nat.min 3 (distinct_wallets txs) ∧
  (∀ w c, (w, c) ∈ top → w ∈ wallet <$> txs ∧ c = trade_count w txs) ∧
  (∀ w c w', (w, c) ∈ top → w' ∉ top.*1 → (trade_count w' txs ≤ c)%nat).

(** The wash-trading condition on a choice [top] of top wallets: their
    trades are at least 0.6 of all [total] trades and each of them has at
    least 2. *)
Definition wash_condition (total : nat) (top : list (string * nat)) : Prop :=
  (0.6 <= Qnat (sum_list top.*2) / Qnat total)%Q ∧
  ∀ w c, (w, c) ∈ top → (2 ≤ c)%nat.

(** * Sample inputs *)

(** A trade without an amount. *)
Definition trade (w : string) (t : Z) : Trade :=
  {| wallet := w; timestamp := t; amount := None |}.

(** A world in which every helper reports nothing. *)
Definition quiet_world (now_utc : Z) : World :=
  {| utcnow := now_utc;
     simulate_token_authorities := λ _, (false, false, []);
     get_top_holders_onchain := λ _, (0%Q, []);
     simulate_lp_stability := λ _, (0%Q, []) |}.

(** Instants and durations in microseconds. *)
Definition seconds (n : Z) : Z := n * 1000000.
Definition hours (n : Z) : Z := n * 3600 * 1000000.

(** A world whose RPC reports a live freeze authority; its clock reads
    hour 100. *)
Definition frozen_world : World :=
  {| utcnow := hours 100;
     simulate_token_authorities := λ _, (true, false, []);
     get_top_holders_onchain := λ _, (0%Q, []);
     simulate_lp_stability := λ _, (0%Q, []) |}.

(** Five trades a minute apart from five wallets. *)
Definition spread_trades : list Trade :=
  [trade "a" (seconds 0); trade "b" (seconds 60); trade "c" (seconds 120);
   trade "d" (seconds 180); trade "e" (seconds 240)].

(** Ten wallets. *)
Definition turn_wallets : list string :=
  ["a"; "c1"; "c2"; "c3"; "c4"; "c5"; "c6"; "c7"; "c8"; "c9"]%string.

(** Four trades out of time order; two of them are one second apart. *)
Definition loose_trades : list Trade :=
  [trade "a" (seconds 5); trade "b" (seconds 0); trade "c" (seconds 6);
   trade "d" (seconds 60)].

(** Ten trades from ten wallets within one second. *)
Definition burst_trades : list Trade :=
  (λ k, trade (nth k turn_wallets ""%string) (Z.of_nat k * 100000)) <$> seq 0 10.

(** Wallets A, B and C trade 4, 3 and 2 times, wallet D once. *)
Definition wash_trades : list Trade :=
  [trade "A" (seconds 0); trade "B" (seconds 100); trade "C" (seconds 200);
   trade "A" (seconds 300); trade "D" (seconds 400); trade "B" (seconds 500);
   trade "A" (seconds 600); trade "C" (seconds 700); trade "B" (seconds 800);
   trade "A" (seconds 900)].

(** Eight trades within four minutes from three wallets. *)
Definition busy_trades : list Trade :=
  [trade "a" (seconds 30); trade "b" (seconds 0); trade "c" (seconds 60);
   trade "a" (seconds 90); trade "b" (seconds 120); trade "c" (seconds 150);
   trade "a" (seconds 180); trade "b" (seconds 210)].

(** Twelve wallets that trade once each in hour 0, a second apart. *)
Definition old_wallets : list string :=
  ["o00"; "o01"; "o02"; "o03"; "o04"; "o05"; "o06"; "o07"; "o08"; "o09"; "o10";
   "o11"]%string.

Definition old_trades : list Trade :=
  (λ k, trade (nth k old_wallets ""%string) (seconds (Z.of_nat k))) <$> seq 0 12.

(** Twelve wallets that take turns in hour 47, two trades every second,
    50 trades in all. *)
Definition young_wallets : list string :=
  ["y00"; "y01"; "y02"; "y03"; "y04"; "y05"; "y06"; "y07"; "y08"; "y09"; "y10";
   "y11"]%string.

Definition young_trades : list Trade :=
  (λ k, trade (nth (k mod 12) young_wallets ""%string)
              (hours 47 + seconds (Z.of_nat (k / 2)))) <$> seq 0 50.

(** The 62 trades as a caller may pass them, the later ones first. *)
Definition late_surge_trades : list Trade := young_trades ++ old_trades.

(** The ten wallets take turns, one trade every ten minutes, 49 trades in
    all. *)
Definition turns : list Trade :=
  (λ k, trade (nth ((k - 1) mod 10) turn_wallets ""%string)
              (Z.of_nat k * 600 * 1000000)) <$> seq 1 49.

(** Fifty-one trades: wallets "a" and "b" both trade at instant 0, in
    either input order, before the 49 [turns]. *)
Definition tied_a_first : list Trade := trade "a" 0 :: trade "b" 0 :: turns.
Definition tied_b_first : list Trade := trade "b" 0 :: trade "a" 0 :: turns.

(** A world that answers like [quiet_world] except about the mint
    "other". *)
Definition other_world (now_utc : Z) : World :=
  {| utcnow := now_utc;
     simulate_token_authorities := λ a,
       if String.eqb a "other" then (true, true, []) else (false, false, []);
     get_top_holders_onchain := λ _, (0%Q, []);
     simulate_lp_stability := λ a,
       if String.eqb a "other" then (1%Q, []) else (0%Q, []) |}.

(** Two trades ten seconds apart from two wallets. *)
Definition two_trades : list Trade := [trade "a" (seconds 0); trade "b" (seconds 10)].

(** A caller's heap: the list at 1 holds the dict at 3 twice and the dict
    at 2 once, out of time order. *)
Definition caller_heap : gmap positive Obj :=
  <[1%positive := ListObj [3; 2; 3]%positive]>
    (<[2%positive := DictObj (trade "a" (seconds 5))]>
       (<[3%positive := DictObj (trade "b" (seconds 7))]> ∅)).


(** * Vocabulary and samples for the helpers and the service *)

(** ** Floats *)

(** A float that is a number or an infinity. *)
Definition ordered (x : Float) : Prop := x ≠ NaN.

(** ** Replies of the endpoint *)

(** An endpoint that is down: every call raises. *)
Definition connect_error : Exn := mkExn HTTPError "All connection attempts failed".

Definition rpc_down : Rpc :=
  {| getAccountInfo := λ _, Raises connect_error;
     getTokenSupply := λ _, Raises connect_error;
     getTokenLargestAccounts := λ _, Raises connect_error;
     getSignaturesForAddress := λ _ _, Raises connect_error;
     getTransaction := λ _, Raises connect_error |}.

(** The account data behind a reply of getAccountInfo: the first entry of
    "data", decoded. *)
Definition decoded_account (lib : Lib) (rpc : Rpc) (token_address : string)
    (raw : list Byte.byte) : Prop :=
  ∃ d result v data_b64 rest,
    getAccountInfo rpc token_address = Returns d ∧ rpc_error d = None ∧
    rpc_result d = Some result ∧ value result = Some v ∧
    data v = Some (data_b64 :: rest) ∧ b64decode lib data_b64 = Returns raw.


(** The accounts that the endpoint lists for the configured LP mint. *)
Definition lp_accounts (cfg : Config) (rpc : Rpc) (accounts : list Account) : Prop :=
  ∃ lp_mint d result,
    LP_MINT_ADDRESS cfg = Some lp_mint ∧ lp_mint ≠ ""%string ∧
    getTokenLargestAccounts rpc lp_mint = Returns d ∧ rpc_error d = None ∧
    rpc_result d = Some result ∧ default [] (value result) = accounts.

(** An LP mint is configured and the call for its largest accounts raises
    [e]: the round trip fails, or the body carries an "error". *)
Definition lp_call_fails (cfg : Config) (rpc : Rpc) (e : Exn) : Prop :=
  ∃ lp_mint,
    LP_MINT_ADDRESS cfg = Some lp_mint ∧ lp_mint ≠ ""%string ∧
    _solana_rpc_call "getTokenLargestAccounts" (getTokenLargestAccounts rpc lp_mint)
      = Raises e.

(** An LP mint is configured and the reply for its largest accounts has a
    null "result" and no "error". *)
Definition lp_null_result (cfg : Config) (rpc : Rpc) : Prop :=
  ∃ lp_mint d,
    LP_MINT_ADDRESS cfg = Some lp_mint ∧ lp_mint ≠ ""%string ∧
    getTokenLargestAccounts rpc lp_mint = Returns d ∧ rpc_error d = None ∧
    rpc_result d = None.

(** The account has an address, and it is the burn address or one of the
    configured lockers. *)
Definition burnt_or_locked (cfg : Config) (acc : Account) : Prop :=
  ∃ addr, address acc = Some addr ∧ addr ≠ ""%string ∧
          (addr ∈ BURN_ADDRESSES ∨ addr ∈ LOCKER_ADDRESSES cfg).

(** The balances that [get_top_holders_onchain] counts: those of the
    accounts with an address and an "amount" that [int] parses. *)
Fixpoint counted_amounts (lib : Lib) (accounts : list Account) : list Z :=
  match accounts with
  | [] => []
  | acc :: rest =>
      if falsy (address acc) then counted_amounts lib rest
      else
        match account_amount acc ≫= parse_int lib with
        | Some amt => amt :: counted_amounts lib rest
        | None => counted_amounts lib rest
        end
  end.

(** The values of a list of calls of which none raises; otherwise the
    exception of the first that does. *)
Fixpoint all_returned {A} (calls : list (Outcome A)) : Outcome (list A) :=
  match calls with
  | [] => Returns []
  | call :: rest =>
      a ← call;
      others ← all_returned rest;
      Returns (a :: others)
  end.

(** The endpoint reports the positive supply [total_amount] and lists the
    largest accounts [accounts], at least one. *)
Definition supply_and_accounts (lib : Lib) (rpc : Rpc) (token_address : string)
    (total_amount : Z) (accounts : list Account) : Prop :=
  ∃ supply_res largest_res,
    _solana_rpc_call "getTokenSupply" (getTokenSupply rpc token_address)
      = Returns supply_res ∧
    total_supply lib supply_res = Returns total_amount ∧ 0 < total_amount ∧
    _solana_rpc_call "getTokenLargestAccounts" (getTokenLargestAccounts rpc token_address)
      = Returns (Some largest_res) ∧
    default [] (value largest_res) = accounts ∧ accounts ≠ [].

(** A reason that says "Data Unavailable". *)
Definition data_unavailable (r : HolderReason) : Prop :=
  match r with
  | WhaleConcentration _ _ | TopHolderConcentration _ => False
  | _ => True
  end.

(** ** Recent purchases *)

(** The signatures that [fetch_top_recent_purchases] walks through. *)
Definition signatures_of (rpc : Rpc) (token_address : string) (limit : Z) : list SigInfo :=
  match _solana_rpc_call "getSignaturesForAddress"
          (getSignaturesForAddress rpc token_address (Z.max (limit * 3) limit)) with
  | Returns sig_result => default [] sig_result
  | Raises _ => []
  end.

(** A block time that [datetime] can hold. *)
Definition in_range (block_time : Z) : Prop :=
  min_timestamp ≤ block_time ≤ max_timestamp.

(** The purchase behind one signature, when its transaction is there and
    has a payer: the trade, or the exception of the conversion of its
    block time. *)
Definition purchase_of (lib : Lib) (rpc : Rpc) (sig_info : SigInfo)
    : option (Outcome Trade) :=
  sig ← signature sig_info;
  block_time ← blockTime sig_info;
  if bool_decide (sig = ""%string) then None
  else
    match _solana_rpc_call "getTransaction" (getTransaction rpc sig) with
    | Returns (Some account_keys) =>
        payer ← find_payer account_keys;
        if bool_decide (payer = ""%string) then None
        else Some (ts ← utcfromtimestamp lib block_time;
                   Returns {| wallet := payer; timestamp := ts; amount := None |})
    | _ => None
    end.

(** ** The engine with its helpers *)

(** The body of the reply has a null "result" and no "error". *)
Definition null_result {R} (resp : Outcome (Envelope R)) : Prop :=
  ∃ d, resp = Returns d ∧ rpc_error d = None ∧ rpc_result d = None.

(** Every call that the helpers and the listing of signatures make
    raises. *)
Definition endpoint_fails (rpc : Rpc) : Prop :=
  (∀ a, ∃ e, getAccountInfo rpc a = Raises e) ∧
  (∀ a, ∃ e, getTokenSupply rpc a = Raises e) ∧
  (∀ a, ∃ e, getTokenLargestAccounts rpc a = Raises e) ∧
  (∀ a n, ∃ e, getSignaturesForAddress rpc a n = Raises e).

(** The reasons of the four trade detectors. *)
Definition from_trades (r : Reason) : Prop :=
  match r with
  | SequentialBuying _ _ | NewWalletConcentration _ _ | FreshWalletSurge _ _
  | HighVolumeLowDiversity _ _ => True
  | _ => False
  end.

(** ** The service *)

(** What lines 180-185 take off the trust score. *)
Definition trust_penalty (freeze_present mint_present : bool) (top_10_share : Q) : Q :=
  (if freeze_present then 20 else 0) + (if mint_present then 20 else 0)
  + (if Qlt_bool 30 top_10_share then 10 else 0).

(** A pair of the DexScreener listing that [analyze_pair] reports, whose
    base token address or pair address is the token, and whose reported
    ratio of volume to liquidity is above the threshold. *)
Definition high_risk_pair (s : main.Service) (token : string) : Prop :=
  ∃ p a,
    p ∈ default [] (main.solana_pairs s) ∧
    collector.analyze_pair (main.lib s) (main.thresholds s) p = Returns (Some a) ∧
    (is_str token (collector.base_token_address a) = true
     ∨ is_str token (collector.pair_address a) = true) ∧
    flt (collector.WASH_TRADING_RATIO_THRESHOLD (main.thresholds s))
        (collector.volume_liquidity_ratio a) = true.

(** The key of a request in [_rate_limit_store]. *)
Definition client_key (client : option string) : string := default "unknown"%string client.

(** Successive calls of [rate_limiter], each with its client and its
    reading of the clock: the store they leave and their outcomes. *)
Fixpoint rate_limiter_run (lim : main.Limits) (store : gmap string (Z * Q))
    (requests : list (option string * Q)) : gmap string (Z * Q) * list (Outcome unit) :=
  match requests with
  | [] => (store, [])
  | (client, now) :: rest =>
      let '(store, outcome) := main.rate_limiter lim store client now in
      let '(store, outcomes) := rate_limiter_run lim store rest in
      (store, outcome :: outcomes)
  end.

(** The outcomes of the requests of one client. *)
Definition outcomes_of (key : string) (requests : list (option string * Q))
    (outcomes : list (Outcome unit)) : list (Outcome unit) :=
  snd <$> filter (λ ro, client_key ro.1.1 = key) (zip requests outcomes).

(** ** A sample endpoint and service *)

(** A sample [int]: unsigned decimal literals. *)
Fixpoint decimal_digits (s : string) (acc : Z) : option Z :=
  match s with
  | EmptyString => Some acc
  | String c rest =>
      let d := Z.of_nat (Ascii.nat_of_ascii c) - 48 in
      if (0 <=? d) && (d <=? 9) then decimal_digits rest (10 * acc + d) else None
  end.

Definition decimal_int (s : string) : option Z :=
  match s with EmptyString => None | _ => decimal_digits s 0 end.

(** A mint account of 44 bytes whose bytes 0 and 43 are 1, and its
    Base64 text. *)
Definition frozen_mint_bytes : list Byte.byte :=
  [Byte.x01] ++ replicate 42 Byte.x00 ++ [Byte.x01].

Definition frozen_mint_b64 : string :=
  "AQAAAAAAAAAAAAAAAAAAAAAAAAAAAAAAAAAAAAAAAAAAAAAAAAAAAAAAAAE=".

(** A sample [float] on a [str]: the same literals, rounded. *)
Definition decimal_float (s : string) : option Float :=
  n ← decimal_int s; Some (round64 (inject_Z n)).

(** [sum] as the interpreters before 3.12 have it. *)
Definition added_left_to_right (terms : list Float) : Float :=
  foldl fadd (Finite 0) terms.

(** A sample library: [b64decode] knows the text above and rejects every
    other one, [str] is given for [str], [None] and [bool], and [format_2f]
    is left constant (no property reads a text). *)
Definition sample_lib : Lib :=
  {| b64decode := λ s,
       if String.eqb s frozen_mint_b64 then Returns frozen_mint_bytes
       else Raises (mkExn ValueError "Incorrect padding");
     parse_int := decimal_int;
     parse_float := decimal_float;
     float_sum := added_left_to_right;
     format_2f := λ _, "#.##"%string;
     str_of := λ v,
       match v with
       | JStr s => s
       | JBool true => "True"
       | JBool false => "False"
       | _ => "None"
       end%string;
     timestamp_out_of_range := λ _, mkExn ValueError "year is out of range" |}.

(** A reply without error. *)
Definition reply {R} (r : R) : Outcome (Envelope R) := Returns (mkEnvelope None (Some r)).

(** Four listed accounts: two that count, one without address and one
    whose amount is no number. *)
Definition sample_accounts : list Account :=
  [mkAccount (Some "whale") (Some "400"); mkAccount (Some "w2") (Some "50");
   mkAccount None (Some "70"); mkAccount (Some "w3") (Some "n/a")]%string.

(** An endpoint that answers: the mint above, a supply of 1000, the four
    accounts (for the LP mint: the burn address), and five signatures of
    which the first and the last resolve to a payer. *)
Definition sample_rpc : Rpc :=
  {| getAccountInfo := λ _,
       reply (mkReply (Some (mkAccountValue (Some [frozen_mint_b64; "base64"%string]))));
     getTokenSupply := λ _, reply (mkReply (Some (Some "1000"%string)));
     getTokenLargestAccounts := λ a,
       if String.eqb a "lpmint"
       then reply (mkReply (Some [mkAccount (Some "11111111111111111111111111111111"%string)
                                            (Some "5"%string)]))
       else reply (mkReply (Some sample_accounts));
     getSignaturesForAddress := λ _ _,
       reply [mkSigInfo (Some "s1") (Some 10); mkSigInfo (Some "") (Some 11);
              mkSigInfo (Some "s2") None; mkSigInfo (Some "s3") (Some 12);
              mkSigInfo (Some "s4") (Some 13)]%string;
     getTransaction := λ sig,
       if String.eqb sig "s1"
       then reply [ParsedKey (Some "fee") false; ParsedKey (Some "payer1") true]%string
       else if String.eqb sig "s4" then reply [BareKey "payer4"]
       else Raises connect_error |}.

(** An endpoint whose getAccountInfo has a null result. *)
Definition null_rpc : Rpc :=
  {| getAccountInfo := λ _, Returns (mkEnvelope None None);
     getTokenSupply := getTokenSupply sample_rpc;
     getTokenLargestAccounts := getTokenLargestAccounts sample_rpc;
     getSignaturesForAddress := getSignaturesForAddress sample_rpc;
     getTransaction := getTransaction sample_rpc |}.

Definition sample_cfg : Config :=
  {| LP_MINT_ADDRESS := Some "lpmint"%string; LOCKER_ADDRESSES := ∅ |}.

(** A world that reports a live mint authority and nothing else. *)
Definition minting_world (now_utc : Z) : World :=
  world_of now_utc (false, true, ["mint authority"%string]) (0%Q, []) (0%Q, []).

(** An endpoint that reports a supply of 100 and two accounts, of 28 and
    of 2. *)
Definition rounding_rpc : Rpc :=
  {| getAccountInfo := getAccountInfo sample_rpc;
     getTokenSupply := λ _, reply (mkReply (Some (Some "100"%string)));
     getTokenLargestAccounts := λ _,
       reply (mkReply (Some [mkAccount (Some "w1") (Some "28");
                             mkAccount (Some "w2") (Some "2")]%string));
     getSignaturesForAddress := getSignaturesForAddress sample_rpc;
     getTransaction := getTransaction sample_rpc |}.

(** An endpoint that reports a supply of 1000 and one account whose balance
    is a 1 followed by four hundred zeros. *)
Fixpoint zeros (n : nat) : string :=
  match n with O => ""%string | S n => ("0" ++ zeros n)%string end.

Definition huge_rpc : Rpc :=
  {| getAccountInfo := getAccountInfo sample_rpc;
     getTokenSupply := getTokenSupply sample_rpc;
     getTokenLargestAccounts := λ _,
       reply (mkReply (Some [mkAccount (Some "w1"%string) (Some ("1" ++ zeros 400)%string)]));
     getSignaturesForAddress := getSignaturesForAddress sample_rpc;
     getTransaction := getTransaction sample_rpc |}.

(** An endpoint whose third signature has a block time in the year 10000. *)
Definition late_rpc : Rpc :=
  {| getAccountInfo := getAccountInfo sample_rpc;
     getTokenSupply := getTokenSupply sample_rpc;
     getTokenLargestAccounts := getTokenLargestAccounts sample_rpc;
     getSignaturesForAddress := λ _ _,
       reply [mkSigInfo (Some "s1") (Some 10); mkSigInfo (Some "s3") (Some 12);
              mkSigInfo (Some "s4") (Some 253402300800)]%string;
     getTransaction := getTransaction sample_rpc |}.

(** A pair of the token "mint" whose last-hour volume is fifty times that
    of the hour before and twenty-five times its liquidity; a pair without
    previous-hour volume; a pair whose "volume" is null; and a pair whose
    previous-hour volume is no number. *)
Definition hot_pair : Json :=
  JObj [("volume", JObj [("h1", JInt 5000); ("h2", JFloat (Finite 100))]);
        ("liquidity", JObj [("usd", JStr "200")]);
        ("baseToken", JObj [("symbol", JStr "TKN"); ("address", JStr "mint")]);
        ("quoteToken", JObj [("symbol", JStr "SOL")]);
        ("pairAddress", JStr "pair1")]%string.

Definition stale_pair : Json :=
  JObj [("volume", JObj [("h1", JInt 5000)]);
        ("liquidity", JObj [("usd", JInt 200)]);
        ("baseToken", JObj [("address", JStr "mint")])]%string.

Definition null_volume_pair : Json :=
  JObj [("volume", JNull); ("liquidity", JObj [("usd", JInt 200)])]%string.

Definition nan_pair : Json :=
  JObj [("volume", JObj [("h1", JInt 1); ("h2", JFloat NaN)]);
        ("liquidity", JObj [("usd", JInt 200)])]%string.

(** A pair whose last-hour volume is 3.0 and whose liquidity is the float
    nearest to 0.3. *)
Definition tenfold_pair : Json :=
  JObj [("volume", JObj [("h1", JInt 3); ("h2", JInt 1)]);
        ("liquidity", JObj [("usd", JFloat (round64 (3 # 10)))])]%string.

Definition sample_thresholds : collector.Thresholds :=
  {| collector.VOLUME_INCREASE_THRESHOLD_PCT := Finite 50;
     collector.WASH_TRADING_RATIO_THRESHOLD := Finite 10 |}.

Definition sample_service : main.Service :=
  {| main.rpc := sample_rpc; main.lib := sample_lib; main.cfg := sample_cfg;
     main.thresholds := sample_thresholds;
     main.utcnow_engine := hours 100; main.utcnow_response := hours 100 + seconds 1;
     main.solana_pairs := Some [stale_pair; hot_pair] |}.

(** The same service in front of an endpoint that is down. *)
Definition down_service : main.Service :=
  {| main.rpc := rpc_down; main.lib := sample_lib; main.cfg := sample_cfg;
     main.thresholds := sample_thresholds;
     main.utcnow_engine := hours 100; main.utcnow_response := hours 100 + seconds 1;
     main.solana_pairs := None |}.

(** The sample service with other parts. *)
Definition with_rpc (r : Rpc) (s : main.Service) : main.Service :=
  {| main.rpc := r; main.lib := main.lib s; main.cfg := main.cfg s;
     main.thresholds := main.thresholds s;
     main.utcnow_engine := main.utcnow_engine s;
     main.utcnow_response := main.utcnow_response s;
     main.solana_pairs := main.solana_pairs s |}.

Definition with_pairs (pairs : list Json) (s : main.Service) : main.Service :=
  {| main.rpc := main.rpc s; main.lib := main.lib s; main.cfg := main.cfg s;
     main.thresholds := main.thresholds s;
     main.utcnow_engine := main.utcnow_engine s;
     main.utcnow_response := main.utcnow_response s;
     main.solana_pairs := Some pairs |}.

(** Three requests per window of sixty seconds. *)
Definition sample_limits : main.Limits :=
  {| main.RATE_LIMIT_REQUESTS := 3; main.RATE_LIMIT_WINDOW_SEC := 60 |}.

(** * Properties *)

(** ** Float comparisons *)

Lemma Qlt_bool_iff a b : Qlt_bool a b = true ↔ (a < b)%Q.
Proof.
  unfold Qlt_bool. rewrite negb_true_iff. split.
  - intros H. apply Qnot_le_lt. intros Hle.
    apply Qle_bool_iff in Hle. congruence.
  - intros H. destruct (Qle_bool b a) eqn:E; [|done].
    apply Qle_bool_iff in E. exfalso. by apply (Qlt_not_le a b).
Qed.

(** ** The aggregation policy *)

Lemma Qlt_bool_false a b : Qlt_bool a b = false ↔ (b <= a)%Q.
Proof.
  unfold Qlt_bool. rewrite negb_false_iff. apply Qle_bool_iff.
Qed.

Lemma aggregate_score_range total sr war hr wr facts :
  (0 <= aggregate_score total sr war hr wr facts <= 100)%Q.
Proof.
  unfold aggregate_score. cbv zeta. split.
  - apply Q.le_max_l.
  - apply Q.max_lub; [done|]. apply Q.le_min_l.
Qed.

(** A floor step [if guard and score < 85: score = 85] leaves a score of
    at least 85 whenever the guard holds. *)
Lemma floor_step_ge (guard : bool) (s : Q) :
  guard = true → (85 <= (if guard && Qlt_bool s 85 then 85 else s))%Q.
Proof.
  intros ->. simpl. destruct (Qlt_bool s 85) eqn:E.
  - apply Qle_refl.
  - by apply Qlt_bool_false.
Qed.

Lemma clamp_ge_85 (s : Q) : (85 <= s)%Q → (85 <= Qmax 0 (Qmin 100 s))%Q.
Proof.
  intros H. apply Qle_trans with (Qmin 100 s); [|apply Q.le_max_r].
  apply Q.min_glb; [done|exact H].
Qed.

Lemma aggregate_score_floor total sr war hr wr facts :
  (0 < total)%nat →
  (0 < lp_risk facts)%Q ∨ freeze_present facts = true →
  (85 <= aggregate_score total sr war hr wr facts)%Q.
Proof.
  intros Htotal Hrisk. unfold aggregate_score. cbv zeta.
  apply clamp_ge_85.
  apply floor_step_ge, andb_true_iff. split.
  - by apply Nat.ltb_lt.
  - destruct Hrisk as [H|H].
    + apply Qlt_bool_iff in H. by rewrite H.
    + rewrite H. by rewrite orb_true_r.
Qed.

(** ** The stable sort *)

Section sorted_by_facts.
Context {A : Type} (key : A → Z) (reverse : bool).

Lemma goes_before_spec x y :
  goes_before key reverse x y = true ↔ key_order reverse (key x) (key y).
Proof. unfold goes_before, key_order. destruct reverse; apply Z.leb_le. Qed.

Lemma goes_before_false x y :
  goes_before key reverse x y = false →
  key_order reverse (key y) (key x) ∧ key x ≠ key y.
Proof.
  unfold goes_before, key_order. destruct reverse; intros H%Z.leb_gt; lia.
Qed.

Lemma insert_sorted_Permutation x l : insert_sorted key reverse x l ≡ₚ x :: l.
Proof.
  induction l as [|y l IH]; simpl; [done|].
  destruct (goes_before key reverse x y); [done|].
  rewrite IH. apply perm_swap.
Qed.

Lemma sorted_by_Permutation l : sorted_by key reverse l ≡ₚ l.
Proof.
  induction l as [|x l IH]; simpl; [done|].
  by rewrite insert_sorted_Permutation, IH.
Qed.

Lemma sorted_by_length l : length (sorted_by key reverse l) = length l.
Proof. by rewrite sorted_by_Permutation. Qed.

Lemma key_order_trans a b c :
  key_order reverse a b → key_order reverse b c → key_order reverse a c.
Proof. unfold key_order. destruct reverse; lia. Qed.

Lemma insert_sorted_sorted x l :
  StronglySorted (λ a b, key_order reverse (key a) (key b)) l →
  StronglySorted (λ a b, key_order reverse (key a) (key b))
    (insert_sorted key reverse x l).
Proof.
  induction 1 as [|y l Hl IH Hy]; simpl.
  { repeat constructor. }
  destruct (goes_before key reverse x y) eqn:E.
  - apply goes_before_spec in E. constructor; [by constructor|].
    constructor; [done|].
    eapply Forall_impl; [exact Hy|]. intros z Hz. by eapply key_order_trans.
  - apply goes_before_false in E as [E _]. constructor; [done|].
    rewrite insert_sorted_Permutation. by constructor.
Qed.

Lemma sorted_by_sorted l :
  StronglySorted (λ a b, key_order reverse (key a) (key b))
    (sorted_by key reverse l).
Proof.
  induction l as [|x l IH]; simpl; [constructor|]. by apply insert_sorted_sorted.
Qed.

Lemma sorted_by_keys_sorted l :
  StronglySorted (key_order reverse) (key <$> sorted_by key reverse l).
Proof.
  eapply StronglySorted_fmap; [|apply sorted_by_sorted]. done.
Qed.

(** Stability: the elements with a given key come out in their input
    order. *)
Lemma insert_sorted_stable k x l :
  filter (λ y, key y = k) (insert_sorted key reverse x l)
  = filter (λ y, key y = k) (x :: l).
Proof.
  induction l as [|y l IH]; simpl; [done|].
  destruct (goes_before key reverse x y) eqn:E; [done|].
  apply goes_before_false in E as [_ E].
  rewrite (filter_cons _ y), IH, !filter_cons.
  repeat case_decide; congruence.
Qed.

Lemma sorted_by_stable k l :
  filter (λ y, key y = k) (sorted_by key reverse l) = filter (λ y, key y = k) l.
Proof.
  induction l as [|x l IH]; simpl; [done|].
  by rewrite insert_sorted_stable, !filter_cons, IH.
Qed.

(** The keys of the result depend on the input up to permutation only. *)
Lemma sorted_by_keys_perm l1 l2 :
  l1 ≡ₚ l2 → key <$> sorted_by key reverse l1 = key <$> sorted_by key reverse l2.
Proof.
  intros Hp. apply (StronglySorted_unique_strong (key_order reverse)).
  - unfold key_order. destruct reverse; intros; lia.
  - apply sorted_by_keys_sorted.
  - apply sorted_by_keys_sorted.
  - by rewrite !sorted_by_Permutation, Hp.
Qed.

(** With pairwise distinct keys the result itself depends on the input
    up to permutation only. *)
Lemma sorted_by_perm_distinct l1 l2 :
  l1 ≡ₚ l2 → NoDup (key <$> l1) → sorted_by key reverse l1 = sorted_by key reverse l2.
Proof.
  intros Hp Hnd.
  apply (StronglySorted_unique_strong (λ a b, key_order reverse (key a) (key b))).
  - intros x1 x2 Hx1 Hx2 H12 H21.
    assert (key x1 = key x2) as Hk.
    { unfold key_order in *. destruct reverse; lia. }
    rewrite sorted_by_Permutation in Hx1, Hx2. rewrite <- Hp in Hx2.
    apply list_elem_of_lookup in Hx1 as [i Hi], Hx2 as [j Hj].
    assert (i = j) as ->; [|congruence].
    eapply NoDup_lookup; [exact Hnd| |]; rewrite list_lookup_fmap.
    + by rewrite Hi.
    + rewrite Hj. simpl. by rewrite Hk.
  - apply sorted_by_sorted.
  - apply sorted_by_sorted.
  - by rewrite !sorted_by_Permutation.
Qed.
End sorted_by_facts.

(** ** The sliding window *)

Lemma sorted_nth_le (ts : list Z) i j :
  StronglySorted Z.le ts → (i ≤ j < length ts)%nat → nth i ts 0 ≤ nth j ts 0.
Proof.
  intros Hs. revert i j. induction Hs as [|x l Hl IH Hx]; intros i j Hij.
  { simpl in Hij. lia. }
  destruct j as [|j]; [assert (i = 0%nat) as -> by lia; done|].
  simpl in Hij. destruct i as [|i]; simpl.
  - rewrite Forall_forall in Hx. apply Hx, list_elem_of_In, nth_In. lia.
  - apply IH. lia.
Qed.

Section window.
Context (ts : list Z) (Hsorted : StronglySorted Z.le ts).

(** The [while] loop leaves [start] on the first index that is within
    the window of [e]; the fuel [e - start] never runs out before. *)
Lemma advance_start_spec e fuel start :
  (start ≤ e)%nat → fuel = (e - start)%nat →
  let start' := advance_start ts e fuel start in
  (start ≤ start' ≤ e)%nat ∧ within ts start' e ∧
  ∀ s, (start ≤ s < start')%nat → ¬ within ts s e.
Proof.
  revert start. induction fuel as [|fuel IH]; intros start Hle Hfuel; simpl.
  - assert (start = e) as -> by lia. unfold within, window_size.
    split; [lia|]. split; [lia|]. intros s ?; lia.
  - destruct (nth e ts 0 - nth start ts 0 >? window_size) eqn:E.
    + apply Z.gtb_lt in E.
      destruct (IH (S start)) as (Hr & Hw & Hskip); [lia..|].
      split; [lia|]. split; [done|]. intros s Hs.
      destruct (decide (s = start)) as [->|]; [unfold within; lia|].
      apply Hskip. lia.
    + rewrite Z.gtb_ltb in E. apply Z.ltb_ge in E.
      split; [lia|]. split; [done|]. intros s ?; lia.
Qed.

Lemma scan_inv_init : scan_inv ts 0 (0%nat, 1%nat).
Proof.
  unfold scan_inv. simpl. split; [lia|]. split; [intros; lia|].
  split; [intros; lia|]. split; [lia|by left].
Qed.

Lemma scan_inv_step n st :
  (n < length ts)%nat → scan_inv ts n st → scan_inv ts (S n) (window_step ts st n).
Proof.
  intros Hn (Hstart & Hskipped & Hupper & Hpos & Hach).
  unfold window_step.
  destruct (advance_start_spec n (n - st.1) st.1) as (Hr & Hw & Hskip); [lia|done|].
  set (start' := advance_start ts n (n - st.1) st.1) in *.
  assert (∀ s j, (s < start')%nat → (n ≤ j < length ts)%nat → ¬ within ts s j)
    as Hskipped'.
  { intros s j Hs Hj Hin.
    destruct (decide (s < st.1)%nat) as [Hlt|Hge].
    - by apply (Hskipped s j Hlt); [lia|lia|].
    - apply (Hskip s); [lia|]. unfold within in *.
      pose proof (sorted_nth_le ts n j Hsorted). lia. }
  repeat split; simpl.
  - lia.
  - intros s j Hs Hj1 Hj2. apply Hskipped'; [done|lia].
  - intros i j Hij Hin.
    destruct (decide (j = n)) as [->|Hne].
    + assert (start' ≤ i)%nat.
      { destruct (decide (start' ≤ i)%nat); [done|]. exfalso.
        apply (Hskipped' i n); [lia|lia|done]. }
      destruct (st.2 <? n - start' + 1)%nat eqn:E.
      * lia.
      * apply Nat.ltb_ge in E. lia.
    + assert (j - i + 1 ≤ st.2)%nat by (apply Hupper; [lia|done]).
      destruct (st.2 <? n - start' + 1)%nat eqn:E; [apply Nat.ltb_lt in E|]; lia.
  - destruct (st.2 <? n - start' + 1)%nat; lia.
  - destruct (st.2 <? n - start' + 1)%nat eqn:E.
    + right. exists start', n. repeat split; [lia|lia|done].
    + destruct Hach as [?|(i & j & Hij & Hin & ?)]; [by left|].
      right. exists i, j. repeat split; [lia|lia|done|done].
Qed.

Lemma scan_inv_foldl n st k :
  (n + k ≤ length ts)%nat → scan_inv ts n st →
  scan_inv ts (n + k) (foldl (window_step ts) st (seq n k)).
Proof.
  revert n st. induction k as [|k IH]; intros n st Hlen Hinv; simpl.
  - by rewrite Nat.add_0_r.
  - replace (n + S k)%nat with (S n + k)%nat by lia.
    apply IH; [lia|]. apply scan_inv_step; [lia|done].
Qed.

Lemma window_scan_inv : scan_inv ts (length ts) (window_scan ts).
Proof. apply (scan_inv_foldl 0 _ (length ts)); [lia|apply scan_inv_init]. Qed.

End window.

Lemma filter_none {A} (P : A → Prop) `{∀ x, Decision (P x)} (l : list A) :
  Forall (λ x, ¬ P x) l → filter P l = [].
Proof.
  induction 1 as [|x l Hx Hl IH]; [done|]. by rewrite filter_cons_False.
Qed.

(** In a sorted list whose elements are all at least [a], the elements of
    the span [[a, a + 2s]] are a prefix. *)
Lemma count_in_span_prefix a l :
  StronglySorted Z.le l → Forall (Z.le a) l →
  count_in_span a l = 0%nat ∨ nth (count_in_span a l - 1) l 0 ≤ a + window_size.
Proof.
  unfold count_in_span.
  induction 1 as [|y l Hl IH Hy]; intros Ha; [by left|].
  apply Forall_cons in Ha as [Hay Ha]. rewrite filter_cons.
  case_decide as Hin.
  - right. simpl. rewrite Nat.sub_0_r.
    destruct (IH Ha) as [->|Hnth]; [lia|].
    destruct (length _) as [|k] eqn:Ek; [lia|].
    simpl in Hnth. by rewrite Nat.sub_0_r in Hnth.
  - left. rewrite filter_none; [done|].
    eapply Forall_impl; [exact Hy|]. intros z Hz. simpl. lia.
Qed.

(** A non-empty span of a sorted list holds a run [i..j] that fits in one
    window. *)
Lemma count_in_span_run a ts :
  StronglySorted Z.le ts →
  count_in_span a ts = 0%nat ∨
  ∃ i j, (i ≤ j < length ts)%nat ∧ within ts i j ∧ count_in_span a ts = (j - i + 1)%nat.
Proof.
  induction 1 as [|x l Hl IH Hx]; [by left|].
  unfold count_in_span in *. rewrite filter_cons. case_decide as Hin.
  - right. assert (Forall (Z.le a) l) as Ha.
    { eapply Forall_impl; [exact Hx|]. intros z Hz. simpl in Hz. lia. }
    set (k := length (filter (λ t, a ≤ t ≤ a + window_size) l)).
    exists 0%nat, k. split; [|split].
    + simpl. pose proof (length_filter (λ t, a ≤ t ≤ a + window_size) l). lia.
    + unfold within. destruct (count_in_span_prefix a l Hl Ha) as [E|E];
        unfold count_in_span in E; fold k in E.
      * rewrite E. simpl. unfold window_size. lia.
      * destruct k as [|k']; simpl; [unfold window_size; lia|].
        simpl in E. rewrite Nat.sub_0_r in E. lia.
    + simpl. lia.
  - destruct IH as [IH|(i & j & Hij & Hw & Hc)]; [by left|].
    right. exists (S i), (S j). split; [simpl; lia|]. split; [done|].
    rewrite Hc. lia.
Qed.

(** A run [i..j] of a sorted list that fits in one window lies in the
    span that starts at its first timestamp. *)
Lemma count_in_span_ge a l j :
  (j < length l)%nat → (∀ k, (k ≤ j)%nat → a ≤ nth k l 0 ≤ a + window_size) →
  (j + 1 ≤ count_in_span a l)%nat.
Proof.
  unfold count_in_span. revert j. induction l as [|x l IH]; intros j Hj Hall.
  { simpl in Hj. lia. }
  rewrite filter_cons_True; [|apply (Hall 0%nat); lia].
  destruct j as [|j]; simpl; [lia|].
  specialize (IH j). simpl in Hj.
  assert (∀ k, (k ≤ j)%nat → a ≤ nth k l 0 ≤ a + window_size) as Hall'.
  { intros k Hk. apply (Hall (S k)). lia. }
  specialize (IH ltac:(lia) Hall'). lia.
Qed.

Lemma count_in_span_cons_le a x l :
  (count_in_span a l ≤ count_in_span a (x :: l))%nat.
Proof.
  unfold count_in_span. rewrite filter_cons. case_decide; simpl; lia.
Qed.

Lemma run_in_span ts i j :
  StronglySorted Z.le ts → (i ≤ j < length ts)%nat → within ts i j →
  (j - i + 1 ≤ count_in_span (nth i ts 0%Z) ts)%nat.
Proof.
  intros Hs. revert i j. induction Hs as [|x l Hl IH Hx]; intros i j Hij Hw.
  { simpl in Hij. lia. }
  destruct i as [|i].
  - rewrite Nat.sub_0_r. apply count_in_span_ge; [lia|].
    intros k Hk. unfold within in Hw. simpl (nth 0 _ _) in *.
    pose proof (sorted_nth_le (x :: l) 0 k (SSorted_cons x Hl Hx)) as H1.
    pose proof (sorted_nth_le (x :: l) k j (SSorted_cons x Hl Hx)) as H2.
    simpl (nth 0 _ _) in H1. lia.
  - destruct j as [|j]; [lia|]. simpl in Hij.
    etrans; [|apply count_in_span_cons_le].
    simpl (nth (S i) _ _). replace (S j - S i)%nat with (j - i)%nat by lia.
    apply IH; [lia|done].
Qed.

(** [max_in_window] of a sorted, non-empty list is the maximum, over all
    spans of two seconds, of the number of timestamps in the span. *)
Lemma window_scan_max ts :
  StronglySorted Z.le ts → ts ≠ [] →
  (∀ a, (count_in_span a ts ≤ (window_scan ts).2)%nat) ∧
  (∃ a, count_in_span a ts = (window_scan ts).2).
Proof.
  intros Hs Hne.
  destruct (window_scan_inv ts Hs) as (_ & _ & Hupper & Hpos & Hach).
  assert (∀ a, (count_in_span a ts ≤ (window_scan ts).2)%nat) as Hle.
  { intros a. destruct (count_in_span_run a ts Hs) as [->|(i & j & Hij & Hw & ->)].
    - lia.
    - by apply Hupper. }
  split; [done|].
  assert (∃ i j, (i ≤ j < length ts)%nat ∧ within ts i j
                 ∧ (window_scan ts).2 = (j - i + 1)%nat) as (i & j & Hij & Hw & Hm).
  { destruct Hach as [H1|?]; [|done]. exists 0%nat, 0%nat.
    destruct ts; [done|]. unfold within, window_size. simpl. split; [lia|].
    split; [lia|]. by rewrite H1. }
  exists (nth i ts 0). apply Nat.le_antisymm; [apply Hle|].
  rewrite Hm. by apply run_in_span.
Qed.

Lemma trades_in_span_timestamps a txs :
  trades_in_span a txs = count_in_span a (timestamp <$> txs).
Proof.
  unfold trades_in_span, count_in_span.
  induction txs as [|tx txs IH]; [done|].
  rewrite fmap_cons, !filter_cons. repeat case_decide; simpl; (lia || congruence).
Qed.

Lemma trades_in_span_perm a txs1 txs2 :
  txs1 ≡ₚ txs2 → trades_in_span a txs1 = trades_in_span a txs2.
Proof. unfold trades_in_span. by intros ->. Qed.

Lemma normalize_id transactions : normalize transactions = transactions.
Proof.
  unfold normalize. destruct transactions as [|tx0 txs0]; [done|].
  generalize (tx0 :: txs0). intros l.
  induction l as [|[w t a] l IH]; [done|]. rewrite fmap_cons. by rewrite IH.
Qed.

Lemma sort_by_timestamp_perm txs : sort_by_timestamp txs ≡ₚ txs.
Proof. apply sorted_by_Permutation. Qed.

Lemma sort_by_timestamp_sorted txs :
  StronglySorted Z.le (timestamp <$> sort_by_timestamp txs).
Proof. apply (sorted_by_keys_sorted timestamp false). Qed.

Lemma max_in_window_spec transactions :
  transactions ≠ [] →
  let m := max_in_window (sort_by_timestamp (normalize transactions)) in
  (∀ a, (trades_in_span a transactions ≤ m)%nat) ∧
  (∃ a, trades_in_span a transactions = m).
Proof.
  intros Hne. rewrite normalize_id. cbv zeta. unfold max_in_window.
  destruct (window_scan_max (timestamp <$> sort_by_timestamp transactions))
    as [Hle [a Ha]].
  - apply sort_by_timestamp_sorted.
  - intros Hnil%fmap_nil_inv.
    apply Hne, Permutation_nil. by rewrite <- (sort_by_timestamp_perm transactions), Hnil.
  - split.
    + intros a'. rewrite <- (trades_in_span_perm a' _ _ (sort_by_timestamp_perm transactions)).
      rewrite trades_in_span_timestamps. apply Hle.
    + exists a. rewrite <- (trades_in_span_perm a _ _ (sort_by_timestamp_perm transactions)).
      by rewrite trades_in_span_timestamps.
Qed.

Lemma sequential_risk_of_cases cf :
  ((cf <= 0.5)%Q → sequential_risk_of cf = 0%Q) ∧
  ((1 <= cf)%Q → sequential_risk_of cf = 1%Q) ∧
  ((0.5 < cf)%Q → (cf < 1)%Q → sequential_risk_of cf = ((cf - 0.5) / 0.5)%Q).
Proof.
  unfold sequential_risk_of. split; [|split].
  - intros H%Qle_bool_iff. by rewrite H.
  - intros H. destruct (Qle_bool cf 0.5) eqn:E.
    + apply Qle_bool_iff in E. exfalso.
      apply (Qlt_not_le 0.5 1); [done|]. by apply Qle_trans with cf.
    + apply Qle_bool_iff in H. by rewrite H.
  - intros H1 H2.
    destruct (Qle_bool cf 0.5) eqn:E1.
    { apply Qle_bool_iff in E1. exfalso. by apply (Qlt_not_le 0.5 cf). }
    destruct (Qle_bool 1 cf) eqn:E2; [|done].
    apply Qle_bool_iff in E2. exfalso. by apply (Qlt_not_le cf 1).
Qed.

(** ** First-seen times *)

Lemma first_seen_unique txs w t1 t2 :
  first_seen txs w t1 → first_seen txs w t2 → t1 = t2.
Proof.
  intros [(tx1 & Hin1 & Hw1 & <-) Hmin1] [(tx2 & Hin2 & Hw2 & <-) Hmin2].
  specialize (Hmin1 tx2 Hin2 Hw2). specialize (Hmin2 tx1 Hin1 Hw1). lia.
Qed.

Lemma first_seen_perm txs1 txs2 w t :
  txs1 ≡ₚ txs2 → first_seen txs1 w t → first_seen txs2 w t.
Proof.
  intros Hp [(tx & Hin & Hw & Ht) Hmin]. split.
  - exists tx. by rewrite <- Hp.
  - intros tx' Hin'. apply Hmin. by rewrite Hp.
Qed.

Lemma lookup_record_first_tx m tx w :
  record_first_tx m tx !! w =
    if decide (wallet tx = w)
    then Some (match m !! w with
               | None => timestamp tx
               | Some t => Z.min (timestamp tx) t
               end)
    else m !! w.
Proof.
  unfold record_first_tx. case_decide as Hw.
  - subst w. destruct (m !! wallet tx) as [t|] eqn:E.
    + destruct (timestamp tx <? t) eqn:El.
      * apply Z.ltb_lt in El. rewrite lookup_insert_eq. f_equal. lia.
      * apply Z.ltb_ge in El. rewrite E. f_equal. lia.
    + by rewrite lookup_insert_eq.
  - destruct (m !! wallet tx) as [t|]; [destruct (timestamp tx <? t)|];
      by rewrite ?lookup_insert_ne.
Qed.

Lemma first_tx_times_snoc txs tx :
  first_tx_times (txs ++ [tx]) = record_first_tx (first_tx_times txs) tx.
Proof. unfold first_tx_times. by rewrite foldl_snoc. Qed.

Lemma first_tx_times_None txs w :
  first_tx_times txs !! w = None ↔ w ∉ wallet <$> txs.
Proof.
  induction txs as [|tx txs IH] using rev_ind.
  - unfold first_tx_times. simpl. rewrite lookup_empty. split; [|done].
    intros _ H. by apply elem_of_nil in H.
  - rewrite first_tx_times_snoc, lookup_record_first_tx, fmap_app, elem_of_app.
    simpl. rewrite list_elem_of_singleton. case_decide as Hw.
    + split; [done|]. intros H. exfalso. apply H. by right.
    + rewrite IH. split; [|tauto]. intros H [?|?]; [done|congruence].
Qed.

Lemma first_tx_times_Some txs w t :
  first_tx_times txs !! w = Some t → first_seen txs w t.
Proof.
  revert t. induction txs as [|tx txs IH] using rev_ind; intros t.
  - unfold first_tx_times. simpl. by rewrite lookup_empty.
  - rewrite first_tx_times_snoc, lookup_record_first_tx.
    case_decide as Hw.
    + destruct (first_tx_times txs !! w) as [t0|] eqn:E.
      * intros [= <-]. destruct (IH t0 eq_refl) as [(tx0 & Hin0 & Hw0 & Ht0) Hmin].
        split.
        -- destruct (Z.min_spec (timestamp tx) t0) as [[_ ->]|[_ ->]].
           ++ exists tx. split; [|done]. apply elem_of_app. right. by left.
           ++ exists tx0. split; [|done]. apply elem_of_app. by left.
        -- intros tx' [Hin'|Hin']%elem_of_app Hw'.
           ++ specialize (Hmin tx' Hin' Hw'). lia.
           ++ apply list_elem_of_singleton in Hin' as ->. lia.
      * intros [= <-]. apply first_tx_times_None in E. split.
        -- exists tx. split; [|done]. apply elem_of_app. right. by left.
        -- intros tx' [Hin'|Hin']%elem_of_app Hw'.
           ++ exfalso. apply E. apply list_elem_of_fmap. by exists tx'.
           ++ apply list_elem_of_singleton in Hin' as ->. lia.
    + intros H. destruct (IH t H) as [(tx0 & Hin0 & Hw0 & Ht0) Hmin]. split.
      * exists tx0. split; [|done]. apply elem_of_app. by left.
      * intros tx' [Hin'|Hin']%elem_of_app Hw'; [by apply Hmin|].
        apply list_elem_of_singleton in Hin' as ->. done.
Qed.

Lemma first_tx_times_perm txs1 txs2 :
  txs1 ≡ₚ txs2 → first_tx_times txs1 = first_tx_times txs2.
Proof.
  intros Hp. apply map_eq. intros w.
  destruct (first_tx_times txs1 !! w) as [t1|] eqn:E1.
  - destruct (first_tx_times txs2 !! w) as [t2|] eqn:E2.
    + f_equal. apply first_tx_times_Some in E1, E2.
      eapply first_seen_unique; [|exact E2]. by eapply first_seen_perm.
    + apply first_tx_times_None in E2. rewrite <- Hp in E2.
      apply first_tx_times_None in E2. congruence.
  - apply first_tx_times_None in E1. rewrite Hp in E1.
    apply first_tx_times_None in E1. congruence.
Qed.

(** ** Wallet age *)

(** The float test [age_hours < 24.0] is a test on microseconds. *)
Lemma age_hours_lt now_utc first_ts :
  (age_hours now_utc first_ts < new_wallet_threshold_hours)%Q
  ↔ now_utc - first_ts < 24 * 3600 * 1000000.
Proof.
  unfold age_hours, total_seconds, new_wallet_threshold_hours, Qlt, Qdiv. simpl. lia.
Qed.

Lemma is_new_wallet_spec now_utc txs w :
  is_new_wallet now_utc (first_tx_times txs) w = true ↔ younger_than_24h now_utc txs w.
Proof.
  unfold is_new_wallet, younger_than_24h.
  destruct (first_tx_times txs !! w) as [t|] eqn:E.
  - rewrite Qlt_bool_iff, age_hours_lt. apply first_tx_times_Some in E. split.
    + intros H. by exists t.
    + intros (t' & Ht' & H). by rewrite (first_seen_unique _ _ _ _ E Ht').
  - split; [done|]. intros (t & [(tx & Hin & Hw & _) _] & _).
    apply first_tx_times_None in E. exfalso. apply E.
    apply list_elem_of_fmap. by exists tx.
Qed.

Lemma count_new_le now_utc first ws : (count_new now_utc first ws ≤ length ws)%nat.
Proof. apply length_filter. Qed.

Lemma count_new_perm now_utc first ws1 ws2 :
  ws1 ≡ₚ ws2 → count_new now_utc first ws1 = count_new now_utc first ws2.
Proof. unfold count_new. by intros ->. Qed.

Lemma Qnat_le (m n : nat) : (m ≤ n)%nat → (Qnat m <= Qnat n)%Q.
Proof. intros H. unfold Qnat. rewrite <- Zle_Qle. lia. Qed.

Lemma Qnat_pos (n : nat) : (0 < n)%nat → (0 < Qnat n)%Q.
Proof. intros H. unfold Qnat. change 0%Q with (inject_Z 0). rewrite <- Zlt_Qlt. lia. Qed.

Lemma fraction_of_le_1 count len : (count ≤ len)%nat → (fraction_of count len <= 1)%Q.
Proof.
  intros H. unfold fraction_of. apply Qle_shift_div_r.
  - apply Qnat_pos. lia.
  - rewrite Qmult_1_l. apply Qnat_le. lia.
Qed.

Lemma recent_fraction_le_1 now_utc norm_tx : (recent_fraction now_utc norm_tx <= 1)%Q.
Proof. apply fraction_of_le_1, count_new_le. Qed.

Lemma wallet_age_risk_base_le_1 now_utc norm_tx :
  (wallet_age_risk_base now_utc norm_tx <= 1)%Q.
Proof. apply Q.le_min_l. Qed.

(** The surge check never lowers [wallet_age_risk]. *)
Lemma wallet_age_risk_ge_base now_utc norm_tx :
  (wallet_age_risk_base now_utc norm_tx <= wallet_age_risk now_utc norm_tx)%Q.
Proof.
  unfold wallet_age_risk. destruct (fresh_wallet_surge now_utc norm_tx).
  - apply Q.min_glb; [apply wallet_age_risk_base_le_1|apply Q.le_max_l].
  - apply Qle_refl.
Qed.

(** When the surge fires, [wallet_age_risk] is at least [recent_fraction]. *)
Lemma wallet_age_risk_ge_recent now_utc norm_tx :
  fresh_wallet_surge now_utc norm_tx = true →
  (recent_fraction now_utc norm_tx <= wallet_age_risk now_utc norm_tx)%Q.
Proof.
  unfold wallet_age_risk. intros ->.
  apply Q.min_glb; [apply recent_fraction_le_1|apply Q.le_max_r].
Qed.

(** ** [dict.fromkeys] *)

Lemma dict_fromkeys_foldl acc l :
  foldl (λ acc x, if decide (x ∈ acc) then acc else acc ++ [x]) acc l
  = acc ++ first_occurrences acc l.
Proof.
  revert acc. induction l as [|x l IH]; intros acc; simpl.
  - by rewrite app_nil_r.
  - rewrite IH. case_decide; [done|]. by rewrite <- app_assoc.
Qed.

Lemma dict_fromkeys_snoc l x :
  dict_fromkeys (l ++ [x])
  = if decide (x ∈ dict_fromkeys l) then dict_fromkeys l else dict_fromkeys l ++ [x].
Proof. unfold dict_fromkeys. by rewrite foldl_snoc. Qed.

Lemma dict_fromkeys_first_occurrences l : dict_fromkeys l = first_occurrences [] l.
Proof. unfold dict_fromkeys. by rewrite dict_fromkeys_foldl. Qed.

Lemma elem_of_first_occurrences x seen l :
  x ∈ first_occurrences seen l ↔ x ∈ l ∧ x ∉ seen.
Proof.
  revert seen. induction l as [|y l IH]; intros seen; simpl.
  - split; [by intros ?%elem_of_nil|by intros [?%elem_of_nil _]].
  - case_decide as Hy.
    + rewrite IH, elem_of_cons. split; [tauto|]. intros [[->|?] ?]; tauto.
    + rewrite !elem_of_cons, IH, elem_of_app, list_elem_of_singleton.
      destruct (decide (x = y)) as [->|]; tauto.
Qed.

Lemma NoDup_first_occurrences seen l : NoDup (first_occurrences seen l).
Proof.
  revert seen. induction l as [|y l IH]; intros seen; simpl; [constructor|].
  case_decide; [done|]. constructor; [|done].
  rewrite elem_of_first_occurrences, elem_of_app, list_elem_of_singleton. tauto.
Qed.

Lemma elem_of_dict_fromkeys x l : x ∈ dict_fromkeys l ↔ x ∈ l.
Proof.
  rewrite dict_fromkeys_first_occurrences, elem_of_first_occurrences.
  split; [tauto|]. intros H. split; [done|]. by intros ?%elem_of_nil.
Qed.

Lemma NoDup_dict_fromkeys l : NoDup (dict_fromkeys l).
Proof. rewrite dict_fromkeys_first_occurrences. apply NoDup_first_occurrences. Qed.

Lemma dict_fromkeys_perm l1 l2 : l1 ≡ₚ l2 → dict_fromkeys l1 ≡ₚ dict_fromkeys l2.
Proof.
  intros Hp. apply NoDup_Permutation; [apply NoDup_dict_fromkeys..|].
  intros x. by rewrite !elem_of_dict_fromkeys, Hp.
Qed.

Lemma last_n_all {A} n (l : list A) : (length l ≤ n)%nat → last_n n l = l.
Proof. intros H. unfold last_n. by replace (length l - n)%nat with 0%nat by lia. Qed.

(** ** The five-minute window *)

Lemma is_latest_unique txs t1 t2 : is_latest txs t1 → is_latest txs t2 → t1 = t2.
Proof.
  intros [(tx1 & Hin1 & <-) Hmax1] [(tx2 & Hin2 & <-) Hmax2].
  specialize (Hmax1 tx2 Hin2). specialize (Hmax2 tx1 Hin1). lia.
Qed.

Lemma is_latest_perm txs1 txs2 t : txs1 ≡ₚ txs2 → is_latest txs1 t → is_latest txs2 t.
Proof.
  intros Hp [(tx & Hin & Ht) Hmax]. split.
  - exists tx. by rewrite <- Hp.
  - intros tx' Hin'. apply Hmax. by rewrite Hp.
Qed.

(** After the sort, [norm_tx[-1]] carries the latest timestamp. *)
Lemma latest_ts_sorted txs :
  txs ≠ [] → is_latest txs (latest_ts (sort_by_timestamp txs)).
Proof.
  intros Hne. apply (is_latest_perm (sort_by_timestamp txs)).
  { apply sort_by_timestamp_perm. }
  pose proof (sorted_by_sorted timestamp false txs) as Hs.
  fold (sort_by_timestamp txs) in Hs. unfold latest_ts.
  destruct (last (sort_by_timestamp txs)) as [tx|] eqn:E.
  - apply last_Some in E as [l' E]. rewrite E in Hs |- *.
    apply StronglySorted_app in Hs as (Hle & _ & _). split.
    + exists tx. split; [|done]. apply elem_of_app. right. by left.
    + intros tx' [Hin|Hin]%elem_of_app.
      * apply (Hle tx' tx); [done|by left].
      * apply list_elem_of_singleton in Hin as ->. done.
  - apply last_None in E. exfalso. apply Hne, Permutation_nil.
    by rewrite <- (sort_by_timestamp_perm txs), E.
Qed.

Lemma distinct_wallets_perm txs1 txs2 :
  txs1 ≡ₚ txs2 → distinct_wallets txs1 = distinct_wallets txs2.
Proof. unfold distinct_wallets. by intros ->. Qed.

Lemma last_5m_txs_perm txs :
  txs ≠ [] → ∀ latest, is_latest txs latest →
  last_5m_txs (sort_by_timestamp txs) ≡ₚ trades_since (latest - 5 * 60 * 1000000) txs.
Proof.
  intros Hne latest Hlatest.
  rewrite (is_latest_unique _ _ _ Hlatest (latest_ts_sorted txs Hne)).
  unfold last_5m_txs, trades_since, five_min_window_start.
  generalize (latest_ts (sort_by_timestamp txs) - 5 * 60 * 1000000). intros s.
  by rewrite (sort_by_timestamp_perm txs).
Qed.

Lemma hvld_risk_cases norm_tx :
  (high_volume_low_diversity norm_tx = true ∧ hvld_risk norm_tx = 1%Q) ∨
  (high_volume_low_diversity norm_tx = false ∧ hvld_risk norm_tx = 0%Q).
Proof. unfold hvld_risk. destruct (high_volume_low_diversity norm_tx); auto. Qed.

Lemma high_volume_low_diversity_spec txs latest :
  txs ≠ [] → is_latest txs latest →
  let recent := trades_since (latest - 5 * 60 * 1000000) txs in
  high_volume_low_diversity (sort_by_timestamp txs) = true
  ↔ (8 ≤ length recent)%nat ∧ (distinct_wallets recent < 10)%nat.
Proof.
  intros Hne Hlatest recent. unfold high_volume_low_diversity.
  rewrite andb_true_iff, Nat.leb_le, Nat.ltb_lt.
  unfold tx_count_5m, unique_buyers_count_5m, unique_buyers_5m.
  pose proof (last_5m_txs_perm txs Hne latest Hlatest) as Hp. fold recent in Hp.
  fold (distinct_wallets (last_5m_txs (sort_by_timestamp txs))).
  by rewrite (distinct_wallets_perm _ _ Hp), Hp.
Qed.

(** ** Trade counts per wallet *)

Lemma trade_count_perm w txs1 txs2 :
  txs1 ≡ₚ txs2 → trade_count w txs1 = trade_count w txs2.
Proof. unfold trade_count. by intros ->. Qed.

Lemma trade_count_snoc w txs tx :
  trade_count w (txs ++ [tx])
  = (trade_count w txs + if decide (wallet tx = w) then 1 else 0)%nat.
Proof.
  unfold trade_count. rewrite filter_app, length_app, filter_cons, filter_nil.
  by case_decide.
Qed.

Lemma dict_get_set d w v k default :
  dict_get (dict_set w v d) k default
  = if decide (k = w) then v else dict_get d k default.
Proof.
  induction d as [|[k0 c0] d IH]; simpl.
  - repeat case_decide; congruence.
  - destruct (decide (k0 = w)) as [->|Hne]; simpl.
    + repeat case_decide; congruence.
    + rewrite IH. repeat case_decide; congruence.
Qed.

Lemma dict_set_keys d w v :
  (dict_set w v d).*1 = if decide (w ∈ d.*1) then d.*1 else d.*1 ++ [w].
Proof.
  induction d as [|[k0 c0] d IH].
  - rewrite decide_False; [done|]. by intros ?%elem_of_nil.
  - simpl. destruct (decide (k0 = w)) as [->|Hne]; csimpl.
    + rewrite decide_True; [done|by left].
    + rewrite IH. destruct (decide (w ∈ d.*1)) as [Hin|Hnin].
      * rewrite decide_True; [done|by right].
      * rewrite decide_False; [done|].
        intros [?|?]%elem_of_cons; [congruence|done].
Qed.

Lemma dict_get_elem d w c default :
  NoDup d.*1 → (w, c) ∈ d → dict_get d w default = c.
Proof.
  induction d as [|[k0 c0] d IH]; simpl; intros Hnd Hin.
  - by apply elem_of_nil in Hin.
  - apply NoDup_cons in Hnd as [Hk0 Hnd].
    apply elem_of_cons in Hin as [[= <- <-]|Hin].
    + by rewrite decide_True.
    + rewrite decide_False; [by apply IH|].
      intros ->. apply Hk0. apply list_elem_of_fmap. by exists (w, c).
Qed.

Lemma wallet_trade_counts_snoc txs tx :
  wallet_trade_counts (txs ++ [tx]) = count_trade (wallet_trade_counts txs) tx.
Proof. unfold wallet_trade_counts. by rewrite foldl_snoc. Qed.

(** The dict holds, for every wallet, the number of its trades. *)
Lemma wallet_trade_counts_get txs w :
  dict_get (wallet_trade_counts txs) w 0 = trade_count w txs.
Proof.
  induction txs as [|tx txs IH] using rev_ind; [done|].
  rewrite wallet_trade_counts_snoc, trade_count_snoc. unfold count_trade.
  rewrite dict_get_set. destruct (decide (w = wallet tx)) as [->|Hne].
  - rewrite IH, decide_True; done.
  - rewrite IH, decide_False; [lia|done].
Qed.

(** Its keys are the wallets in the order of their first trade. *)
Lemma wallet_trade_counts_keys txs :
  (wallet_trade_counts txs).*1 = dict_fromkeys (wallet <$> txs).
Proof.
  induction txs as [|tx txs IH] using rev_ind; [done|].
  rewrite wallet_trade_counts_snoc, fmap_app. unfold count_trade.
  rewrite dict_set_keys, IH. symmetry. apply dict_fromkeys_snoc.
Qed.

Lemma wallet_trade_counts_NoDup txs : NoDup (wallet_trade_counts txs).*1.
Proof. rewrite wallet_trade_counts_keys. apply NoDup_dict_fromkeys. Qed.

Lemma wallet_trade_counts_elem txs w c :
  (w, c) ∈ wallet_trade_counts txs ↔ w ∈ wallet <$> txs ∧ c = trade_count w txs.
Proof.
  split.
  - intros Hin. split.
    + rewrite <- elem_of_dict_fromkeys, <- wallet_trade_counts_keys.
      apply list_elem_of_fmap. by exists (w, c).
    + rewrite <- wallet_trade_counts_get. symmetry.
      apply dict_get_elem; [apply wallet_trade_counts_NoDup|done].
  - intros [Hw ->].
    rewrite <- elem_of_dict_fromkeys, <- wallet_trade_counts_keys in Hw.
    apply list_elem_of_fmap in Hw as ([w' c'] & -> & Hin). simpl.
    rewrite <- wallet_trade_counts_get.
    by rewrite (dict_get_elem _ _ _ 0%nat (wallet_trade_counts_NoDup txs) Hin).
Qed.

Lemma wallet_trade_counts_perm txs1 txs2 :
  txs1 ≡ₚ txs2 → wallet_trade_counts txs1 ≡ₚ wallet_trade_counts txs2.
Proof.
  intros Hp. apply NoDup_Permutation.
  - eapply NoDup_fmap_1, wallet_trade_counts_NoDup.
  - eapply NoDup_fmap_1, wallet_trade_counts_NoDup.
  - intros [w c]. rewrite !wallet_trade_counts_elem.
    by rewrite (trade_count_perm w _ _ Hp), Hp.
Qed.

Lemma trade_count_pos w txs : (0 < trade_count w txs)%nat ↔ w ∈ wallet <$> txs.
Proof.
  unfold trade_count. induction txs as [|tx txs IH].
  - simpl. split; [lia|by intros ?%elem_of_nil].
  - rewrite filter_cons, fmap_cons, elem_of_cons. case_decide as Hw; simpl.
    + split; [by left|lia].
    + rewrite IH. split; [by right|]. intros [?|?]; [congruence|done].
Qed.

(** ** The top cluster *)

Lemma sorted_wallets_perm txs : sorted_wallets txs ≡ₚ wallet_trade_counts txs.
Proof. apply sorted_by_Permutation. Qed.

Lemma StronglySorted_weaken {A} (R1 R2 : A → A → Prop) l :
  (∀ x y, R1 x y → R2 x y) → StronglySorted R1 l → StronglySorted R2 l.
Proof.
  intros HR. induction 1 as [|x l Hl IH Hx]; constructor; [done|].
  eapply Forall_impl; [exact Hx|]. intros y. apply HR.
Qed.

Lemma sorted_wallets_sorted txs :
  StronglySorted (λ a b : string * nat, (b.2 ≤ a.2)%nat) (sorted_wallets txs).
Proof.
  eapply StronglySorted_weaken; [|apply (sorted_by_sorted _ true)].
  intros a b. unfold key_order. simpl. lia.
Qed.

Lemma sorted_wallets_counts_perm txs1 txs2 :
  txs1 ≡ₚ txs2 → (sorted_wallets txs1).*2 = (sorted_wallets txs2).*2.
Proof.
  intros Hp. apply (inj (fmap Z.of_nat)). rewrite <- !list_fmap_compose.
  apply (sorted_by_keys_perm (λ kv : string * nat, Z.of_nat kv.2) true).
  by apply wallet_trade_counts_perm.
Qed.

Lemma top_cluster_counts_perm txs1 txs2 :
  txs1 ≡ₚ txs2 → (top_cluster txs1).*2 = (top_cluster txs2).*2.
Proof.
  intros Hp. unfold top_cluster. by rewrite !fmap_take, (sorted_wallets_counts_perm _ _ Hp).
Qed.

Lemma distinct_wallets_dict_fromkeys txs :
  length (dict_fromkeys (wallet <$> txs)) = distinct_wallets txs.
Proof.
  unfold distinct_wallets.
  rewrite <- (size_list_to_set (C:=gset string) _ (NoDup_dict_fromkeys _)).
  f_equal. apply set_eq. intros w.
  by rewrite !elem_of_list_to_set, elem_of_dict_fromkeys.
Qed.

Lemma top_cluster_is_top3 txs : is_top3 txs (top_cluster txs).
Proof.
  unfold top_cluster.
  pose proof (sorted_wallets_perm txs) as Hp.
  pose proof (sorted_wallets_sorted txs) as Hs.
  assert (NoDup (sorted_wallets txs).*1) as Hnd.
  { rewrite Hp. apply wallet_trade_counts_NoDup. }
  split; [|split; [|split]].
  - rewrite fmap_take. eapply sublist_NoDup; [exact Hnd|apply sublist_take].
  - rewrite length_take, Hp. f_equal.
    rewrite <- distinct_wallets_dict_fromkeys, <- wallet_trade_counts_keys.
    by rewrite length_fmap.
  - intros w c Hin%subseteq_take. rewrite Hp in Hin.
    by apply wallet_trade_counts_elem.
  - intros w c w' Hin Hout.
    destruct (decide (w' ∈ wallet <$> txs)) as [Hw'|Hw'].
    + assert ((w', trade_count w' txs) ∈ sorted_wallets txs) as Hin'.
      { rewrite Hp. by apply wallet_trade_counts_elem. }
      rewrite <- (take_drop 3 (sorted_wallets txs)) in Hin', Hs.
      apply elem_of_app in Hin' as [Hin'|Hin'].
      * exfalso. apply Hout, list_elem_of_fmap. by exists (w', trade_count w' txs).
      * apply StronglySorted_app in Hs as (Hle & _ & _).
        apply (Hle _ _ Hin Hin').
    + apply trade_count_pos in Hw' || (rewrite <- trade_count_pos in Hw'). lia.
Qed.

Lemma wash_fraction_nonempty norm_tx :
  norm_tx ≠ [] →
  wash_fraction norm_tx = (Qnat (top_cluster_trades norm_tx) / Qnat (length norm_tx))%Q.
Proof. unfold wash_fraction. by destruct norm_tx. Qed.

Lemma forallb_counts (top : list (string * nat)) :
  forallb (λ kv, (2 <=? kv.2)%nat) top = forallb (λ c, (2 <=? c)%nat) top.*2.
Proof.
  induction top as [|[w c] top IH]; [done|].
  rewrite fmap_cons. cbn [forallb snd]. by rewrite IH.
Qed.

Lemma wash_trading_detected_spec norm_tx :
  norm_tx ≠ [] →
  wash_trading_detected norm_tx = true
  ↔ (0.6 <= Qnat (sum_list (top_cluster norm_tx).*2) / Qnat (length norm_tx))%Q
    ∧ ∀ w c, (w, c) ∈ top_cluster norm_tx → (2 ≤ c)%nat.
Proof.
  intros Hne. unfold wash_trading_detected.
  rewrite andb_true_iff, Qle_bool_iff, (wash_fraction_nonempty _ Hne).
  unfold top_cluster_trades. apply and_iff_compat_l.
  rewrite <- Is_true_true, forallb_True, Forall_forall. split.
  - intros H w c Hin. specialize (H (w, c) Hin). cbn [snd] in H.
    apply Is_true_true, Nat.leb_le in H. done.
  - intros H [w c] Hin. apply Is_true_true, Nat.leb_le. simpl. by eapply H.
Qed.

Lemma wash_trading_risk_cases norm_tx :
  (wash_trading_detected norm_tx = true ∧ wash_trading_risk norm_tx = 1%Q) ∨
  (wash_trading_detected norm_tx = false ∧ wash_trading_risk norm_tx = 0%Q).
Proof. unfold wash_trading_risk. destruct (wash_trading_detected norm_tx); auto. Qed.

Lemma wash_trading_detected_perm txs1 txs2 :
  txs1 ≡ₚ txs2 → wash_trading_detected txs1 = wash_trading_detected txs2.
Proof.
  intros Hp. unfold wash_trading_detected, wash_fraction, top_cluster_trades.
  by rewrite !forallb_counts, (top_cluster_counts_perm _ _ Hp), Hp.
Qed.

(** ** The engine on a non-empty and on an empty sample *)

Lemma analyze_nonempty w transactions token_address :
  transactions ≠ [] →
  let norm_tx := sort_by_timestamp (normalize transactions) in
  let now_utc := utcnow w in
  let facts := token_facts w token_address in
  analyze_wallet_clustering w transactions token_address =
  {| manipulation_score :=
       aggregate_score (length transactions) (sequential_risk norm_tx)
         (wallet_age_risk now_utc norm_tx) (hvld_risk norm_tx)
         (wash_trading_risk norm_tx) facts;
     reasons :=
       or_no_risk ((trade_reasons now_utc norm_tx ++ facts_reasons facts)
                   ++ (if wash_trading_detected norm_tx
                       then [WashTradingPattern (top_cluster norm_tx)] else []));
     freeze_authority_present := freeze_present facts;
     mint_authority_present := mint_present facts;
     top_10_holder_share_pct := top_10_share facts |}.
Proof.
  intros Hne. cbv zeta. unfold analyze_wallet_clustering, assess. cbv zeta.
  rewrite normalize_id.
  assert ((0 <? length transactions)%nat = true) as ->.
  { apply Nat.ltb_lt. destruct transactions; [done|simpl; lia]. }
  f_equal. unfold or_no_risk.
  destruct (wash_trading_detected (sort_by_timestamp transactions));
    [done|by rewrite app_nil_r].
Qed.

Lemma analyze_empty w token_address :
  let facts := token_facts w token_address in
  analyze_wallet_clustering w [] token_address =
  {| manipulation_score := aggregate_score 0 0 0 0 0 facts;
     reasons := facts_reasons facts ++ [InsufficientData];
     freeze_authority_present := freeze_present facts;
     mint_authority_present := mint_present facts;
     top_10_holder_share_pct := top_10_share facts |}.
Proof.
  cbv zeta. unfold analyze_wallet_clustering, assess. simpl.
  by destruct (facts_reasons (token_facts w token_address)).
Qed.

Lemma elem_of_or_no_risk r reasons : r ∈ reasons → r ∈ or_no_risk reasons.
Proof. destruct reasons; [by intros ?%elem_of_nil|done]. Qed.

(** Every reason of the trade detectors reaches the returned list. *)
Lemma trade_reasons_returned w transactions token_address r :
  transactions ≠ [] →
  r ∈ trade_reasons (utcnow w) (sort_by_timestamp (normalize transactions)) →
  r ∈ reasons (analyze_wallet_clustering w transactions token_address).
Proof.
  intros Hne Hr. rewrite (analyze_nonempty _ _ _ Hne). cbv zeta. simpl.
  apply elem_of_or_no_risk. rewrite !elem_of_app. by left; left.
Qed.

(** ** What the signals depend on *)

Lemma sequential_risk_timestamps l1 l2 :
  timestamp <$> l1 = timestamp <$> l2 → sequential_risk l1 = sequential_risk l2.
Proof.
  intros Hts. unfold sequential_risk, clustered_fraction, max_in_window.
  rewrite Hts. f_equal. f_equal. f_equal.
  by rewrite <- (length_fmap timestamp l1), Hts, length_fmap.
Qed.

Lemma unique_wallets_perm l1 l2 : l1 ≡ₚ l2 → unique_wallets l1 = unique_wallets l2.
Proof. unfold unique_wallets. by intros ->. Qed.

Lemma wallet_age_risk_base_perm now_utc l1 l2 :
  l1 ≡ₚ l2 → wallet_age_risk_base now_utc l1 = wallet_age_risk_base now_utc l2.
Proof.
  intros Hp. unfold wallet_age_risk_base, new_wallet_fraction, new_wallet_count.
  by rewrite (first_tx_times_perm _ _ Hp), (unique_wallets_perm _ _ Hp).
Qed.

Lemma recent_unique_wallets_perm l1 l2 :
  last_n 50 l1 ≡ₚ last_n 50 l2 → recent_unique_wallets l1 ≡ₚ recent_unique_wallets l2.
Proof.
  intros Hp. unfold recent_unique_wallets, recent_wallets_ordered.
  apply dict_fromkeys_perm. by rewrite Hp.
Qed.

Lemma recent_new_count_perm now_utc l1 l2 :
  l1 ≡ₚ l2 → last_n 50 l1 ≡ₚ last_n 50 l2 →
  recent_new_count now_utc l1 = recent_new_count now_utc l2.
Proof.
  intros Hp Hrecent. unfold recent_new_count.
  rewrite (first_tx_times_perm _ _ Hp).
  apply count_new_perm. by apply recent_unique_wallets_perm.
Qed.

Lemma recent_fraction_perm now_utc l1 l2 :
  l1 ≡ₚ l2 → last_n 50 l1 ≡ₚ last_n 50 l2 →
  recent_fraction now_utc l1 = recent_fraction now_utc l2.
Proof.
  intros Hp Hrecent. unfold recent_fraction.
  rewrite (recent_new_count_perm _ _ _ Hp Hrecent). f_equal.
  by apply Permutation_length, recent_unique_wallets_perm.
Qed.

Lemma fresh_wallet_surge_perm now_utc l1 l2 :
  l1 ≡ₚ l2 → last_n 50 l1 ≡ₚ last_n 50 l2 →
  fresh_wallet_surge now_utc l1 = fresh_wallet_surge now_utc l2.
Proof.
  intros Hp Hrecent. unfold fresh_wallet_surge.
  rewrite (recent_fraction_perm _ _ _ Hp Hrecent),
    (Permutation_length (recent_unique_wallets_perm _ _ Hrecent)).
  unfold recent_wallets_ordered.
  destruct (last_n 50 l1) as [|x1 r1] eqn:E1, (last_n 50 l2) as [|x2 r2] eqn:E2;
    try done.
  - by apply Permutation_nil_cons in Hrecent.
  - symmetry in Hrecent. by apply Permutation_nil_cons in Hrecent.
Qed.

Lemma wallet_age_risk_perm now_utc l1 l2 :
  l1 ≡ₚ l2 → last_n 50 l1 ≡ₚ last_n 50 l2 →
  wallet_age_risk now_utc l1 = wallet_age_risk now_utc l2.
Proof.
  intros Hp Hrecent. unfold wallet_age_risk.
  by rewrite (fresh_wallet_surge_perm _ _ _ Hp Hrecent),
    (recent_fraction_perm _ _ _ Hp Hrecent), (wallet_age_risk_base_perm _ _ _ Hp).
Qed.

Lemma latest_ts_timestamps l1 l2 :
  timestamp <$> l1 = timestamp <$> l2 → latest_ts l1 = latest_ts l2.
Proof.
  intros Hts. unfold latest_ts.
  pose proof (fmap_last timestamp l1) as H1.
  pose proof (fmap_last timestamp l2) as H2.
  rewrite Hts, H2 in H1.
  destruct (last l1), (last l2); simpl in H1; congruence.
Qed.

Lemma high_volume_low_diversity_perm l1 l2 :
  l1 ≡ₚ l2 → timestamp <$> l1 = timestamp <$> l2 →
  high_volume_low_diversity l1 = high_volume_low_diversity l2.
Proof.
  intros Hp Hts.
  assert (last_5m_txs l1 ≡ₚ last_5m_txs l2) as H5.
  { unfold last_5m_txs, five_min_window_start.
    rewrite (latest_ts_timestamps _ _ Hts).
    generalize (latest_ts l2 - 5 * 60 * 1000000). intros s. by rewrite Hp. }
  unfold high_volume_low_diversity, tx_count_5m, unique_buyers_count_5m,
    unique_buyers_5m.
  by rewrite H5.
Qed.

(** The score of two sorted samples that are permutations of each other,
    carry the same timestamps in the same order and agree, up to order, on
    their last fifty trades. *)
Lemma signals_perm now_utc l1 l2 :
  l1 ≡ₚ l2 → timestamp <$> l1 = timestamp <$> l2 →
  last_n 50 l1 ≡ₚ last_n 50 l2 →
  sequential_risk l1 = sequential_risk l2 ∧
  wallet_age_risk now_utc l1 = wallet_age_risk now_utc l2 ∧
  hvld_risk l1 = hvld_risk l2 ∧
  wash_trading_risk l1 = wash_trading_risk l2.
Proof.
  intros Hp Hts Hrecent. split; [|split; [|split]].
  - by apply sequential_risk_timestamps.
  - by apply wallet_age_risk_perm.
  - unfold hvld_risk. by rewrite (high_volume_low_diversity_perm _ _ Hp Hts).
  - unfold wash_trading_risk. by rewrite (wash_trading_detected_perm _ _ Hp).
Qed.

(** * The claims *)

(** C2. Whatever the trades, the token address and the answers of the
    clock and of the RPC helpers, the returned [manipulation_score] lies
    between 0 and 100. *)
Theorem manipulation_score_clamped w transactions token_address :
  (0 <= manipulation_score (analyze_wallet_clustering w transactions token_address)
   <= 100)%Q.
Proof.
  destruct transactions as [|tx txs].
  - rewrite analyze_empty. apply aggregate_score_range.
  - rewrite analyze_nonempty by done. apply aggregate_score_range.
Qed.

(** C3. With an empty trade list and no token address the score is exactly
    85 and the reasons hold the entry "Insufficient transaction data for
    depth analysis."; with an empty trade list the score is never below 85,
    whatever the token facts. *)
Theorem zero_trade_floor w :
  manipulation_score (analyze_wallet_clustering w [] None) = 85%Q ∧
  InsufficientData ∈ reasons (analyze_wallet_clustering w [] None) ∧
  reason_text InsufficientData
    = Some "Insufficient transaction data for depth analysis."%string ∧
  ∀ token_address,
    (85 <= manipulation_score (analyze_wallet_clustering w [] token_address))%Q.
Proof.
  split; [reflexivity|]. split; [by left|]. split; [reflexivity|].
  intros token_address. rewrite analyze_empty. cbv zeta. simpl.
  unfold aggregate_score. cbv zeta. apply clamp_ge_85.
  match goal with
  | |- context [if ?g && ?c then _ else ?s] =>
      change (85 <= if true && c then 85 else s)%Q
  end.
  by apply floor_step_ge.
Qed.

(** C4. With at least one trade, a positive liquidity-lock risk or a live
    freeze authority keeps the final score at 85 or more. *)
Theorem authority_liquidity_floor w transactions token_address :
  transactions ≠ [] →
  (0 < lp_risk (token_facts w token_address))%Q
  ∨ freeze_authority_present (analyze_wallet_clustering w transactions token_address)
    = true →
  (85 <= manipulation_score (analyze_wallet_clustering w transactions token_address))%Q.
Proof.
  intros Hne. rewrite analyze_nonempty by done. cbv zeta. simpl. intros Hrisk.
  apply aggregate_score_floor; [|done]. destruct transactions; [done|simpl; lia].
Qed.

Lemma authority_liquidity_floor_witness :
  (85 <= manipulation_score
           (analyze_wallet_clustering frozen_world spread_trades (Some "mint"%string)))%Q.
Proof.
  apply (authority_liquidity_floor frozen_world spread_trades (Some "mint"%string)).
  - discriminate.
  - right. vm_compute. reflexivity.
Defined.

(** C6. For a non-empty trade list, [max_in_window] is the largest number
    of trades whose timestamps lie in one span of two seconds, both ends
    included; [clustered_fraction] is [max_in_window / total]; and
    [sequential_risk] is 0 when the fraction is at most 0.5, 1 when it is at
    least 1, and [(fraction - 0.5) / 0.5] in between.  A single trade gives
    fraction 1 and risk 1. *)
Theorem sequential_risk_mapping transactions :
  transactions ≠ [] →
  let norm_tx := sort_by_timestamp (normalize transactions) in
  let m := max_in_window norm_tx in
  let cf := clustered_fraction norm_tx in
  ((∀ a, (trades_in_span a transactions ≤ m)%nat) ∧
   (∃ a, trades_in_span a transactions = m)) ∧
  cf = (Qnat m / Qnat (length transactions))%Q ∧
  ((cf <= 0.5)%Q → sequential_risk norm_tx = 0%Q) ∧
  ((1 <= cf)%Q → sequential_risk norm_tx = 1%Q) ∧
  ((0.5 < cf)%Q → (cf < 1)%Q → sequential_risk norm_tx = ((cf - 0.5) / 0.5)%Q) ∧
  (length transactions = 1%nat → (cf == 1)%Q ∧ sequential_risk norm_tx = 1%Q).
Proof.
  intros Hne norm_tx m cf.
  split; [by apply max_in_window_spec|].
  split.
  { assert (length norm_tx = length transactions) as Hlen.
    { unfold norm_tx. rewrite normalize_id. apply sorted_by_length. }
    unfold cf, clustered_fraction. by rewrite Hlen. }
  destruct (sequential_risk_of_cases cf) as (H0 & H1 & Hmid).
  split; [done|]. split; [done|]. split; [done|].
  intros Hlen. destruct transactions as [|tx [|??]]; [done| |done].
  split; [reflexivity|]. apply H1. unfold cf, norm_tx. by vm_compute.
Qed.

Lemma sequential_risk_mapping_witness :
  max_in_window (sort_by_timestamp (normalize loose_trades)) = 2%nat ∧
  sequential_risk (sort_by_timestamp (normalize loose_trades)) = 0%Q.
Proof.
  pose proof (sequential_risk_mapping loose_trades ltac:(discriminate))
    as (_ & _ & H0 & _).
  split; [reflexivity|]. apply H0. by vm_compute.
Defined.

(** The full-clustering scenario: ten trades from ten wallets within one
    second give [clustered_fraction = 1], [sequential_risk = 1] and the
    score 100, with a sequential-buying reason. *)
Example full_clustering_scenario :
  max_in_window (sort_by_timestamp (normalize burst_trades)) = 10%nat ∧
  sequential_risk (sort_by_timestamp (normalize burst_trades)) = 1%Q ∧
  (manipulation_score (analyze_wallet_clustering (quiet_world (hours 100)) burst_trades None)
   == 100)%Q ∧
  SequentialBuying 10 10
    ∈ reasons (analyze_wallet_clustering (quiet_world (hours 100)) burst_trades None).
Proof.
  split; [reflexivity|]. split; [reflexivity|]. split; [by vm_compute|].
  vm_compute. left.
Qed.

Lemma is_top3_perm txs1 txs2 top : txs1 ≡ₚ txs2 → is_top3 txs1 top → is_top3 txs2 top.
Proof.
  intros Hp (Hnd & Hlen & Hcount & Hmax). split; [done|]. split; [|split].
  - by rewrite <- (distinct_wallets_perm _ _ Hp).
  - intros w c Hin. rewrite <- (trade_count_perm w _ _ Hp).
    destruct (Hcount w c Hin) as [Hw Hc]. split; [by rewrite <- Hp|done].
  - intros w c w' Hin Hout. rewrite <- (trade_count_perm w' _ _ Hp). by eapply Hmax.
Qed.

(** Two choices of top wallets carry the same counts up to ties: their
    sums agree, and if every wallet of one has two trades, so has every
    wallet of the other. *)
Lemma top_choice_irrelevant (f : string → nat) (W1 W2 : list string) :
  NoDup W1 → NoDup W2 → length W1 = length W2 →
  (∀ w w', w ∈ W1 → w' ∉ W1 → (f w' ≤ f w)%nat) →
  (∀ w w', w ∈ W2 → w' ∉ W2 → (f w' ≤ f w)%nat) →
  sum_list (f <$> W1) = sum_list (f <$> W2) ∧
  (Forall (λ w, (2 ≤ f w)%nat) W1 → Forall (λ w, (2 ≤ f w)%nat) W2).
Proof.
  intros Hnd1 Hnd2 Hlen Hmax1 Hmax2.
  pose proof (filter_app_complement (λ w, w ∈ W2) W1) as Hsplit1.
  pose proof (filter_app_complement (λ w, w ∈ W1) W2) as Hsplit2.
  cbv beta in Hsplit1, Hsplit2.
  set (I1 := filter (λ w, w ∈ W2) W1) in *.
  set (D1 := filter (λ w, ¬ w ∈ W2) W1) in *.
  set (I2 := filter (λ w, w ∈ W1) W2) in *.
  set (D2 := filter (λ w, ¬ w ∈ W1) W2) in *.
  assert (I1 ≡ₚ I2) as HI.
  { apply NoDup_Permutation; [by apply NoDup_filter..|].
    intros w. unfold I1, I2. rewrite !list_elem_of_filter. tauto. }
  assert (length D1 = length D2) as HlenD.
  { pose proof (Permutation_length Hsplit1) as H1.
    pose proof (Permutation_length Hsplit2) as H2.
    pose proof (Permutation_length HI) as H3.
    rewrite length_app in H1, H2. lia. }
  assert (∀ w1 w2, w1 ∈ D1 → w2 ∈ D2 → f w1 = f w2) as Htie.
  { intros w1 w2 [Hout1 Hin1]%list_elem_of_filter [Hout2 Hin2]%list_elem_of_filter.
    apply Nat.le_antisymm; [by apply Hmax2|by apply Hmax1]. }
  destruct D2 as [|w2 D2'] eqn:ED2.
  { apply length_zero_iff_nil in HlenD. rewrite HlenD, app_nil_r in Hsplit1.
    rewrite app_nil_r in Hsplit2.
    assert (W1 ≡ₚ W2) as HW by (by rewrite <- Hsplit1, <- Hsplit2).
    split; [by rewrite HW|]. by rewrite HW. }
  destruct D1 as [|w1 D1'] eqn:ED1; [done|].
  assert (Forall (λ w, f w = f w2) (w1 :: D1')) as Hc1.
  { apply Forall_forall. intros w Hw. apply Htie; [done|by left]. }
  assert (Forall (λ w, f w = f w2) (w2 :: D2')) as Hc2.
  { apply Forall_forall. intros w Hw.
    rewrite <- (Htie w1 w); [apply Htie|..]; by (left || done). }
  split.
  - rewrite <- Hsplit1, <- Hsplit2, !fmap_app.
    change (sum_list ?l) with (sum_list_with id l).
    rewrite !sum_list_with_app.
    change (sum_list_with id ?l) with (sum_list l).
    rewrite (sum_list_fmap_same _ _ _ Hc1), (sum_list_fmap_same _ _ _ Hc2), HlenD.
    by rewrite HI.
  - rewrite !Forall_forall. intros Hall w Hw.
    destruct (decide (w ∈ W1)) as [Hin|Hout]; [by apply Hall|].
    assert (w ∈ w2 :: D2') as HwD.
    { rewrite <- ED2. unfold D2. by apply list_elem_of_filter. }
    rewrite <- (Htie w1 w); [|by left|done]. apply Hall.
    assert (w1 ∈ D1) as Hw1 by (rewrite ED1; by left).
    by apply list_elem_of_filter in Hw1 as [_ ?].
Qed.

Lemma top_counts (f : string → nat) (top : list (string * nat)) :
  (∀ w c, (w, c) ∈ top → c = f w) → top.*2 = f <$> top.*1.
Proof.
  induction top as [|[w c] top IH]; intros Hf; [done|].
  rewrite !fmap_cons. simpl. f_equal.
  - apply Hf. by left.
  - apply IH. intros w' c' Hin. apply Hf. by right.
Qed.

Lemma wash_condition_top3 txs top1 top2 :
  is_top3 txs top1 → is_top3 txs top2 →
  wash_condition (length txs) top1 → wash_condition (length txs) top2.
Proof.
  intros (Hnd1 & Hlen1 & Hc1 & Hmax1) (Hnd2 & Hlen2 & Hc2 & Hmax2) [Hfrac Htwo].
  set (f := λ w, trade_count w txs).
  assert (top1.*2 = f <$> top1.*1) as E1.
  { apply top_counts. intros w c Hin. by apply Hc1. }
  assert (top2.*2 = f <$> top2.*1) as E2.
  { apply top_counts. intros w c Hin. by apply Hc2. }
  destruct (top_choice_irrelevant f top1.*1 top2.*1) as [Hsum Hall]; [done..| | | |].
  - by rewrite !length_fmap, Hlen1, Hlen2.
  - intros w w' Hin Hout. apply list_elem_of_fmap in Hin as ([w0 c] & -> & Hin).
    simpl. unfold f. destruct (Hc1 _ _ Hin) as [_ E]. rewrite <- E. by eapply Hmax1.
  - intros w w' Hin Hout. apply list_elem_of_fmap in Hin as ([w0 c] & -> & Hin).
    simpl. unfold f. destruct (Hc2 _ _ Hin) as [_ E]. rewrite <- E. by eapply Hmax2.
  - split.
    + by rewrite E2, <- Hsum, <- E1.
    + intros w c Hin. destruct (Hc2 _ _ Hin) as [_ ->].
      assert (Forall (λ w, (2 ≤ f w)%nat) top2.*1) as Hall2.
      { apply Hall, Forall_forall. intros w' Hw'.
        apply list_elem_of_fmap in Hw' as ([w0 c0] & -> & Hin0). simpl.
        destruct (Hc1 _ _ Hin0) as [_ E]. unfold f. rewrite <- E. by eapply Htwo. }
      rewrite Forall_forall in Hall2. apply Hall2.
      apply list_elem_of_fmap. by exists (w, trade_count w txs).
Qed.

(** C7. For a non-empty trade list, take as top wallets any (at most
    three) wallets with the most trades, ties broken in any way; the
    engine's own top cluster is such a choice.  [wash_trading_risk] is 1,
    adding 10 to the modifier, exactly when the trades of the top wallets
    are at least 0.6 of all trades and each of them has at least 2 trades;
    otherwise it is 0. *)
Theorem wash_trading_signal transactions :
  transactions ≠ [] →
  let norm_tx := sort_by_timestamp (normalize transactions) in
  is_top3 transactions (top_cluster norm_tx) ∧
  ∀ top, is_top3 transactions top →
    let fires := wash_condition (length transactions) top in
    (wash_trading_risk norm_tx = 1%Q ↔ fires) ∧
    (¬ fires → wash_trading_risk norm_tx = 0%Q) ∧
    (fires → ∀ age hvld lp,
       (modifier age hvld lp (wash_trading_risk norm_tx)
        == modifier age hvld lp 0 + 10)%Q).
Proof.
  intros Hne norm_tx.
  assert (norm_tx ≡ₚ transactions) as Hp.
  { unfold norm_tx. by rewrite normalize_id, sort_by_timestamp_perm. }
  assert (norm_tx ≠ []) as Hne'.
  { intros E. rewrite E in Hp. by apply Permutation_nil in Hp. }
  assert (is_top3 transactions (top_cluster norm_tx)) as Htop.
  { apply (is_top3_perm norm_tx); [done|apply top_cluster_is_top3]. }
  split; [done|]. intros top Htop' fires.
  assert (wash_trading_detected norm_tx = true ↔ fires) as Hspec.
  { rewrite (wash_trading_detected_spec _ Hne'), (Permutation_length Hp).
    split; by apply wash_condition_top3. }
  destruct (wash_trading_risk_cases norm_tx) as [[Hd ->]|[Hd ->]].
  - split; [by rewrite <- Hspec|]. split.
    + intros Hn. exfalso. by apply Hn, Hspec.
    + intros _ age hvld lp. unfold modifier. ring.
  - split; [|split].
    + rewrite <- Hspec, Hd. split; discriminate.
    + done.
    + intros Hf. apply Hspec in Hf. congruence.
Qed.

Lemma wash_trading_signal_witness :
  top_cluster (sort_by_timestamp (normalize wash_trades))
    = [("A"%string, 4%nat); ("B"%string, 3%nat); ("C"%string, 2%nat)] ∧
  wash_trading_risk (sort_by_timestamp (normalize wash_trades)) = 1%Q.
Proof.
  assert (top_cluster (sort_by_timestamp (normalize wash_trades))
          = [("A"%string, 4%nat); ("B"%string, 3%nat); ("C"%string, 2%nat)]) as Htop
    by reflexivity.
  split; [exact Htop|].
  destruct (wash_trading_signal wash_trades ltac:(discriminate)) as [Htop3 Hsignal].
  apply (Hsignal _ Htop3). rewrite Htop.
  split; [by vm_compute|].
  intros w c Hin.
  repeat (apply elem_of_cons in Hin as [[= -> ->]|Hin]; [lia|]).
  by apply elem_of_nil in Hin.
Defined.

(** C9. For a non-empty trade list, [hvld_risk] is 1 exactly when at least
    8 trades have a timestamp no earlier than five minutes before the
    latest timestamp and fewer than 10 distinct wallets made them; otherwise
    it is 0. *)
Theorem hvld_signal transactions :
  transactions ≠ [] →
  let norm_tx := sort_by_timestamp (normalize transactions) in
  ∃ latest, is_latest transactions latest ∧
    let recent := trades_since (latest - 5 * 60 * 1000000) transactions in
    let fires := (8 ≤ length recent)%nat ∧ (distinct_wallets recent < 10)%nat in
    (hvld_risk norm_tx = 1%Q ↔ fires) ∧
    (¬ fires → hvld_risk norm_tx = 0%Q).
Proof.
  intros Hne norm_tx. unfold norm_tx. rewrite normalize_id.
  exists (latest_ts (sort_by_timestamp transactions)).
  split; [by apply latest_ts_sorted|]. cbv zeta.
  pose proof (high_volume_low_diversity_spec transactions _ Hne
                (latest_ts_sorted transactions Hne)) as Hspec.
  cbv zeta in Hspec.
  destruct (hvld_risk_cases (sort_by_timestamp transactions)) as [[Hd ->]|[Hd ->]].
  - split; [by rewrite <- Hspec|]. intros Hn. exfalso. by apply Hn, Hspec.
  - split; [|done]. rewrite <- Hspec, Hd. split; discriminate.
Qed.

Lemma hvld_signal_witness :
  hvld_risk (sort_by_timestamp (normalize busy_trades)) = 1%Q.
Proof.
  destruct (hvld_signal busy_trades ltac:(discriminate))
    as (latest & Hlatest & Hfires & _).
  apply Hfires.
  assert (is_latest busy_trades (seconds 210)) as Hl.
  { split.
    - exists (trade "b" (seconds 210)). split; [|done].
      unfold busy_trades. do 7 right. left.
    - intros tx Hin. unfold busy_trades in Hin.
      repeat (apply elem_of_cons in Hin as [->|Hin]; [by vm_compute|]).
      by apply elem_of_nil in Hin. }
  rewrite (is_latest_unique _ _ _ Hlatest Hl).
  split; vm_compute; lia.
Defined.

Lemma fresh_wallet_surge_true now_utc norm_tx :
  norm_tx ≠ [] →
  fresh_wallet_surge now_utc norm_tx = true
  ↔ (0.5 < recent_fraction now_utc norm_tx)%Q
    ∧ (10 ≤ length (recent_unique_wallets norm_tx))%nat.
Proof.
  intros Hne. unfold fresh_wallet_surge.
  destruct (recent_wallets_ordered norm_tx) as [|x l] eqn:E.
  - exfalso. apply fmap_nil_inv in E.
    unfold last_n in E. apply (f_equal length) in E.
    rewrite length_drop in E. destruct norm_tx; [done|]. simpl in E. lia.
  - by rewrite andb_true_iff, Qlt_bool_iff, Nat.leb_le.
Qed.

(** The stable sort of line 327 is the time order of the sample, and
    nothing else is. *)
Lemma time_ordered_sort transactions :
  time_ordered transactions (sort_by_timestamp transactions).
Proof.
  split; [apply sort_by_timestamp_perm|]. split; [apply sort_by_timestamp_sorted|].
  intros t. apply (sorted_by_stable timestamp false).
Qed.

Lemma same_groups_same_list (l1 l2 : list Trade) :
  StronglySorted Z.le (timestamp <$> l1) →
  StronglySorted Z.le (timestamp <$> l2) →
  (∀ t, filter (λ tx, timestamp tx = t) l1 = filter (λ tx, timestamp tx = t) l2) →
  l1 = l2.
Proof.
  revert l2. induction l1 as [|x l1 IH]; intros l2 Hs1 Hs2 Hgroups.
  { destruct l2 as [|y l2]; [done|]. exfalso.
    specialize (Hgroups (timestamp y)). rewrite filter_cons in Hgroups.
    by rewrite decide_True in Hgroups by done. }
  destruct l2 as [|y l2].
  { exfalso. specialize (Hgroups (timestamp x)). rewrite filter_cons in Hgroups.
    by rewrite decide_True in Hgroups by done. }
  rewrite !fmap_cons in Hs1, Hs2.
  apply StronglySorted_inv in Hs1 as [Hs1 Hx], Hs2 as [Hs2 Hy].
  assert (∀ (a b : Trade) (l l' : list Trade),
            Forall (Z.le (timestamp b)) (timestamp <$> l') →
            filter (λ tx, timestamp tx = timestamp a) (a :: l)
            = filter (λ tx, timestamp tx = timestamp a) (b :: l') →
            timestamp b ≤ timestamp a) as Hhead.
  { intros a b l l' Hb Heq.
    assert (a ∈ b :: l') as Hin.
    { eapply (list_elem_of_filter (λ tx, timestamp tx = timestamp a)).
      rewrite <- Heq, filter_cons, decide_True by done. by left. }
    apply elem_of_cons in Hin as [->|Hin]; [lia|].
    rewrite Forall_forall in Hb. apply Hb. by apply list_elem_of_fmap_2. }
  assert (timestamp x = timestamp y) as Hts.
  { apply Z.le_antisymm.
    - eapply (Hhead y x); [exact Hx|]. symmetry. apply Hgroups.
    - eapply (Hhead x y); [exact Hy|]. apply Hgroups. }
  pose proof (Hgroups (timestamp x)) as Hgx.
  rewrite !filter_cons in Hgx. rewrite decide_True in Hgx by done.
  rewrite decide_True in Hgx by done. injection Hgx as -> Hgx.
  f_equal. apply IH; [done|done|]. intros t.
  destruct (decide (t = timestamp y)) as [->|Hne]; [done|].
  specialize (Hgroups t). rewrite !filter_cons in Hgroups.
  by rewrite !decide_False in Hgroups by done.
Qed.

Lemma time_ordered_unique transactions in_time_order :
  time_ordered transactions in_time_order →
  in_time_order = sort_by_timestamp transactions.
Proof.
  intros (_ & Hsorted & Hgroups).
  destruct (time_ordered_sort transactions) as (_ & Hsorted' & Hgroups').
  apply same_groups_same_list; [done|done|]. intros t. by rewrite Hgroups, Hgroups'.
Qed.

Lemma last_up_to_last_n {A} n (l recent : list A) :
  last_up_to n l recent → recent = last_n n l.
Proof.
  intros (older & -> & Hlen). unfold last_n. rewrite length_app in *.
  replace (length older + length recent - n)%nat with (length older) by lia.
  by rewrite drop_app_length.
Qed.

(** C8. For a non-empty trade list, let [in_time_order] be its trades by
    ascending timestamp (ties in input order) and [recent_trades] the last
    up to 50 of them.  The engine reduces these to their distinct wallets
    in order of first occurrence, and takes the fraction of those whose
    earliest trade in the sample is less than 24 hours before the clock
    reading.  If the fraction exceeds 0.5 and there are at least 10 such
    wallets, the surge reason is returned with these two counts and
    [wallet_age_risk] is at least the fraction; in every case
    [wallet_age_risk] is at least what it was before the check. *)
Theorem fresh_wallet_surge_raises w transactions token_address
    in_time_order recent_trades :
  transactions ≠ [] →
  time_ordered transactions in_time_order →
  last_up_to 50 in_time_order recent_trades →
  let now_utc := utcnow w in
  let norm_tx := sort_by_timestamp (normalize transactions) in
  let recent := first_occurrences [] (wallet <$> recent_trades) in
  let young := filter (λ a, is_new_wallet now_utc (first_tx_times norm_tx) a) recent in
  let fraction := fraction_of (length young) (length recent) in
  (∀ a, is_new_wallet now_utc (first_tx_times norm_tx) a = true
        ↔ younger_than_24h now_utc transactions a) ∧
  ((0.5 < fraction)%Q → (10 ≤ length recent)%nat →
   FreshWalletSurge (length young) (length recent)
     ∈ reasons (analyze_wallet_clustering w transactions token_address)
   ∧ (fraction <= wallet_age_risk now_utc norm_tx)%Q) ∧
  (wallet_age_risk_base now_utc norm_tx <= wallet_age_risk now_utc norm_tx)%Q.
Proof.
  intros Hne Horder Hlast now_utc norm_tx recent young fraction.
  assert (norm_tx = sort_by_timestamp transactions) as Hnorm.
  { unfold norm_tx. by rewrite normalize_id. }
  assert (recent_trades = last_n 50 norm_tx) as Hrecent_trades.
  { apply last_up_to_last_n. by rewrite Hnorm, <- (time_ordered_unique _ _ Horder). }
  assert (norm_tx ≠ []) as Hne'.
  { rewrite Hnorm. intros E. apply Hne, Permutation_nil.
    by rewrite <- (sort_by_timestamp_perm transactions), E. }
  assert (recent_unique_wallets norm_tx = recent) as Hrecent.
  { unfold recent_unique_wallets, recent_wallets_ordered, recent.
    rewrite Hrecent_trades. apply dict_fromkeys_first_occurrences. }
  assert (recent_fraction now_utc norm_tx = fraction) as Hfraction.
  { unfold recent_fraction, recent_new_count, count_new. by rewrite Hrecent. }
  split; [|split].
  - intros a. rewrite is_new_wallet_spec. unfold younger_than_24h.
    assert (∀ t, first_seen norm_tx a t ↔ first_seen transactions a t) as Hfs.
    { intros t. rewrite Hnorm. split; apply first_seen_perm;
        [|symmetry]; apply sort_by_timestamp_perm. }
    split; intros (t & Ht & Hlt); exists t; by rewrite ?Hfs in *.
  - intros Hhalf Hten.
    assert (fresh_wallet_surge now_utc norm_tx = true) as Hsurge.
    { apply fresh_wallet_surge_true; [done|]. by rewrite Hfraction, Hrecent. }
    split.
    + apply trade_reasons_returned; [done|]. fold norm_tx. fold now_utc.
      unfold trade_reasons. rewrite Hsurge.
      rewrite !elem_of_app. right. right. left.
      unfold recent_new_count, count_new. rewrite Hrecent. by left.
    + rewrite <- Hfraction. by apply wallet_age_risk_ge_recent.
  - apply wallet_age_risk_ge_base.
Qed.

Lemma fresh_wallet_surge_raises_witness :
  FreshWalletSurge 12 12
    ∈ reasons (analyze_wallet_clustering (quiet_world (hours 48)) late_surge_trades None).
Proof.
  assert (time_ordered late_surge_trades (old_trades ++ young_trades)) as Horder.
  { replace (old_trades ++ young_trades) with (sort_by_timestamp late_surge_trades)
      by (vm_compute; reflexivity).
    apply time_ordered_sort. }
  assert (last_up_to 50 (old_trades ++ young_trades) young_trades) as Hlast.
  { exists old_trades. split; reflexivity. }
  destruct (fresh_wallet_surge_raises (quiet_world (hours 48)) late_surge_trades None
              (old_trades ++ young_trades) young_trades
              ltac:(discriminate) Horder Hlast) as (_ & Hsurge & _).
  apply Hsurge.
  - by vm_compute.
  - vm_compute. lia.
Defined.

(** ** Order of the input *)

(** The score of a non-empty sample is a function of the four signals. *)
Lemma score_of_signals w txs1 txs2 token_address :
  txs1 ≡ₚ txs2 →
  timestamp <$> sort_by_timestamp txs1 = timestamp <$> sort_by_timestamp txs2 →
  last_n 50 (sort_by_timestamp txs1) ≡ₚ last_n 50 (sort_by_timestamp txs2) →
  manipulation_score (analyze_wallet_clustering w txs1 token_address)
  = manipulation_score (analyze_wallet_clustering w txs2 token_address).
Proof.
  intros Hp Hts Hrecent.
  destruct (decide (txs1 = [])) as [->|Hne1].
  { apply Permutation_nil in Hp. by rewrite Hp. }
  assert (txs2 ≠ []) as Hne2.
  { intros ->. by apply Permutation_nil_r in Hp. }
  rewrite !analyze_nonempty by done. cbv zeta. simpl. rewrite !normalize_id.
  assert (sort_by_timestamp txs1 ≡ₚ sort_by_timestamp txs2) as Hps.
  { by rewrite !sort_by_timestamp_perm. }
  destruct (signals_perm (utcnow w) _ _ Hps Hts Hrecent) as (-> & -> & -> & ->).
  by rewrite (Permutation_length Hp).
Qed.

(** C5, as the code has it. Permuting the trade list leaves the score
    unchanged when the list has at most 50 trades or when no two trades
    carry the same timestamp. *)
Theorem score_permutation_invariant w transactions permuted token_address :
  transactions ≡ₚ permuted →
  (length transactions ≤ 50)%nat ∨ NoDup (timestamp <$> transactions) →
  manipulation_score (analyze_wallet_clustering w permuted token_address)
  = manipulation_score (analyze_wallet_clustering w transactions token_address).
Proof.
  intros Hp Hcond. symmetry. apply score_of_signals; [done|..].
  - by apply sorted_by_keys_perm.
  - destruct Hcond as [Hlen|Hnd].
    + rewrite !last_n_all.
      * by rewrite !sort_by_timestamp_perm.
      * unfold sort_by_timestamp. by rewrite sorted_by_length, <- Hp.
      * unfold sort_by_timestamp. by rewrite sorted_by_length.
    + unfold sort_by_timestamp.
      by rewrite (sorted_by_perm_distinct timestamp false _ _ Hp Hnd).
Qed.

Lemma score_permutation_invariant_witness :
  manipulation_score
    (analyze_wallet_clustering (quiet_world (hours 1))
       [trade "b" (seconds 0); trade "a" (seconds 0); trade "c" (seconds 9)] None)
  = manipulation_score
      (analyze_wallet_clustering (quiet_world (hours 1))
         [trade "a" (seconds 0); trade "b" (seconds 0); trade "c" (seconds 9)] None).
Proof.
  apply score_permutation_invariant.
  - apply perm_swap.
  - left. simpl. lia.
Defined.

(** C5, as stated, fails: the two trades at instant 0 tie, the stable sort
    keeps them in input order, and [norm_tx[-50:]] drops whichever came
    first.  With the clock at hour 24 the scores are 90/11 and 9. *)
Lemma score_order_dependent :
  tied_a_first ≡ₚ tied_b_first ∧
  (manipulation_score (analyze_wallet_clustering (quiet_world (hours 24)) tied_a_first None)
   == 90 # 11)%Q ∧
  (manipulation_score (analyze_wallet_clustering (quiet_world (hours 24)) tied_b_first None)
   == 9)%Q ∧
  ¬ (manipulation_score (analyze_wallet_clustering (quiet_world (hours 24)) tied_b_first None)
     == manipulation_score
          (analyze_wallet_clustering (quiet_world (hours 24)) tied_a_first None))%Q.
Proof.
  assert (manipulation_score
            (analyze_wallet_clustering (quiet_world (hours 24)) tied_a_first None)
          == 90 # 11)%Q as Ha by (by vm_compute).
  assert (manipulation_score
            (analyze_wallet_clustering (quiet_world (hours 24)) tied_b_first None)
          == 9)%Q as Hb by (by vm_compute).
  split; [apply perm_swap|]. split; [exact Ha|]. split; [exact Hb|].
  rewrite Ha, Hb. by vm_compute.
Qed.

(** ** The clock and the RPC helpers *)

(** The instant and the token facts are not arguments of the function: it
    reads the system clock (line 368) and calls the RPC helpers (lines
    440-450).  The same arguments give score 10 when the clock reads hour
    1 and score 0 when it reads hour 48, and score 85 or 10 depending on
    what the RPC reports about the freeze authority. *)
Lemma analyze_reads_clock_and_rpc :
  (manipulation_score (analyze_wallet_clustering (quiet_world (hours 1)) two_trades None)
   == 10)%Q ∧
  (manipulation_score (analyze_wallet_clustering (quiet_world (hours 48)) two_trades None)
   == 0)%Q ∧
  (manipulation_score
     (analyze_wallet_clustering (quiet_world (hours 1)) two_trades (Some "other"%string))
   == 10)%Q ∧
  (manipulation_score
     (analyze_wallet_clustering (other_world (hours 1)) two_trades (Some "other"%string))
   == 85)%Q ∧
  ¬ ∀ w1 w2 transactions token_address,
      analyze_wallet_clustering w1 transactions token_address
      = analyze_wallet_clustering w2 transactions token_address.
Proof.
  split; [by vm_compute|]. split; [by vm_compute|].
  split; [by vm_compute|]. split; [by vm_compute|].
  intros H.
  specialize (H (quiet_world (hours 1)) (quiet_world (hours 48)) two_trades None).
  apply (f_equal manipulation_score) in H. vm_compute in H. discriminate H.
Qed.

(** ** The call on the caller's heap *)

Lemma get_dict_dom (h : heap) r v : get_dict h r = Some v → r ∈ dom h.
Proof.
  unfold get_dict. intros H. apply elem_of_dom.
  destruct (h !! r) as [o|]; [by eexists|done].
Qed.

Lemma get_list_dom (h : heap) l items : get_list h l = Some items → l ∈ dom h.
Proof.
  unfold get_list. intros H. apply elem_of_dom.
  destruct (h !! l) as [o|]; [by eexists|done].
Qed.

Lemma get_dict_not_list (h : heap) r v l items :
  get_dict h r = Some v → get_list h l = Some items → r ≠ l.
Proof.
  unfold get_dict, get_list. intros Hr Hl ->.
  destruct (h !! l) as [[?|?]|]; done.
Qed.

(** Reading through a heap that agrees with [h] on all objects of [h]. *)
Lemma get_dict_frame (h h' : heap) r v :
  (∀ l, l ∈ dom h → h' !! l = h !! l) → get_dict h r = Some v → get_dict h' r = Some v.
Proof.
  intros Hframe Hr. pose proof (get_dict_dom _ _ _ Hr) as Hdom.
  unfold get_dict in *. by rewrite (Hframe r Hdom).
Qed.

Lemma get_list_frame (h h' : heap) l items :
  (∀ l, l ∈ dom h → h' !! l = h !! l) → get_list h l = Some items →
  get_list h' l = Some items.
Proof.
  intros Hframe Hl. pose proof (get_list_dom _ _ _ Hl) as Hdom.
  unfold get_list in *. by rewrite (Hframe l Hdom).
Qed.

Lemma get_list_insert (h : heap) l items : get_list (<[l := ListObj items]> h) l = Some items.
Proof. unfold get_list. by rewrite lookup_insert_eq. Qed.

(** The loop appends to [norm_tx] one new dict per event, a copy of it,
    and changes no other object. *)
Lemma normalize_loop_spec norm_tx items :
  ∀ (h : heap) done events,
    get_list h norm_tx = Some done →
    Forall2 (λ r v, get_dict h r = Some v) items events →
    ∃ (h' : heap) new,
      normalize_loop norm_tx items h = Some h' ∧
      get_list h' norm_tx = Some (done ++ new) ∧
      Forall2 (λ r v, get_dict h' r = Some v) new (copy_event <$> events) ∧
      (∀ l, l ∈ dom h → l ≠ norm_tx → h' !! l = h !! l).
Proof.
  induction items as [|tx rest IH]; intros h done events Hlist Hitems.
  - apply Forall2_nil_inv_l in Hitems as ->. exists h, [].
    rewrite app_nil_r. repeat split; [done|constructor].
  - apply Forall2_cons_inv_l in Hitems as (v & events' & Htx & Hrest & ->).
    simpl. rewrite Htx. simpl.
    set (d := fresh (dom h)).
    set (h1 := <[d := DictObj (copy_event v)]> h : heap).
    assert (d ∉ dom h) as Hfresh by apply is_fresh.
    assert (d ≠ norm_tx) as Hdn.
    { intros ->. by apply Hfresh, (get_list_dom _ _ done). }
    assert (get_list h1 norm_tx = Some done) as Hlist1.
    { unfold get_list, h1. by rewrite lookup_insert_ne. }
    unfold list_append. rewrite Hlist1. simpl.
    set (h2 := <[norm_tx := ListObj (done ++ [d])]> h1 : heap).
    assert (∀ l, l ∈ dom h → l ≠ norm_tx → h2 !! l = h !! l) as Hframe2.
    { intros l Hl Hln. unfold h2, h1.
      rewrite lookup_insert_ne by done. rewrite lookup_insert_ne; [done|].
      intros ->. done. }
    destruct (IH h2 (done ++ [d]) events') as (h' & new & Hloop & Hlist' & Hnew & Hframe).
    { apply get_list_insert. }
    { eapply Forall2_impl; [exact Hrest|]. intros r v' Hr. simpl in Hr.
      unfold get_dict. rewrite Hframe2.
      - exact Hr.
      - by eapply get_dict_dom.
      - by eapply get_dict_not_list. }
    exists h', (d :: new). split; [done|]. split; [|split].
    + by rewrite Hlist', <- app_assoc.
    + rewrite ?fmap_cons. constructor; [|done].
      unfold get_dict. rewrite Hframe.
      * unfold h2, h1. rewrite lookup_insert_ne by done.
        by rewrite lookup_insert_eq.
      * unfold h2, h1. rewrite !dom_insert_L. set_solver.
      * done.
    + intros l Hl Hln. rewrite Hframe.
      * by apply Hframe2.
      * unfold h2, h1. rewrite !dom_insert_L. set_solver.
      * done.
Qed.

(** Sorting references by the timestamp behind them sorts the events. *)
Lemma insert_sorted_refs (h : heap) r v refs events :
  get_dict h r = Some v →
  Forall2 (λ r v, get_dict h r = Some v) refs events →
  Forall2 (λ r v, get_dict h r = Some v)
    (insert_sorted (timestamp_at h) false r refs)
    (insert_sorted timestamp false v events).
Proof.
  intros Hr. induction 1 as [|r' v' refs events Hr' Hrest IH]; cbn [insert_sorted].
  { by repeat constructor. }
  assert (goes_before (timestamp_at h) false r r' = goes_before timestamp false v v')
    as ->.
  { unfold goes_before, timestamp_at. by rewrite Hr, Hr'. }
  destruct (goes_before timestamp false v v'); by repeat constructor.
Qed.

Lemma sorted_by_refs (h : heap) refs events :
  Forall2 (λ r v, get_dict h r = Some v) refs events →
  Forall2 (λ r v, get_dict h r = Some v)
    (sorted_by (timestamp_at h) false refs) (sorted_by timestamp false events).
Proof.
  induction 1 as [|r v refs events Hr Hrest IH]; simpl; [constructor|].
  by apply insert_sorted_refs.
Qed.

(** C10. On a heap in which [transactions] is a list of event dicts, the
    call returns, its assessment is that of [analyze_wallet_clustering] on
    the events, and every object that existed before the call, the list
    [transactions] and each event dict among them, is the same after it:
    the list still holds the same events in the same order. *)
Theorem analyze_preserves_input w (h : heap) transactions token_address events :
  read_trades h transactions = Some events →
  ∃ h' : heap,
    analyze_wallet_clustering_heap w transactions token_address h
    = Some (analyze_wallet_clustering w events token_address, h') ∧
    (∀ l, l ∈ dom h → h' !! l = h !! l) ∧
    get_list h' transactions = get_list h transactions ∧
    read_trades h' transactions = Some events.
Proof.
  unfold read_trades. intros Hread.
  apply bind_Some in Hread as (items & Hitems & Hevents).
  apply mapM_Some in Hevents.
  assert (∀ h' : heap, (∀ l, l ∈ dom h → h' !! l = h !! l) →
            get_list h' transactions = get_list h transactions ∧
            (get_list h' transactions ≫= mapM (get_dict h')) = Some events) as Hkeep.
  { intros h' Hframe.
    rewrite (get_list_frame _ _ _ _ Hframe Hitems), Hitems. split; [done|]. simpl.
    apply mapM_Some. eapply Forall2_impl; [exact Hevents|].
    intros r' v Hr'. by eapply get_dict_frame. }
  unfold analyze_wallet_clustering_heap. rewrite Hitems. simpl.
  set (norm_tx := fresh (dom h)).
  set (h0 := <[norm_tx := ListObj []]> h : heap).
  assert (norm_tx ∉ dom h) as Hfresh by apply is_fresh.
  assert (∀ l, l ∈ dom h → h0 !! l = h !! l) as Hframe0.
  { intros l Hl. unfold h0. rewrite lookup_insert_ne; [done|]. by intros ->. }
  assert (get_list h0 norm_tx = Some []) as Hlist0 by apply get_list_insert.
  destruct items as [|tx rest].
  - apply Forall2_nil_inv_l in Hevents as ->.
    exists h0. simpl. rewrite Hlist0. simpl.
    unfold read_trades. rewrite Hlist0. simpl.
    destruct (Hkeep h0 Hframe0) as [Hk1 Hk2].
    split; [done|]. split; [done|]. split; [by rewrite Hk1|exact Hk2].
  - destruct (normalize_loop_spec norm_tx (tx :: rest) h0 [] events)
      as (h1 & new & -> & Hlist1 & Hnew & Hframe1).
    { exact Hlist0. }
    { eapply Forall2_impl; [exact Hevents|]. intros r v Hr.
      by eapply get_dict_frame. }
    simpl in Hlist1. simpl. rewrite Hlist1. simpl.
    assert (length new = length events) as Hlen.
    { rewrite (Forall2_length _ _ _ Hnew). apply length_fmap. }
    assert (events ≠ []) as Hne.
    { intros ->. by apply Forall2_nil_inv_r in Hevents. }
    assert ((0 <? length new)%nat = true) as Hpos.
    { apply Nat.ltb_lt. rewrite Hlen. destruct events; [done|simpl; lia]. }
    rewrite Hpos. unfold list_sort. rewrite Hlist1. simpl.
    set (h2 := <[norm_tx := ListObj (sorted_by (timestamp_at h1) false new)]> h1 : heap).
    assert (∀ l, l ∈ dom h → h2 !! l = h !! l) as Hframe2.
    { intros l Hl.
      assert (l ≠ norm_tx) by (intros Heq; apply Hfresh; by rewrite <- Heq).
      unfold h2. rewrite lookup_insert_ne by done.
      rewrite Hframe1; [apply Hframe0, Hl| |done].
      unfold h0. rewrite dom_insert_L. apply elem_of_union. by right. }
    assert (get_list h2 norm_tx = Some (sorted_by (timestamp_at h1) false new))
      as Hlist2 by apply get_list_insert.
    exists h2. unfold read_trades. rewrite Hlist2. simpl.
    assert (mapM (get_dict h2) (sorted_by (timestamp_at h1) false new)
            = Some (sort_by_timestamp (copy_event <$> events))) as ->.
    { apply mapM_Some. eapply Forall2_impl; [apply sorted_by_refs, Hnew|].
      intros r v Hr. simpl in Hr. unfold get_dict, h2.
      rewrite lookup_insert_ne; [exact Hr|].
      intros <-. by eapply get_dict_not_list. }
    destruct (Hkeep h2 Hframe2) as [Hk1 Hk2].
    simpl. split; [|split; [done|split; [by rewrite Hk1|exact Hk2]]].
    unfold analyze_wallet_clustering. cbv zeta.
    assert (normalize events = copy_event <$> events) as ->.
    { by destruct events. }
    rewrite length_fmap, <- Hlen, Hpos. done.
Qed.

Lemma analyze_preserves_input_witness :
  ∃ h' : gmap positive Obj,
    analyze_wallet_clustering_heap (quiet_world (hours 1)) 1%positive None caller_heap
    = Some (analyze_wallet_clustering (quiet_world (hours 1))
              [trade "b" (seconds 7); trade "a" (seconds 5); trade "b" (seconds 7)] None,
            h') ∧
    get_list h' 1%positive = Some [3; 2; 3]%positive.
Proof.
  destruct (analyze_preserves_input (quiet_world (hours 1)) caller_heap 1%positive None
              [trade "b" (seconds 7); trade "a" (seconds 5); trade "b" (seconds 7)])
    as (h' & Hcall & _ & Hlist & _).
  - reflexivity.
  - exists h'. split; [exact Hcall|]. rewrite Hlist. reflexivity.
Defined.

(** ** Two invocations *)



(** * The helpers of [analyzer.py] *)

(** ** [simulate_token_authorities] *)

(** The offset of the byte that decides [freeze_present]. *)
Lemma parse_mint_Some raw mint_present freeze_present :
  parse_mint raw = Some (mint_present, freeze_present)
  ↔ ∃ b0 b1,
      raw !! 0%nat = Some b0 ∧ mint_present = nonzero b0 ∧
      raw !! (if mint_present then 43 else 11)%nat = Some b1 ∧
      freeze_present = nonzero b1.
Proof.
  unfold parse_mint. split.
  - intros H. destruct (raw !! 0%nat) as [b0|] eqn:E0; [|done]. simpl in H.
    destruct (nonzero b0) eqn:Eb; simpl in H.
    + destruct (raw !! 43%nat) as [b1|] eqn:E1; [|done]. simpl in H.
      injection H as <- <-. by exists b0, b1.
    + destruct (raw !! 11%nat) as [b1|] eqn:E1; [|done]. simpl in H.
      injection H as <- <-. by exists b0, b1.
  - intros (b0 & b1 & E0 & -> & E1 & ->). rewrite E0. simpl.
    destruct (nonzero b0); simpl in *; by rewrite E1.
Qed.

(** X1. The mint data parses exactly when it reaches the byte of the freeze
    flag: 12 bytes without a mint authority, 44 bytes with one. *)
Theorem parse_mint_bounds raw :
  parse_mint raw = None
  ↔ (length raw < 12)%nat
    ∨ ∃ b0, raw !! 0%nat = Some b0 ∧ nonzero b0 = true ∧ (length raw < 44)%nat.
Proof.
  unfold parse_mint. destruct (raw !! 0%nat) as [b0|] eqn:E0; simpl.
  - destruct (nonzero b0) eqn:Eb; simpl.
    + destruct (raw !! 43%nat) as [b1|] eqn:E1; simpl.
      * apply lookup_lt_Some in E1. split; [done|].
        intros [?|(? & _ & _ & ?)]; lia.
      * apply lookup_ge_None in E1. split; [|done]. intros _. right.
        exists b0. repeat split; [done|lia].
    + destruct (raw !! 11%nat) as [b1|] eqn:E1; simpl.
      * apply lookup_lt_Some in E1. split; [done|].
        intros [?|(b & Hb & Hnz & _)]; [lia|congruence].
      * apply lookup_ge_None in E1. split; [|done]. intros _. left. lia.
  - apply lookup_ge_None in E0. split; [|done]. intros _. left. lia.
Qed.

Lemma authority_reasons_spec freeze_present mint_present :
  authority_reasons freeze_present mint_present ≠ [] ∧
  (FreezeAuthorityActive ∈ authority_reasons freeze_present mint_present
   ↔ freeze_present = true) ∧
  (MintAuthorityActive ∈ authority_reasons freeze_present mint_present
   ↔ mint_present = true) ∧
  (AuthoritiesRenounced ∈ authority_reasons freeze_present mint_present
   ↔ freeze_present = false ∧ mint_present = false).
Proof.
  unfold authority_reasons.
  destruct freeze_present, mint_present; simpl;
    (split; [done|]); rewrite ?elem_of_cons, ?elem_of_nil;
    intuition (discriminate || congruence).
Qed.

(** X2. [simulate_token_authorities] reports an authority only from decoded
    account data; any failure of the transport gives (False, False) and
    one reason; the call raises only on a null result. *)
Theorem authorities_error_behaviour lib rpc token_address :
  let outcome := simulate_token_authorities_rpc lib rpc token_address in
  (∀ e, getAccountInfo rpc token_address = Raises e →
        outcome = Returns (false, false, [AuthRpcFailed e])) ∧
  (∀ freeze mint rs, outcome = Returns (freeze, mint, rs) →
     freeze = true ∨ mint = true →
     ∃ raw, decoded_account lib rpc token_address raw
            ∧ parse_mint raw = Some (mint, freeze)) ∧
  (∀ e, outcome = Raises e →
     e = none_has_no_get ∧
     ∃ d, getAccountInfo rpc token_address = Returns d ∧ rpc_error d = None
          ∧ rpc_result d = None).
Proof.
  cbv zeta. unfold simulate_token_authorities_rpc, _solana_rpc_call, decoded_account.
  split; [|split].
  - by intros e ->.
  - intros freeze mint rs H Hflag.
    assert (∀ r, Returns (false, false, [r]) = Returns (freeze, mint, rs) → False)
      as Hfail.
    { intros r [= <- <- _]. by destruct Hflag. }
    destruct (getAccountInfo rpc token_address) as [d|e]; [|by destruct (Hfail _ H)].
    destruct (rpc_error d) eqn:Eerr; [by destruct (Hfail _ H)|].
    destruct (rpc_result d) as [result|] eqn:Eres; [|done].
    destruct (value result) as [v|] eqn:Ev; simpl in H; [|by destruct (Hfail _ H)].
    destruct (data v) as [[|data_b64 rest]|] eqn:Ed;
      [by destruct (Hfail _ H)| |by destruct (Hfail _ H)].
    destruct (b64decode lib data_b64) as [raw|e] eqn:Eb; [|by destruct (Hfail _ H)].
    destruct (parse_mint raw) as [[m f]|] eqn:Ep; [|by destruct (Hfail _ H)].
    injection H as <- <- _. exists raw. split; [|done].
    by exists d, result, v, data_b64, rest.
  - intros e H.
    destruct (getAccountInfo rpc token_address) as [d|e']; [|done].
    destruct (rpc_error d) eqn:Eerr; [done|].
    destruct (rpc_result d) as [result|] eqn:Eres.
    + exfalso. destruct (value result) as [v|]; simpl in H; [|done].
      destruct (data v) as [[|data_b64 rest]|]; [done| |done].
      destruct (b64decode lib data_b64) as [raw|?]; [|done].
      by destruct (parse_mint raw) as [[m f]|].
    + injection H as <-. split; [done|]. by exists d.
Qed.

(** X3. The reasons of [simulate_token_authorities] are never empty and name
    exactly the authorities it reports. *)
Theorem authorities_reasons_consistent lib rpc token_address freeze mint rs :
  simulate_token_authorities_rpc lib rpc token_address = Returns (freeze, mint, rs) →
  rs ≠ [] ∧
  (FreezeAuthorityActive ∈ rs ↔ freeze = true) ∧
  (MintAuthorityActive ∈ rs ↔ mint = true).
Proof.
  unfold simulate_token_authorities_rpc, _solana_rpc_call. intros H.
  assert (∀ r, r ≠ FreezeAuthorityActive → r ≠ MintAuthorityActive →
            Returns (false, false, [r]) = Returns (freeze, mint, rs) →
            rs ≠ [] ∧ (FreezeAuthorityActive ∈ rs ↔ freeze = true)
            ∧ (MintAuthorityActive ∈ rs ↔ mint = true)) as Hfail.
  { intros r Hf Hm [= <- <- <-]. split; [done|].
    rewrite !list_elem_of_singleton. split; split; congruence. }
  destruct (getAccountInfo rpc token_address) as [d|e];
    [|eapply Hfail; [..|exact H]; done].
  destruct (rpc_error d); [eapply Hfail; [..|exact H]; done|].
  destruct (rpc_result d) as [result|]; [|done].
  destruct (value result ≫= data) as [[|data_b64 rest]|];
    [eapply Hfail; [..|exact H]; done| |eapply Hfail; [..|exact H]; done].
  destruct (b64decode lib data_b64) as [raw|e];
    [|eapply Hfail; [..|exact H]; done].
  destruct (parse_mint raw) as [[m f]|]; [|eapply Hfail; [..|exact H]; done].
  injection H as <- <- <-.
  destruct (authority_reasons_spec f m) as (? & ? & ? & _). done.
Qed.


Lemma authorities_reasons_consistent_witness :
  simulate_token_authorities_rpc sample_lib sample_rpc "mint"
  = Returns (true, true, [FreezeAuthorityActive; MintAuthorityActive]) ∧
  [FreezeAuthorityActive; MintAuthorityActive] ≠ [] ∧
  (FreezeAuthorityActive ∈ [FreezeAuthorityActive; MintAuthorityActive] ↔ true = true) ∧
  (MintAuthorityActive ∈ [FreezeAuthorityActive; MintAuthorityActive] ↔ true = true).
Proof.
  split; [reflexivity|].
  apply (authorities_reasons_consistent sample_lib sample_rpc "mint").
  reflexivity.
Defined.


(** ** [simulate_lp_stability] *)

Lemma falsy_false s : falsy s = false ↔ ∃ a, s = Some a ∧ a ≠ ""%string.
Proof.
  unfold falsy. destruct s as [a|].
  - rewrite bool_decide_eq_false. split; [by exists a|].
    by intros (a' & [= <-] & ?).
  - split; [done|]. by intros (? & ? & _).
Qed.

Lemma is_burn_or_locker_spec cfg addr :
  is_burn_or_locker cfg addr = true
  ↔ addr ∈ BURN_ADDRESSES ∨ addr ∈ LOCKER_ADDRESSES cfg.
Proof.
  unfold is_burn_or_locker. by rewrite orb_true_iff, !bool_decide_eq_true.
Qed.

(** The loop stops at a burn or locker account wherever it stands in the
    list. *)
Lemma finds_locked_spec cfg accounts :
  finds_locked cfg accounts = true ↔ ∃ acc, acc ∈ accounts ∧ burnt_or_locked cfg acc.
Proof.
  unfold burnt_or_locked. induction accounts as [|acc rest IH]; simpl.
  - split; [done|]. by intros (? & ?%elem_of_nil & _).
  - destruct (address acc) as [addr|] eqn:Eaddr.
    + case_bool_decide as Hempty.
      * rewrite IH. split.
        -- intros (acc' & Hin & H). exists acc'. split; [by right|done].
        -- intros (acc' & [->|Hin]%elem_of_cons & addr' & Ha & Hne & H).
           ++ congruence.
           ++ exists acc'. split; [done|]. by exists addr'.
      * destruct (is_burn_or_locker cfg addr) eqn:Elock.
        -- split; [|done]. intros _. exists acc. split; [by left|].
           exists addr. by rewrite <- is_burn_or_locker_spec.
        -- rewrite IH. split.
           ++ intros (acc' & Hin & H). exists acc'. split; [by right|done].
           ++ intros (acc' & [->|Hin]%elem_of_cons & addr' & Ha & Hne & H).
              ** rewrite Eaddr in Ha. injection Ha as <-.
                 apply is_burn_or_locker_spec in H. congruence.
              ** exists acc'. split; [done|]. by exists addr'.
    + rewrite IH. split.
      * intros (acc' & Hin & H). exists acc'. split; [by right|done].
      * intros (acc' & [->|Hin]%elem_of_cons & addr' & Ha & Hne & H).
        -- congruence.
        -- exists acc'. split; [done|]. by exists addr'.
Qed.

Lemma falsy_true_some s a : falsy s = true → s = Some a → a = ""%string.
Proof. intros H ->. simpl in H. by apply bool_decide_eq_true in H. Qed.

(** X4. What [simulate_lp_stability] does follows from the configuration and
    the reply of the endpoint, and from nothing else: 0 and one reason when
    no LP mint is configured or when any listed account, whatever its
    balance, is a burn or locker address; 0.5 and one reason when the call
    fails or lists nothing; 1 and one reason when it lists accounts and
    none is a burn or locker address; and an [AttributeError] when the
    reply has a null result.  One of these situations always holds. *)
Theorem lp_stability_outcome cfg rpc token_address :
  let outcome := simulate_lp_stability_rpc cfg rpc token_address in
  (falsy (LP_MINT_ADDRESS cfg) = true → outcome = Returns (0%Q, [LpCheckSkipped])) ∧
  (∀ e, lp_call_fails cfg rpc e → outcome = Returns (0.5%Q, [LpRpcFailed e])) ∧
  (lp_null_result cfg rpc → outcome = Raises none_has_no_get) ∧
  (lp_accounts cfg rpc [] → outcome = Returns (0.5%Q, [LpNoAccounts])) ∧
  (∀ accounts acc,
     lp_accounts cfg rpc accounts → acc ∈ accounts → burnt_or_locked cfg acc →
     outcome = Returns (0%Q, [LiquidityGuard])) ∧
  (∀ accounts,
     lp_accounts cfg rpc accounts → accounts ≠ [] →
     (∀ acc, acc ∈ accounts → ¬ burnt_or_locked cfg acc) →
     outcome = Returns (1%Q, [UnlockedLiquidity])) ∧
  (falsy (LP_MINT_ADDRESS cfg) = true ∨ (∃ e, lp_call_fails cfg rpc e)
   ∨ lp_null_result cfg rpc ∨ ∃ accounts, lp_accounts cfg rpc accounts).
Proof.
  cbv zeta.
  unfold simulate_lp_stability_rpc, lp_call_fails, lp_null_result, lp_accounts,
    _solana_rpc_call.
  destruct (falsy (LP_MINT_ADDRESS cfg)) eqn:Efalsy.
  { split; [done|]. split; [|split; [|split; [|split; [|split]]]].
    - intros e (lp & Elp & Hne & _). by destruct (Hne (falsy_true_some _ _ Efalsy Elp)).
    - intros (lp & d & Elp & Hne & _). by destruct (Hne (falsy_true_some _ _ Efalsy Elp)).
    - intros (lp & d & r & Elp & Hne & _).
      by destruct (Hne (falsy_true_some _ _ Efalsy Elp)).
    - intros accounts acc (lp & d & r & Elp & Hne & _).
      by destruct (Hne (falsy_true_some _ _ Efalsy Elp)).
    - intros accounts (lp & d & r & Elp & Hne & _).
      by destruct (Hne (falsy_true_some _ _ Efalsy Elp)).
    - by left. }
  apply falsy_false in Efalsy as (lp_mint & Elp & Hne). rewrite Elp. simpl.
  split; [done|].
  destruct (getTokenLargestAccounts rpc lp_mint) as [d|e0] eqn:Ecall.
  2:{ split; [|split; [|split; [|split; [|split]]]].
      - intros e (lp & [= <-] & _ & H). rewrite Ecall in H. by injection H as <-.
      - intros (lp & d & [= <-] & _ & H & _). congruence.
      - intros (lp & d & r & [= <-] & _ & H & _). congruence.
      - intros accounts acc (lp & d & r & [= <-] & _ & H & _). congruence.
      - intros accounts (lp & d & r & [= <-] & _ & H & _). congruence.
      - right. left. exists e0, lp_mint. by rewrite Ecall. }
  destruct (rpc_error d) as [err|] eqn:Eerr.
  { split; [|split; [|split; [|split; [|split]]]].
    - intros e (lp & [= <-] & _ & H). rewrite Ecall, Eerr in H. by injection H as <-.
    - intros (lp & d' & [= <-] & _ & H & H' & _). congruence.
    - intros (lp & d' & r & [= <-] & _ & H & H' & _). congruence.
    - intros accounts acc (lp & d' & r & [= <-] & _ & H & H' & _). congruence.
    - intros accounts (lp & d' & r & [= <-] & _ & H & H' & _). congruence.
    - right. left. eexists _, lp_mint. by rewrite Ecall, Eerr. }
  destruct (rpc_result d) as [result|] eqn:Eres.
  2:{ split; [|split; [|split; [|split; [|split]]]].
      - intros e (lp & [= <-] & _ & H). rewrite Ecall in H. simpl in H. rewrite Eerr in H. discriminate H.
      - done.
      - intros (lp & d' & r & [= <-] & _ & H & _ & H' & _). congruence.
      - intros accounts acc (lp & d' & r & [= <-] & _ & H & _ & H' & _). congruence.
      - intros accounts (lp & d' & r & [= <-] & _ & H & _ & H' & _). congruence.
      - right. right. left. by exists lp_mint, d. }
  assert (∀ accounts,
            (∃ lp d' r, Some lp_mint = Some lp ∧ lp ≠ ""%string ∧
                        getTokenLargestAccounts rpc lp = Returns d' ∧
                        rpc_error d' = None ∧
                        rpc_result d' = Some r ∧ default [] (value r) = accounts)
            → default [] (value result) = accounts) as Hlisted.
  { intros accounts (lp & d' & r & [= <-] & _ & H & _ & H' & <-). congruence. }
  split; [|split; [|split; [|split; [|split]]]].
  - intros e (lp & [= <-] & _ & H). rewrite Ecall in H. simpl in H. rewrite Eerr in H. discriminate H.
  - intros (lp & d' & [= <-] & _ & H & _ & H'). congruence.
  - intros ->%Hlisted. done.
  - intros accounts acc <-%Hlisted Hin Hlock.
    assert (finds_locked cfg (default [] (value result)) = true) as ->.
    { apply finds_locked_spec. by exists acc. }
    destruct (default [] (value result)); [by apply elem_of_nil in Hin|done].
  - intros accounts <-%Hlisted Hne' Hnone.
    destruct (finds_locked cfg (default [] (value result))) eqn:Efind.
    + apply finds_locked_spec in Efind as (acc & Hin & Hlock).
      by destruct (Hnone acc Hin).
    + by destruct (default [] (value result)).
  - right. right. right. exists (default [] (value result)).
    by exists lp_mint, d, result.
Qed.

(** ** Floats *)

Lemma round64_ordered q : ordered (round64 q).
Proof.
  unfold ordered, round64. destruct (Qeq_bool q 0); [done|]. cbv zeta.
  match goal with |- context [Qle_bool ?a ?b] => destruct (Qle_bool a b) end;
    [by destruct (Qlt_bool 0 q)|done].
Qed.

Lemma fle_refl x : ordered x → fle x x = true.
Proof. destruct x; simpl; try done. intros _. apply Qle_bool_iff, Qle_refl. Qed.

Lemma flt_fle x y : flt x y = true → fle x y = true.
Proof.
  destruct x, y; simpl; try done.
  intros H%Qlt_bool_iff. by apply Qle_bool_iff, Qlt_le_weak.
Qed.

Lemma flt_false_fle x y : ordered x → ordered y → flt x y = false → fle y x = true.
Proof.
  destruct x, y; simpl; try done.
  intros _ _ H%Qlt_bool_false. by apply Qle_bool_iff.
Qed.

Lemma fle_trans x y z : fle x y = true → fle y z = true → fle x z = true.
Proof.
  destruct x, y, z; simpl; try done.
  rewrite !Qle_bool_iff. apply Qle_trans.
Qed.

Lemma fle_flt_trans x y z : fle x y = true → flt y z = true → flt x z = true.
Proof.
  destruct x, y, z; simpl; try done.
  rewrite Qle_bool_iff, !Qlt_bool_iff. apply Qle_lt_trans.
Qed.

Lemma flt_ordered_r x y : flt x y = true → ordered y.
Proof. by destruct x, y. Qed.

(** ** [get_top_holders_onchain] *)

(** Line 248 never gives a float that is no number, and with a positive
    supply it raises nothing but the [OverflowError] of the division. *)
Lemma percentage_ordered amt total_amount pct :
  percentage amt total_amount = Returns pct → ordered pct.
Proof.
  unfold percentage, int_true_div.
  destruct (total_amount =? 0); [done|].
  destruct (round64 (inject_Z amt / inject_Z total_amount)) as [q| | |]; try done.
  intros [= <-]. apply round64_ordered.
Qed.

Lemma percentage_raises amt total_amount e :
  0 < total_amount → percentage amt total_amount = Raises e →
  exn_class e = OverflowError.
Proof.
  unfold percentage, int_true_div. intros Hpos.
  destruct (total_amount =? 0) eqn:E; [apply Z.eqb_eq in E; lia|].
  by destruct (round64 (inject_Z amt / inject_Z total_amount)); intros [= <-].
Qed.

Lemma all_returned_raises {A} (calls : list (Outcome A)) e :
  all_returned calls = Raises e → Raises e ∈ calls.
Proof.
  induction calls as [|call rest IH]; [done|]. simpl.
  destruct call as [a|e']; simpl.
  - destruct (all_returned rest) as [others|e'']; [done|].
    intros [= ->]. right. by apply IH.
  - intros [= ->]. by left.
Qed.

(** The loop collects the percentages of the counted balances in their
    order, and stops at the first that raises. *)
Lemma collect_holders_spec lib total_amount accounts holders :
  match all_returned ((λ amt, percentage amt total_amount)
                        <$> counted_amounts lib accounts) with
  | Raises e => collect_holders lib total_amount accounts holders = Raises e
  | Returns percentages =>
      ∃ new, collect_holders lib total_amount accounts holders = Returns (holders ++ new)
             ∧ new.*2 = percentages
  end.
Proof.
  revert holders. induction accounts as [|acc rest IH]; intros holders; simpl in *.
  { exists []. by rewrite app_nil_r. }
  destruct (falsy (address acc)); [apply IH|].
  destruct (account_amount acc ≫= parse_int lib) as [amt|]; [|apply IH].
  simpl. destruct (percentage amt total_amount) as [pct|e]; simpl; [|done].
  specialize (IH (holders ++ [(default ""%string (address acc), pct)])).
  change (fmap ?f ?l) with (list_fmap _ _ f l) in IH.
  match goal with
  | |- context [all_returned ?l] => destruct (all_returned l) as [others|e]
  end; simpl in *; [|done].
  destruct IH as (new & -> & <-).
  exists ((default ""%string (address acc), pct) :: new). by rewrite <- app_assoc.
Qed.

Lemma collect_holders_ordered lib total_amount accounts holders collected :
  (∀ h, h ∈ holders → ordered h.2) →
  collect_holders lib total_amount accounts holders = Returns collected →
  ∀ h, h ∈ collected → ordered h.2.
Proof.
  revert holders. induction accounts as [|acc rest IH]; intros holders Hold; simpl.
  { by intros [= <-]. }
  destruct (falsy (address acc)); [by apply IH|].
  destruct (account_amount acc ≫= parse_int lib) as [amt|]; [|by apply IH].
  destruct (percentage amt total_amount) as [pct|e] eqn:Epct; simpl; [|done].
  apply IH. intros h [Hin|Hin%list_elem_of_singleton]%elem_of_app; [by apply Hold|].
  subst h. by apply percentage_ordered in Epct.
Qed.

(** [max(..., key=...)] returns an element whose key no other exceeds. *)
Lemma largest_of_spec (first : string * Float) others :
  (∀ h, h ∈ first :: others → ordered h.2) →
  largest_of first others ∈ first :: others ∧
  ∀ h, h ∈ first :: others → fle h.2 (largest_of first others).2 = true.
Proof.
  unfold largest_of. revert first.
  induction others as [|h rest IH]; intros first Hord; simpl.
  - split; [by left|]. intros h [->|?%elem_of_nil]%elem_of_cons; [|done].
    apply fle_refl, Hord. by left.
  - set (best := if flt first.2 h.2 then h else first).
    assert (fle first.2 best.2 = true ∧ fle h.2 best.2 = true
            ∧ (best = first ∨ best = h)) as (Hf & Hh & Hbest).
    { unfold best. destruct (flt first.2 h.2) eqn:E.
      - split; [by apply flt_fle|]. split; [|by right].
        apply fle_refl, Hord. right; by left.
      - split; [apply fle_refl, Hord; by left|]. split; [|by left].
        apply flt_false_fle; [apply Hord; by left|apply Hord; right; by left|done]. }
    destruct (IH best) as [Hin Hmax].
    { intros x [->|Hx]%elem_of_cons.
      - destruct Hbest as [->| ->]; apply Hord; [by left|right; by left].
      - apply Hord. by right; right. }
    split.
    + apply elem_of_cons in Hin as [->|Hin].
      * destruct Hbest as [->| ->]; [by left|by right; left].
      * by right; right.
    + intros x [->|[->|Hx]%elem_of_cons]%elem_of_cons.
      * apply fle_trans with best.2; [done|]. apply Hmax. by left.
      * apply fle_trans with best.2; [done|]. apply Hmax. by left.
      * apply Hmax. by right.
Qed.

Lemma holder_reasons_spec holders top_10_share :
  (∀ h, h ∈ holders → ordered h.2) →
  (∀ share, TopHolderConcentration share ∈ holder_reasons holders top_10_share
            ↔ share = top_10_share ∧ flt (Finite 30) top_10_share = true) ∧
  (∀ addr pct, WhaleConcentration addr pct ∈ holder_reasons holders top_10_share →
     (addr, pct) ∈ holders ∧ flt (Finite 10) pct = true
     ∧ ∀ h, h ∈ holders → fle h.2 pct = true) ∧
  (∀ r, r ∈ holder_reasons holders top_10_share → ¬ data_unavailable r) ∧
  (length (holder_reasons holders top_10_share) ≤ 2)%nat.
Proof.
  intros Hord. unfold holder_reasons. cbv zeta.
  set (whales := filter (λ h : string * Float, flt (Finite 10) h.2) holders).
  assert (∀ h, h ∈ whales ↔ flt (Finite 10) h.2 = true ∧ h ∈ holders) as Hwhales.
  { intros h. unfold whales. rewrite list_elem_of_filter. by rewrite Is_true_true. }
  assert (∀ share, TopHolderConcentration share
                   ∈ (if flt (Finite 30) top_10_share
                      then [TopHolderConcentration top_10_share] else [])
                   ↔ share = top_10_share ∧ flt (Finite 30) top_10_share = true)
    as Hconc.
  { intros share. destruct (flt (Finite 30) top_10_share) eqn:E.
    - rewrite list_elem_of_singleton. split; [by intros [= ->]|by intros [-> _]].
    - split; [by intros ?%elem_of_nil|]. by intros [_ H]. }
  destruct whales as [|first others] eqn:Ew; cbn -[flt largest_of].
  - split; [done|]. split; [|split].
    + intros addr pct H. destruct (flt (Finite 30) top_10_share);
        [by apply list_elem_of_singleton in H|by apply elem_of_nil in H].
    + intros r H. destruct (flt (Finite 30) top_10_share);
        [apply list_elem_of_singleton in H as ->; intros []|by apply elem_of_nil in H].
    + destruct (flt (Finite 30) top_10_share); simpl; lia.
  - destruct (largest_of_spec first others) as [Hin Hmax].
    { intros h Hh. apply Hord. by apply Hwhales in Hh as [_ ?]. }
    split; [|split; [|split]].
    + intros share. rewrite elem_of_cons, Hconc. split; [|tauto].
      by intros [?|?].
    + intros addr pct [[= -> ->]|H]%elem_of_cons.
      * apply Hwhales in Hin as [Hgt Hh]. split; [by destruct (largest_of first others)|].
        split; [done|]. intros h Hh'.
        destruct (flt (Finite 10) h.2) eqn:Ew'.
        -- apply Hmax, Hwhales. done.
        -- apply fle_trans with (Finite 10).
           ++ apply flt_false_fle; [done|by apply Hord|done].
           ++ by apply flt_fle.
      * destruct (flt (Finite 30) top_10_share);
          [by apply list_elem_of_singleton in H|by apply elem_of_nil in H].
    + intros r [->|H]%elem_of_cons; [by intros []|].
      destruct (flt (Finite 30) top_10_share);
        [apply list_elem_of_singleton in H as ->; intros []|by apply elem_of_nil in H].
    + destruct (flt (Finite 30) top_10_share); simpl; lia.
Qed.

Lemma top_holders_cases lib rpc token_address :
  let outcome := get_top_holders_onchain_rpc lib rpc token_address in
  (∃ r, outcome = Returns (Finite 0, [r]) ∧ data_unavailable r) ∨
  outcome = Raises none_has_no_get ∨
  (∃ total_amount accounts,
     supply_and_accounts lib rpc token_address total_amount accounts ∧
     match collect_holders lib total_amount (take 10 accounts) [] with
     | Raises e => outcome = Raises e
     | Returns holders =>
         holders ≠ [] ∧
         outcome = Returns (sum_pct lib holders,
                            holder_reasons holders (sum_pct lib holders))
     end).
Proof.
  cbv zeta. unfold get_top_holders_onchain_rpc, supply_and_accounts.
  destruct (_solana_rpc_call "getTokenSupply" (getTokenSupply rpc token_address))
    as [supply_res|e] eqn:Esupply; [|left; by eexists].
  destruct (total_supply lib supply_res) as [total_amount|e] eqn:Etotal;
    [|left; by eexists].
  destruct (total_amount <=? 0) eqn:Epos; [left; by eexists|].
  apply Z.leb_gt in Epos.
  destruct (_solana_rpc_call "getTokenLargestAccounts"
              (getTokenLargestAccounts rpc token_address))
    as [[largest_res|]|e] eqn:Elargest; [|by right; left|left; by eexists].
  destruct (default [] (value largest_res)) as [|acc0 rest] eqn:Eacc;
    [left; by eexists|].
  destruct (collect_holders lib total_amount (take 10 (acc0 :: rest)) [])
    as [[|h holders]|e] eqn:Eholders; simpl; [left; by eexists| |].
  - right. right. exists total_amount, (acc0 :: rest). split.
    + by exists supply_res, largest_res.
    + by rewrite Eholders.
  - right. right. exists total_amount, (acc0 :: rest). split.
    + by exists supply_res, largest_res.
    + by rewrite Eholders.
Qed.

(** The supply and the accounts that the endpoint reports are one pair. *)
Lemma supply_and_accounts_unique lib rpc token_address total1 accounts1 total2 accounts2 :
  supply_and_accounts lib rpc token_address total1 accounts1 →
  supply_and_accounts lib rpc token_address total2 accounts2 →
  total1 = total2 ∧ accounts1 = accounts2.
Proof.
  intros (s1 & l1 & Hs1 & Ht1 & _ & Hl1 & Ha1 & _) (s2 & l2 & Hs2 & Ht2 & _ & Hl2 & Ha2 & _).
  rewrite Hs1 in Hs2. injection Hs2 as <-. rewrite Ht1 in Ht2. injection Ht2 as <-.
  rewrite Hl1 in Hl2. injection Hl2 as <-. by rewrite <- Ha1, <- Ha2.
Qed.

(** X5. When the endpoint reports a positive supply and lists accounts, the
    percentages of line 248, one for each counted balance of the first ten
    listed accounts, decide what [get_top_holders_onchain] does: when one of
    them cannot be computed, its [OverflowError] leaves the function; when
    no balance is counted, the share is 0; otherwise the share is the [sum]
    of these percentages, each rounded as a float is. *)
Theorem top_10_share_formula lib rpc token_address total_amount accounts :
  supply_and_accounts lib rpc token_address total_amount accounts →
  let counted := counted_amounts lib (take 10 accounts) in
  match all_returned ((λ amt, percentage amt total_amount) <$> counted) with
  | Raises e =>
      get_top_holders_onchain_rpc lib rpc token_address = Raises e
      ∧ exn_class e = OverflowError
  | Returns [] =>
      get_top_holders_onchain_rpc lib rpc token_address
      = Returns (Finite 0, [UnparsableBalances])
  | Returns percentages =>
      ∃ rs, get_top_holders_onchain_rpc lib rpc token_address
            = Returns (float_sum lib percentages, rs)
  end.
Proof.
  intros Hsa counted.
  assert (0 < total_amount) as Hpos by (by destruct Hsa as (? & ? & _ & _ & ? & _)).
  pose proof (collect_holders_spec lib total_amount (take 10 accounts) []) as Hspec.
  fold counted in Hspec.
  unfold get_top_holders_onchain_rpc.
  destruct Hsa as (supply_res & largest_res & -> & -> & _ & -> & Hacc & Hne).
  rewrite Hacc. apply Z.leb_gt in Hpos. rewrite Hpos.
  destruct accounts as [|acc0 rest]; [done|].
  destruct (all_returned ((λ amt, percentage amt total_amount) <$> counted))
    as [percentages|e] eqn:Eall.
  - destruct Hspec as (holders & -> & <-). simpl.
    destruct holders as [|h holders]; [done|]. simpl. by eexists.
  - rewrite Hspec. split; [done|].
    apply all_returned_raises, list_elem_of_fmap in Eall as (amt & Heq & _).
    symmetry in Heq. apply percentage_raises in Heq; [done|by apply Z.leb_gt].
Qed.

(** With a supply of 100 and balances of 28 and of 2, the share is above 30:
    the quotient 0.28 is rounded before it is multiplied. *)
Lemma top_10_share_formula_witness :
  ∃ rs, get_top_holders_onchain_rpc sample_lib rounding_rpc "mint"
        = Returns (Finite (8444249301319681 # 281474976710656), rs)
        ∧ TopHolderConcentration (Finite (8444249301319681 # 281474976710656)) ∈ rs.
Proof.
  assert (supply_and_accounts sample_lib rounding_rpc "mint" 100
            [mkAccount (Some "w1") (Some "28"); mkAccount (Some "w2") (Some "2")]%string)
    as Hsa.
  { eexists _, _. repeat split; try reflexivity. discriminate. }
  pose proof (top_10_share_formula sample_lib rounding_rpc "mint" 100 _ Hsa) as H.
  vm_compute in H. destruct H as (rs & H). exists rs. split.
  - vm_compute. exact H.
  - injection H as <-. vm_compute. repeat constructor.
Defined.

(** X6. A "Data Unavailable" reason of [get_top_holders_onchain] is the only
    reason and comes with the share 0; the other reasons say what they
    measure: the concentration reason is there exactly when the share
    exceeds 30, and the whale reason names a counted holder with more than
    10 percent whom no other holder exceeds.  There are at most two
    reasons. *)
Theorem top_holders_reasons lib rpc token_address share rs :
  get_top_holders_onchain_rpc lib rpc token_address = Returns (share, rs) →
  (∀ r, r ∈ rs → data_unavailable r → rs = [r] ∧ share = Finite 0) ∧
  (∀ s, TopHolderConcentration s ∈ rs ↔ s = share ∧ flt (Finite 30) share = true) ∧
  (∀ addr pct, WhaleConcentration addr pct ∈ rs →
     flt (Finite 10) pct = true ∧
     ∃ total_amount accounts holders,
       supply_and_accounts lib rpc token_address total_amount accounts ∧
       collect_holders lib total_amount (take 10 accounts) [] = Returns holders ∧
       (addr, pct) ∈ holders ∧
       ∀ h, h ∈ holders → fle h.2 pct = true) ∧
  (length rs ≤ 2)%nat.
Proof.
  intros H.
  destruct (top_holders_cases lib rpc token_address)
    as [(r0 & E & Hr0)|[E|(total_amount & accounts & Hsa & E)]];
    cbv zeta in *; [| |].
  - rewrite H in E. injection E as -> ->. split; [|split; [|split]].
    + by intros r ->%list_elem_of_singleton _.
    + intros s. rewrite list_elem_of_singleton. split.
      * intros <-. by destruct Hr0.
      * by intros [_ Hlt].
    + intros addr pct <-%list_elem_of_singleton. by destruct Hr0.
    + simpl. lia.
  - by rewrite H in E.
  - destruct (collect_holders lib total_amount (take 10 accounts) [])
      as [holders|e] eqn:Eholders; rewrite H in E; [|done].
    destruct E as [Hne E]. injection E as -> ->.
    destruct (holder_reasons_spec holders (sum_pct lib holders))
      as (Hconc & Hwhale & Havail & Hlen).
    { eapply collect_holders_ordered; [|exact Eholders]. by intros h ?%elem_of_nil. }
    split; [|split; [|split]].
    + intros r Hin Hr. by destruct (Havail r Hin).
    + exact Hconc.
    + intros addr pct Hin. destruct (Hwhale addr pct Hin) as (Hh & Hgt & Hmax).
      split; [done|]. by exists total_amount, accounts, holders.
    + exact Hlen.
Qed.

Lemma top_holders_reasons_witness :
  ∃ share rs,
    get_top_holders_onchain_rpc sample_lib sample_rpc "mint" = Returns (share, rs) ∧
    share = Finite 45 ∧
    (∀ r, r ∈ rs → data_unavailable r → rs = [r] ∧ share = Finite 0) ∧
    (∀ s, TopHolderConcentration s ∈ rs ↔ s = share ∧ flt (Finite 30) share = true) ∧
    (∀ addr pct, WhaleConcentration addr pct ∈ rs →
       flt (Finite 10) pct = true ∧
       ∃ total_amount accounts holders,
         supply_and_accounts sample_lib sample_rpc "mint" total_amount accounts ∧
         collect_holders sample_lib total_amount (take 10 accounts) [] = Returns holders ∧
         (addr, pct) ∈ holders ∧
         ∀ h, h ∈ holders → fle h.2 pct = true) ∧
    (length rs ≤ 2)%nat.
Proof.
  eexists _, _. split; [vm_compute; reflexivity|]. split; [reflexivity|].
  apply (top_holders_reasons sample_lib sample_rpc "mint"). vm_compute. reflexivity.
Defined.

(** ** [fetch_top_recent_purchases] *)

Lemma utcfromtimestamp_cases lib block_time :
  (in_range block_time ∧ utcfromtimestamp lib block_time = Returns (seconds block_time))
  ∨ (¬ in_range block_time
     ∧ utcfromtimestamp lib block_time = Raises (timestamp_out_of_range lib block_time)).
Proof.
  unfold utcfromtimestamp, in_range, seconds.
  destruct (min_timestamp <=? block_time) eqn:E1;
    destruct (block_time <=? max_timestamp) eqn:E2; simpl;
    rewrite ?Z.leb_le, ?Z.leb_gt in *; [left|right..]; (split; [lia|done]).
Qed.

Lemma all_returned_then {A} (calls : list (Outcome A)) :
  (new ← all_returned calls; Returns ([] ++ new)) = all_returned calls.
Proof. by destruct (all_returned calls). Qed.

Lemma collect_purchases_spec lib rpc limit signatures transactions :
  collect_purchases lib rpc limit signatures transactions
  = new ← all_returned
            (take (Z.to_nat limit - length transactions)
                  (omap (purchase_of lib rpc) signatures));
    Returns (transactions ++ new).
Proof.
  revert transactions.
  induction signatures as [|sig_info rest IH]; intros transactions.
  { simpl. rewrite take_nil. simpl. by rewrite app_nil_r. }
  cbn [collect_purchases].
  destruct (limit <=? Z.of_nat (length transactions)) eqn:Efull.
  { apply Z.leb_le in Efull.
    replace (Z.to_nat limit - length transactions)%nat with 0%nat by lia.
    rewrite take_0. simpl. by rewrite app_nil_r. }
  apply Z.leb_gt in Efull. cbv zeta.
  assert (omap (purchase_of lib rpc) (sig_info :: rest)
          = from_option (λ tx, [tx]) [] (purchase_of lib rpc sig_info)
            ++ omap (purchase_of lib rpc) rest) as ->.
  { simpl. by destruct (purchase_of lib rpc sig_info). }
  assert (∀ tx,
            collect_purchases lib rpc limit rest (transactions ++ [tx])
            = new ← all_returned
                      (take (Z.to_nat limit - length transactions)
                            ([Returns tx] ++ omap (purchase_of lib rpc) rest));
              Returns (transactions ++ new)) as Hkeep.
  { intros tx. rewrite IH, length_app. simpl.
    destruct (Z.to_nat limit - length transactions)%nat as [|n] eqn:En; [lia|].
    replace (Z.to_nat limit - (length transactions + 1))%nat with n by lia.
    simpl. destruct (all_returned (take n (omap (purchase_of lib rpc) rest))); [|done].
    simpl. by rewrite <- app_assoc. }
  assert (∀ e,
            Raises e
            = new ← all_returned
                      (take (Z.to_nat limit - length transactions)
                            ([Raises e] ++ omap (purchase_of lib rpc) rest));
              Returns (transactions ++ new)) as Hraise.
  { intros e.
    destruct (Z.to_nat limit - length transactions)%nat as [|n] eqn:En; [lia|]. done. }
  unfold purchase_of at 1.
  destruct (signature sig_info) as [sig|]; simpl; [|apply IH].
  destruct (blockTime sig_info) as [block_time|]; simpl; [|apply IH].
  case_bool_decide as Hsig; simpl; [apply IH|].
  destruct (_solana_rpc_call "getTransaction" (getTransaction rpc sig))
    as [[account_keys|]|e] eqn:Etx; simpl; [|apply IH..].
  destruct (find_payer account_keys) as [payer|] eqn:Epayer; simpl; [|apply IH].
  case_bool_decide as Hpayer; simpl; [apply IH|].
  destruct (utcfromtimestamp lib block_time) as [ts|e]; simpl.
  - apply Hkeep.
  - apply Hraise.
Qed.

(** X7. The loop of [fetch_top_recent_purchases] goes through the purchases
    behind the listed signatures, in their order, up to [limit] of them;
    signatures without a block time, a transaction or a payer are passed
    over and do not count towards the limit.  It returns their trades, or
    raises what the first of them raises. *)
Theorem fetch_top_recent_purchases_spec lib rpc token_address limit :
  fetch_top_recent_purchases lib rpc token_address limit
  = all_returned
      (take (Z.to_nat limit)
            (omap (purchase_of lib rpc) (signatures_of rpc token_address limit))).
Proof.
  unfold fetch_top_recent_purchases, signatures_of.
  destruct (_solana_rpc_call "getSignaturesForAddress" _) as [sig_result|e].
  - rewrite collect_purchases_spec. simpl. rewrite Nat.sub_0_r.
    apply all_returned_then.
  - simpl. by rewrite take_nil.
Qed.

Lemma purchase_of_cases lib rpc sig_info purchase :
  purchase_of lib rpc sig_info = Some purchase →
  ∃ block_time,
    blockTime sig_info = Some block_time ∧
    ((in_range block_time ∧
      ∃ tx, purchase = Returns tx ∧ wallet tx ≠ ""%string ∧ amount tx = None
            ∧ timestamp tx = seconds block_time)
     ∨ (¬ in_range block_time
        ∧ purchase = Raises (timestamp_out_of_range lib block_time))).
Proof.
  unfold purchase_of.
  destruct (signature sig_info) as [sig|]; simpl; [|done].
  destruct (blockTime sig_info) as [block_time|]; simpl; [|done].
  case_bool_decide; [done|].
  destruct (_solana_rpc_call "getTransaction" (getTransaction rpc sig))
    as [[account_keys|]|e]; [|done..].
  destruct (find_payer account_keys) as [payer|]; simpl; [|done].
  case_bool_decide; [done|]. intros [= <-]. exists block_time. split; [done|].
  destruct (utcfromtimestamp_cases lib block_time) as [[Hin ->]|[Hout ->]].
  - left. split; [done|]. by eexists.
  - by right.
Qed.

Lemma all_returned_values {A} (calls : list (Outcome A)) values :
  all_returned calls = Returns values → calls = Returns <$> values.
Proof.
  revert values. induction calls as [|call rest IH]; intros values; simpl.
  { by intros [= <-]. }
  destruct call as [a|e]; simpl; [|done].
  destruct (all_returned rest) as [others|e]; simpl; [|done].
  intros [= <-]. by rewrite (IH others).
Qed.

Lemma all_returned_total {A} (calls : list (Outcome A)) :
  (∀ e, Raises e ∉ calls) → ∃ values, all_returned calls = Returns values.
Proof.
  induction calls as [|call rest IH]; intros Hno; simpl; [by eexists|].
  destruct call as [a|e]; simpl.
  - destruct IH as [others ->].
    { intros e He. apply (Hno e). by right. }
    by eexists.
  - destruct (Hno e). by left.
Qed.

(** The timestamps of the trades follow the block times of the listing. *)
Lemma purchases_follow_listing lib rpc signatures transactions :
  Returns <$> transactions `sublist_of` omap (purchase_of lib rpc) signatures →
  timestamp <$> transactions `sublist_of` seconds <$> omap blockTime signatures.
Proof.
  revert transactions.
  induction signatures as [|sig_info rest IH]; intros transactions; simpl.
  { intros H%sublist_nil_r. by destruct transactions. }
  destruct (purchase_of lib rpc sig_info) as [purchase|] eqn:Epurchase.
  - destruct (purchase_of_cases _ _ _ _ Epurchase) as (block_time & -> & Hcases). simpl.
    intros H. destruct transactions as [|tx others]; [apply sublist_nil_l|].
    simpl in H. apply sublist_cons_r in H as [H|(l' & Heq & H)].
    + apply sublist_cons. by apply IH.
    + injection Heq as Hp <-.
      destruct Hcases as [[_ (tx' & Htx & _ & _ & Hts)]|[_ Hraise]]; [|congruence].
      rewrite <- Hp in Htx. injection Htx as <-. simpl. rewrite Hts.
      apply sublist_skip. by apply IH.
  - intros H. destruct (blockTime sig_info); simpl; [apply sublist_cons|]; by apply IH.
Qed.

(** X8. When [fetch_top_recent_purchases] returns, it returns at most [limit]
    trades (none for a limit below 1); every trade has a wallet that is not
    empty and no amount, and the timestamps follow the order of the block
    times in the listing.  What it raises is the exception of the
    conversion of a listed block time outside the range of [datetime]; it
    returns when every listed block time is in that range, and it returns
    no trade when the call for the signatures fails. *)
Theorem fetched_purchases_bounded lib rpc token_address limit :
  let signatures := signatures_of rpc token_address limit in
  match fetch_top_recent_purchases lib rpc token_address limit with
  | Returns transactions =>
      Z.of_nat (length transactions) ≤ Z.max 0 limit ∧
      Forall (λ tx, wallet tx ≠ ""%string ∧ amount tx = None) transactions ∧
      timestamp <$> transactions `sublist_of` seconds <$> omap blockTime signatures
  | Raises e =>
      ∃ block_time, block_time ∈ omap blockTime signatures ∧ ¬ in_range block_time
                    ∧ e = timestamp_out_of_range lib block_time
  end ∧
  ((∀ block_time, block_time ∈ omap blockTime signatures → in_range block_time) →
   ∃ transactions,
     fetch_top_recent_purchases lib rpc token_address limit = Returns transactions) ∧
  ((∃ e, getSignaturesForAddress rpc token_address (Z.max (limit * 3) limit) = Raises e) →
   fetch_top_recent_purchases lib rpc token_address limit = Returns []).
Proof.
  cbv zeta.
  assert (fetch_top_recent_purchases lib rpc token_address limit
          = all_returned
              (take (Z.to_nat limit)
                    (omap (purchase_of lib rpc) (signatures_of rpc token_address limit))))
    as ->.
  { unfold fetch_top_recent_purchases, signatures_of.
    destruct (_solana_rpc_call "getSignaturesForAddress" _) as [sig_result|e].
    - rewrite collect_purchases_spec. simpl. rewrite Nat.sub_0_r.
      apply all_returned_then.
    - simpl. by rewrite take_nil. }
  set (signatures := signatures_of rpc token_address limit).
  assert (∀ purchase,
            purchase ∈ take (Z.to_nat limit) (omap (purchase_of lib rpc) signatures) →
            ∃ sig_info, sig_info ∈ signatures
                        ∧ purchase_of lib rpc sig_info = Some purchase) as Hfrom.
  { intros purchase Hin. apply list_elem_of_omap.
    eapply elem_of_sublist; [exact Hin|]. apply sublist_take. }
  assert (∀ e, Raises e ∈ take (Z.to_nat limit) (omap (purchase_of lib rpc) signatures) →
               ∃ block_time, block_time ∈ omap blockTime signatures
                             ∧ ¬ in_range block_time
                             ∧ e = timestamp_out_of_range lib block_time) as Hraised.
  { intros e (sig_info & Hin & Hp)%Hfrom.
    destruct (purchase_of_cases _ _ _ _ Hp) as (block_time & Hbt & Hcases).
    exists block_time. split; [apply list_elem_of_omap; by exists sig_info|].
    destruct Hcases as [[_ (tx & Htx & _)]|[Hout [= ->]]]; [done|]. done. }
  split; [|split].
  - destruct (all_returned _) as [transactions|e] eqn:Eall.
    + apply all_returned_values in Eall.
      assert (length transactions
              = length (take (Z.to_nat limit)
                             (omap (purchase_of lib rpc) signatures))) as Hlen.
      { by rewrite Eall, length_fmap. }
      split; [|split].
      * rewrite Hlen, length_take. lia.
      * apply Forall_forall. intros tx Hin.
        destruct (Hfrom (Returns tx)) as (sig_info & _ & Hp).
        { rewrite Eall. by apply list_elem_of_fmap_2. }
        destruct (purchase_of_cases _ _ _ _ Hp)
          as (block_time & _ & [[_ (tx' & [= <-] & ? & ? & _)]|[_ [=]]]).
        done.
      * apply purchases_follow_listing with lib rpc. rewrite <- Eall. apply sublist_take.
    + by apply Hraised, all_returned_raises.
  - intros Hall. apply all_returned_total. intros e (block_time & Hin & Hout & _)%Hraised.
    by destruct (Hout (Hall block_time Hin)).
  - intros [e He]. unfold signatures, signatures_of, _solana_rpc_call. rewrite He.
    simpl. by rewrite take_nil.
Qed.

Lemma fetched_purchases_length lib rpc token_address limit transactions :
  fetch_top_recent_purchases lib rpc token_address limit = Returns transactions →
  Z.of_nat (length transactions) ≤ Z.max 0 limit.
Proof.
  unfold fetch_top_recent_purchases.
  destruct (_solana_rpc_call "getSignaturesForAddress" _) as [sig_result|e];
    [|intros [= <-]; simpl; lia].
  rewrite collect_purchases_spec. simpl. rewrite Nat.sub_0_r.
  destruct (all_returned _) as [new|e] eqn:Eall; simpl; [|done]. intros [= <-].
  apply all_returned_values in Eall. apply (f_equal length) in Eall.
  rewrite length_take, length_fmap in Eall. lia.
Qed.

(** ** The engine with its helpers *)

Lemma aggregate_score_facts total sr war hr wr facts1 facts2 :
  lp_risk facts1 = lp_risk facts2 →
  top_10_share facts1 = top_10_share facts2 →
  freeze_present facts1 = freeze_present facts2 →
  aggregate_score total sr war hr wr facts1 = aggregate_score total sr war hr wr facts2.
Proof. intros Hlp Htop Hfreeze. unfold aggregate_score. by rewrite Hlp, Htop, Hfreeze. Qed.

Lemma analyze_score_facts w1 w2 transactions token1 token2 :
  utcnow w1 = utcnow w2 →
  lp_risk (token_facts w1 token1) = lp_risk (token_facts w2 token2) →
  top_10_share (token_facts w1 token1) = top_10_share (token_facts w2 token2) →
  freeze_present (token_facts w1 token1) = freeze_present (token_facts w2 token2) →
  manipulation_score (analyze_wallet_clustering w1 transactions token1)
  = manipulation_score (analyze_wallet_clustering w2 transactions token2).
Proof.
  intros Hnow Hlp Htop Hfreeze.
  destruct (decide (transactions = [])) as [->|Hne].
  - rewrite !analyze_empty. cbv zeta. simpl. by apply aggregate_score_facts.
  - rewrite !analyze_nonempty by done. cbv zeta. simpl. rewrite Hnow.
    by apply aggregate_score_facts.
Qed.

Lemma aggregate_score_floor_empty sr war hr wr facts :
  (85 <= aggregate_score 0 sr war hr wr facts)%Q.
Proof.
  unfold aggregate_score. cbv zeta. apply clamp_ge_85.
  change (0 <? 0)%nat with false. change (0 =? 0)%nat with true. cbn [andb].
  by apply (floor_step_ge true).
Qed.

Lemma analyze_facts w transactions token_address :
  let a := analyze_wallet_clustering w transactions token_address in
  let facts := token_facts w token_address in
  freeze_authority_present a = freeze_present facts ∧
  mint_authority_present a = mint_present facts ∧
  top_10_holder_share_pct a = top_10_share facts ∧
  (0 <= manipulation_score a <= 100)%Q ∧
  ((0 < lp_risk facts)%Q ∨ freeze_present facts = true → (85 <= manipulation_score a)%Q) ∧
  (transactions = [] → (85 <= manipulation_score a)%Q).
Proof.
  cbv zeta. destruct (decide (transactions = [])) as [->|Hne].
  - rewrite analyze_empty. cbv zeta. simpl.
    repeat split; try apply aggregate_score_range; intros; apply aggregate_score_floor_empty.
  - rewrite analyze_nonempty by done. cbv zeta. simpl.
    repeat split; try apply aggregate_score_range; [|done].
    intros H. apply aggregate_score_floor; [|done].
    destruct transactions; [done|simpl; lia].
Qed.

Lemma facts_reasons_helper w token_address r :
  r ∈ facts_reasons (token_facts w token_address) → ∃ msg, r = HelperReason msg.
Proof.
  unfold token_facts. destruct token_address as [addr|]; [|by intros ?%elem_of_nil].
  destruct (simulate_token_authorities w addr) as [[freeze mint] ar].
  destruct (get_top_holders_onchain w addr) as [top hr].
  destruct (simulate_lp_stability w addr) as [lp lr]. simpl.
  intros (msg & -> & _)%list_elem_of_fmap. by exists msg.
Qed.

Lemma trade_reasons_kinds now_utc norm_tx r :
  r ∈ trade_reasons now_utc norm_tx → from_trades r.
Proof.
  unfold trade_reasons. rewrite !elem_of_app.
  intros [H|[H|[H|H]]]; revert H;
    match goal with |- context [if ?b then _ else _] => destruct b end;
    rewrite ?list_elem_of_singleton, ?elem_of_nil; try done; by intros ->.
Qed.

Lemma reasons_cases w transactions token_address :
  let rs := reasons (analyze_wallet_clustering w transactions token_address) in
  let facts_rs := facts_reasons (token_facts w token_address) in
  (∀ r, r ∈ facts_rs → r ∈ rs) ∧
  (length facts_rs ≤ length rs)%nat ∧
  (0 < length rs)%nat ∧
  (NoRiskDetected ∈ rs → rs = [NoRiskDetected] ∧ transactions ≠ [] ∧ facts_rs = []) ∧
  (InsufficientData ∈ rs ↔ transactions = []).
Proof.
  cbv zeta. destruct (decide (transactions = [])) as [->|Hne].
  - rewrite analyze_empty. cbv zeta. simpl. split; [|split; [|split; [|split]]].
    + intros r Hin. rewrite elem_of_app. by left.
    + rewrite length_app. lia.
    + rewrite length_app. simpl. lia.
    + rewrite elem_of_app, list_elem_of_singleton.
      intros [(msg & ?)%facts_reasons_helper|?]; done.
    + split; [done|]. intros _. rewrite elem_of_app, list_elem_of_singleton. by right.
  - rewrite analyze_nonempty by done. cbv zeta. simpl.
    set (trade_rs := trade_reasons _ _).
    set (facts_rs := facts_reasons _).
    set (wash_rs := if wash_trading_detected _ then _ else _).
    assert (∀ r, r ∈ (trade_rs ++ facts_rs) ++ wash_rs →
              r ≠ NoRiskDetected ∧ r ≠ InsufficientData) as Hkinds.
    { intros r. rewrite !elem_of_app. intros [[H|H]|H].
      - apply trade_reasons_kinds in H. by destruct r.
      - apply facts_reasons_helper in H as [msg ->]. done.
      - unfold wash_rs in H. destruct (wash_trading_detected _).
        + by apply list_elem_of_singleton in H as ->.
        + by apply elem_of_nil in H. }
    assert (∀ r, r ∈ facts_rs → r ∈ or_no_risk ((trade_rs ++ facts_rs) ++ wash_rs))
      as Hincl.
    { intros r Hin. apply elem_of_or_no_risk. rewrite !elem_of_app. by left; right. }
    assert (length facts_rs ≤ length (or_no_risk ((trade_rs ++ facts_rs) ++ wash_rs)))%nat
      as Hlen.
    { destruct ((trade_rs ++ facts_rs) ++ wash_rs) as [|r0 rs0] eqn:Ers.
      - apply app_eq_nil in Ers as [[_ ->]%app_eq_nil _]. simpl. lia.
      - simpl or_no_risk. rewrite <- Ers, !length_app. lia. }
    split; [done|]. split; [done|].
    destruct ((trade_rs ++ facts_rs) ++ wash_rs) as [|r0 rs0] eqn:Ers; simpl.
    + apply app_eq_nil in Ers as [[_ Hfacts]%app_eq_nil _].
      split; [lia|]. split; [done|].
      rewrite list_elem_of_singleton. split; [done|]. by intros ->.
    + split; [lia|]. split.
      * intros H. by destruct (Hkinds _ H).
      * split; [|done]. intros H. by destruct (Hkinds _ H).
Qed.

(** X9. The reasons of [analyze_wallet_clustering] are never empty; the
    no-risk sentence only ever stands alone, and then there were trades
    and no helper reason; the insufficient-data sentence is there exactly
    for an empty trade list; every reason of a helper is returned. *)
Theorem reasons_shape w transactions token_address :
  let rs := reasons (analyze_wallet_clustering w transactions token_address) in
  (0 < length rs)%nat ∧
  (NoRiskDetected ∈ rs →
   rs = [NoRiskDetected] ∧ transactions ≠ []
   ∧ facts_reasons (token_facts w token_address) = []) ∧
  (InsufficientData ∈ rs ↔ transactions = []) ∧
  (∀ r, r ∈ facts_reasons (token_facts w token_address) → r ∈ rs).
Proof.
  cbv zeta.
  destruct (reasons_cases w transactions token_address) as (Hincl & _ & Hpos & Hno & Hins).
  done.
Qed.

Lemma Qle_bool_false a b : Qle_bool a b = false ↔ (b < a)%Q.
Proof.
  split.
  - intros H. apply Qnot_le_lt. intros Hle. apply Qle_bool_iff in Hle. congruence.
  - intros H. destruct (Qle_bool a b) eqn:E; [|done].
    apply Qle_bool_iff in E. exfalso. by apply (Qlt_not_le b a).
Qed.

Lemma fraction_of_nonneg count len : (0 <= fraction_of count len)%Q.
Proof.
  unfold fraction_of. apply Qle_shift_div_l; [apply Qnat_pos; lia|].
  rewrite Qmult_0_l. apply (Qnat_le 0). lia.
Qed.

Lemma sequential_risk_of_range (clustered_fraction : Q) :
  (0 <= sequential_risk_of clustered_fraction <= 1)%Q.
Proof.
  unfold sequential_risk_of.
  destruct (Qle_bool clustered_fraction 0.5) eqn:Elow; [done|].
  destruct (Qle_bool 1 clustered_fraction) eqn:Ehigh; [done|].
  apply Qle_bool_false in Elow, Ehigh. split.
  - apply Qle_shift_div_l; [done|]. rewrite Qmult_0_l.
    apply Qlt_le_weak. by apply Qlt_minus_iff in Elow.
  - apply Qle_shift_div_r; [done|]. apply Qlt_le_weak.
    apply Qplus_lt_l with (z := 0.5%Q). by ring_simplify.
Qed.

(** X10. The four signals lie between 0 and 1, so that with a liquidity risk
    between 0 and 1 the modifier of lines 486-491 adds between 0 and 50
    points. *)
Theorem modifier_at_most_50 now_utc norm_tx lp_risk :
  (0 <= lp_risk <= 1)%Q →
  (0 <= sequential_risk norm_tx <= 1)%Q ∧
  (0 <= wallet_age_risk now_utc norm_tx <= 1)%Q ∧
  (0 <= modifier (wallet_age_risk now_utc norm_tx) (hvld_risk norm_tx) lp_risk
          (wash_trading_risk norm_tx) <= 50)%Q.
Proof.
  intros [Hlp0 Hlp1].
  assert (0 <= wallet_age_risk now_utc norm_tx <= 1)%Q as [Hage0 Hage1].
  { split.
    - apply Qle_trans with (wallet_age_risk_base now_utc norm_tx);
        [|apply wallet_age_risk_ge_base].
      apply Q.min_glb; [done|apply fraction_of_nonneg].
    - unfold wallet_age_risk. destruct (fresh_wallet_surge now_utc norm_tx).
      + apply Q.le_min_l.
      + apply wallet_age_risk_base_le_1. }
  assert (0 <= hvld_risk norm_tx <= 1)%Q as [Hh0 Hh1].
  { unfold hvld_risk. by destruct (high_volume_low_diversity norm_tx). }
  assert (0 <= wash_trading_risk norm_tx <= 1)%Q as [Hw0 Hw1].
  { unfold wash_trading_risk. by destruct (wash_trading_detected norm_tx). }
  split; [apply sequential_risk_of_range|]. split; [done|].
  unfold modifier. split.
  - apply Qle_trans with (0 * 10 + 0 * 20 + 0 * 10 + 0 * 10)%Q; [done|].
    repeat apply Qplus_le_compat; by apply Qmult_le_compat_r.
  - apply Qle_trans with (1 * 10 + 1 * 20 + 1 * 10 + 1 * 10)%Q; [|done].
    repeat apply Qplus_le_compat; by apply Qmult_le_compat_r.
Qed.


Lemma modifier_at_most_50_witness :
  (0 <= sequential_risk (sort_by_timestamp wash_trades) <= 1)%Q ∧
  (0 <= wallet_age_risk (hours 100) (sort_by_timestamp wash_trades) <= 1)%Q ∧
  (0 <= modifier (wallet_age_risk (hours 100) (sort_by_timestamp wash_trades))
          (hvld_risk (sort_by_timestamp wash_trades)) 0.5
          (wash_trading_risk (sort_by_timestamp wash_trades)) <= 50)%Q.
Proof.
  apply (modifier_at_most_50 (hours 100) (sort_by_timestamp wash_trades) 0.5%Q).
  split; by vm_compute.
Defined.


(** X11. The mint authority and the texts of the helpers do not enter the
    score: two calls that read the same clock and meet the same freeze
    authority, top-holder share and liquidity risk give the same score. *)
Theorem score_ignores_mint_authority w1 w2 transactions token1 token2 :
  utcnow w1 = utcnow w2 →
  freeze_present (token_facts w1 token1) = freeze_present (token_facts w2 token2) →
  top_10_share (token_facts w1 token1) = top_10_share (token_facts w2 token2) →
  lp_risk (token_facts w1 token1) = lp_risk (token_facts w2 token2) →
  manipulation_score (analyze_wallet_clustering w1 transactions token1)
  = manipulation_score (analyze_wallet_clustering w2 transactions token2).
Proof. intros. by apply analyze_score_facts. Qed.

Lemma score_ignores_mint_authority_witness :
  manipulation_score
    (analyze_wallet_clustering (quiet_world (hours 100)) spread_trades (Some "mint"%string))
  = manipulation_score
      (analyze_wallet_clustering (minting_world (hours 100)) spread_trades
         (Some "mint"%string)).
Proof.
  apply (score_ignores_mint_authority (quiet_world (hours 100)) (minting_world (hours 100))
           spread_trades (Some "mint"%string) (Some "mint"%string)); reflexivity.
Defined.


Lemma authorities_down lib rpc token_address e :
  getAccountInfo rpc token_address = Raises e →
  simulate_token_authorities_rpc lib rpc token_address
  = Returns (false, false, [AuthRpcFailed e]).
Proof. intros H. unfold simulate_token_authorities_rpc, _solana_rpc_call. by rewrite H. Qed.

Lemma top_holders_down lib rpc token_address e :
  getTokenSupply rpc token_address = Raises e →
  get_top_holders_onchain_rpc lib rpc token_address
  = Returns (Finite 0, [SupplyRpcError e]).
Proof. intros H. unfold get_top_holders_onchain_rpc, _solana_rpc_call. by rewrite H. Qed.

Lemma lp_stability_down cfg rpc token_address :
  (∀ a, ∃ e, getTokenLargestAccounts rpc a = Raises e) →
  ∃ r, simulate_lp_stability_rpc cfg rpc token_address
       = Returns (if falsy (LP_MINT_ADDRESS cfg) then 0 else 0.5, [r])%Q.
Proof.
  intros Hfails. unfold simulate_lp_stability_rpc, _solana_rpc_call.
  destruct (falsy (LP_MINT_ADDRESS cfg)); [by eexists|].
  destruct (Hfails (default ""%string (LP_MINT_ADDRESS cfg))) as [e ->]. by eexists.
Qed.

Lemma engine_endpoint_down_helper lib cfg rpc now_utc transactions addr :
  endpoint_fails rpc →
  ∃ a,
    analyze_wallet_clustering_rpc lib cfg rpc now_utc transactions (Some addr) = Returns a ∧
    returned_freeze a = false ∧ returned_mint a = false ∧
    returned_share a = Finite 0.
Proof.
  intros (Hinfo & Hsupply & Hlargest & _).
  destruct (Hinfo addr) as [e1 He1]. destruct (Hsupply addr) as [e2 He2].
  destruct (lp_stability_down cfg rpc addr Hlargest) as [r Hlp].
  unfold analyze_wallet_clustering_rpc.
  rewrite (authorities_down _ _ _ _ He1), (top_holders_down _ _ _ _ He2), Hlp. simpl.
  eexists. split; [done|]. unfold returned;
    cbn [returned_score returned_reasons returned_freeze returned_mint returned_share].
  set (w := world_of _ _ _ _).
  by destruct (analyze_facts w transactions (Some addr)) as (-> & -> & _).
Qed.

(** X12. When the endpoint fails, the engine still returns: it reports no
    authority and a share of 0, and says so in its reasons.  Without a
    configured LP mint the score is the one of a call without token
    address; with one it is at least 85. *)
Theorem engine_endpoint_down lib cfg rpc now_utc transactions addr :
  endpoint_fails rpc →
  ∃ a a0 e1 e2,
    analyze_wallet_clustering_rpc lib cfg rpc now_utc transactions (Some addr) = Returns a ∧
    analyze_wallet_clustering_rpc lib cfg rpc now_utc transactions None = Returns a0 ∧
    returned_freeze a = false ∧ returned_mint a = false ∧
    returned_share a = Finite 0 ∧
    HelperReason (authority_reason_text (AuthRpcFailed e1)) ∈ returned_reasons a ∧
    HelperReason (holder_reason_text lib (SupplyRpcError e2)) ∈ returned_reasons a ∧
    (if falsy (LP_MINT_ADDRESS cfg)
     then returned_score a = returned_score a0
     else (85 <= returned_score a)%Q).
Proof.
  intros (Hinfo & Hsupply & Hlargest & _).
  destruct (Hinfo addr) as [e1 He1]. destruct (Hsupply addr) as [e2 He2].
  destruct (lp_stability_down cfg rpc addr Hlargest) as [r Hlp].
  unfold analyze_wallet_clustering_rpc.
  rewrite (authorities_down _ _ _ _ He1), (top_holders_down _ _ _ _ He2), Hlp. simpl.
  eexists _, _, e1, e2. split; [done|]. split; [done|]. unfold returned;
    cbn [returned_score returned_reasons returned_freeze returned_mint returned_share].
  set (w := world_of _ _ _ _).
  destruct (analyze_facts w transactions (Some addr))
    as (-> & -> & _ & _ & Hfloor & _).
  split; [done|]. split; [done|]. split; [done|].
  destruct (reasons_cases w transactions (Some addr)) as (Hreturned & _).
  split; [apply Hreturned; simpl; rewrite !elem_of_cons; by left|].
  split; [apply Hreturned; simpl; rewrite !elem_of_cons; by right; left|].
  destruct (falsy (LP_MINT_ADDRESS cfg)).
  - by apply analyze_score_facts.
  - apply Hfloor. by left.
Qed.

Lemma engine_endpoint_down_witness :
  ∃ a a0 e1 e2,
    analyze_wallet_clustering_rpc sample_lib sample_cfg rpc_down (hours 100) spread_trades
      (Some "mint"%string) = Returns a ∧
    analyze_wallet_clustering_rpc sample_lib sample_cfg rpc_down (hours 100) spread_trades
      None = Returns a0 ∧
    returned_freeze a = false ∧ returned_mint a = false ∧
    returned_share a = Finite 0 ∧
    HelperReason (authority_reason_text (AuthRpcFailed e1)) ∈ returned_reasons a ∧
    HelperReason (holder_reason_text sample_lib (SupplyRpcError e2)) ∈ returned_reasons a ∧
    (if falsy (LP_MINT_ADDRESS sample_cfg)
     then returned_score a = returned_score a0
     else (85 <= returned_score a)%Q).
Proof.
  apply (engine_endpoint_down sample_lib sample_cfg rpc_down (hours 100) spread_trades
           "mint").
  repeat split; intros; exists connect_error; reflexivity.
Defined.

Lemma null_result_of_call {R} method (resp : Outcome (Envelope R)) :
  _solana_rpc_call method resp = Returns None ↔ null_result resp.
Proof.
  unfold null_result, _solana_rpc_call. split.
  - destruct resp as [d|e]; [|done]. destruct (rpc_error d) eqn:Eerr; [done|].
    intros [= H]. by exists d.
  - intros (d & -> & -> & ->). done.
Qed.

(** What [simulate_token_authorities] and [simulate_lp_stability] raise. *)
Lemma authorities_raises lib rpc addr e :
  simulate_token_authorities_rpc lib rpc addr = Raises e →
  e = none_has_no_get ∧ null_result (getAccountInfo rpc addr).
Proof.
  unfold simulate_token_authorities_rpc.
  destruct (_solana_rpc_call _ (getAccountInfo rpc addr))
    as [[result|]|?] eqn:Ecall; [| |done].
  - destruct (value result ≫= data) as [[|data_b64 ?]|]; [done| |done].
    destruct (b64decode lib data_b64) as [raw|?]; [|done].
    by destruct (parse_mint raw) as [[? ?]|].
  - intros [= <-]. split; [done|]. by eapply null_result_of_call.
Qed.

Lemma lp_stability_raises cfg rpc addr e :
  simulate_lp_stability_rpc cfg rpc addr = Raises e →
  e = none_has_no_get ∧
  ∃ lp_mint, LP_MINT_ADDRESS cfg = Some lp_mint
             ∧ null_result (getTokenLargestAccounts rpc lp_mint).
Proof.
  unfold simulate_lp_stability_rpc.
  destruct (falsy (LP_MINT_ADDRESS cfg)) eqn:Efalsy; [done|].
  apply falsy_false in Efalsy as (lp_mint & Hmint & _). rewrite Hmint. simpl.
  destruct (_solana_rpc_call _ (getTokenLargestAccounts rpc lp_mint))
    as [[result|]|e'] eqn:Ecall; [| |done].
  - destruct (default [] (value result)); [done|].
    by destruct (finds_locked cfg _).
  - intros [= <-]. split; [done|]. exists lp_mint. split; [done|].
    by eapply null_result_of_call.
Qed.

(** What [get_top_holders_onchain] raises, and that it does. *)
Lemma top_holders_raises lib rpc addr e :
  get_top_holders_onchain_rpc lib rpc addr = Raises e →
  (e = none_has_no_get ∧ null_result (getTokenLargestAccounts rpc addr))
  ∨ (exn_class e = OverflowError ∧
     ∃ total_amount accounts amt,
       supply_and_accounts lib rpc addr total_amount accounts ∧
       amt ∈ counted_amounts lib (take 10 accounts) ∧
       percentage amt total_amount = Raises e).
Proof.
  intros Etop.
  destruct (top_holders_cases lib rpc addr)
    as [(r0 & E & _)|[E|(total_amount & accounts & Hsa & E)]];
    cbv zeta in E; rewrite ?Etop in E; [done| |].
  - injection E as ->. left. split; [done|].
    revert Etop. unfold get_top_holders_onchain_rpc.
    destruct (_solana_rpc_call "getTokenSupply" _) as [supply_res|?]; [|done].
    destruct (total_supply lib supply_res) as [total_amount|?]; [|done].
    destruct (total_amount <=? 0) eqn:Epos; [done|]. apply Z.leb_gt in Epos.
    destruct (_solana_rpc_call _ (getTokenLargestAccounts rpc addr))
      as [[result|]|?] eqn:Ecall; [| |done].
    + destruct (default [] (value result)) eqn:Eacc; [done|].
      intros H. exfalso.
      pose proof (collect_holders_spec lib total_amount (take 10 (a :: l)) []) as Hspec.
      destruct (all_returned _) as [percentages|e'] eqn:Eall.
      * destruct Hspec as (new & Hnew & _). rewrite Hnew in H. simpl in H.
        by destruct new.
      * rewrite Hspec in H. simpl in H. injection H as ->.
        apply all_returned_raises, list_elem_of_fmap in Eall as (amt & Heq & _).
        symmetry in Heq. by apply percentage_raises in Heq.
    + intros _. by eapply null_result_of_call.
  - pose proof (collect_holders_spec lib total_amount (take 10 accounts) []) as Hspec.
    destruct (all_returned _) as [percentages|e'] eqn:Eall.
    + destruct Hspec as (new & Hnew & _). rewrite Hnew in E. simpl in E.
      by destruct E as [_ E].
    + rewrite Hspec in E. injection E as ->. right.
      apply all_returned_raises, list_elem_of_fmap in Eall as (amt & Heq & Hin).
      assert (0 < total_amount) as Hpos by (by destruct Hsa as (? & ? & _ & _ & ? & _)).
      split; [by apply (percentage_raises amt total_amount)|].
      by exists total_amount, accounts, amt.
Qed.

Lemma top_holders_overflow lib rpc addr total_amount accounts amt e :
  supply_and_accounts lib rpc addr total_amount accounts →
  amt ∈ counted_amounts lib (take 10 accounts) →
  percentage amt total_amount = Raises e →
  ∃ e', get_top_holders_onchain_rpc lib rpc addr = Raises e'.
Proof.
  intros Hsa Hin Hraise.
  assert (0 < total_amount) as Hpos by (by destruct Hsa as (? & ? & _ & _ & ? & _)).
  pose proof (collect_holders_spec lib total_amount (take 10 accounts) []) as Hspec.
  unfold get_top_holders_onchain_rpc.
  destruct Hsa as (supply_res & largest_res & -> & -> & _ & -> & Hacc & Hne).
  rewrite Hacc. apply Z.leb_gt in Hpos. rewrite Hpos.
  destruct accounts as [|acc0 rest]; [done|].
  destruct (all_returned _) as [percentages|e'] eqn:Eall.
  - apply all_returned_values in Eall.
    assert (Raises e ∈ Returns <$> percentages) as (? & ? & _)%list_elem_of_fmap; [|done].
    rewrite <- Eall, <- Hraise. by apply (list_elem_of_fmap_2 (λ amt, percentage amt total_amount)).
  - rewrite Hspec. by exists e'.
Qed.

(** X13. Two exceptions leave the engine, and no other: the [AttributeError]
    of [.get] on a null result of getAccountInfo or getTokenLargestAccounts,
    and the [OverflowError] of the division of line 248 for a counted
    balance of one of the first ten accounts.  A null result of
    getAccountInfo always raises, and so does such a balance. *)
Theorem engine_raises_on_null_result lib cfg rpc now_utc transactions token_address :
  (∀ e, analyze_wallet_clustering_rpc lib cfg rpc now_utc transactions token_address
        = Raises e →
     ∃ addr, token_address = Some addr ∧
       ((e = none_has_no_get ∧
         (null_result (getAccountInfo rpc addr)
          ∨ null_result (getTokenLargestAccounts rpc addr)
          ∨ ∃ lp_mint, LP_MINT_ADDRESS cfg = Some lp_mint
                       ∧ null_result (getTokenLargestAccounts rpc lp_mint)))
        ∨ (exn_class e = OverflowError ∧
           ∃ total_amount accounts amt,
             supply_and_accounts lib rpc addr total_amount accounts ∧
             amt ∈ counted_amounts lib (take 10 accounts) ∧
             percentage amt total_amount = Raises e))) ∧
  (∀ addr, token_address = Some addr → null_result (getAccountInfo rpc addr) →
     analyze_wallet_clustering_rpc lib cfg rpc now_utc transactions token_address
     = Raises none_has_no_get) ∧
  (∀ addr total_amount accounts amt e,
     token_address = Some addr →
     supply_and_accounts lib rpc addr total_amount accounts →
     amt ∈ counted_amounts lib (take 10 accounts) →
     percentage amt total_amount = Raises e →
     ∃ e', analyze_wallet_clustering_rpc lib cfg rpc now_utc transactions token_address
           = Raises e').
Proof.
  split; [|split].
  - intros e. unfold analyze_wallet_clustering_rpc.
    destruct token_address as [addr|]; [|done].
    destruct (simulate_token_authorities_rpc lib rpc addr) as [[[freeze mint] ar]|e1]
      eqn:Eauth; simpl.
    + destruct (get_top_holders_onchain_rpc lib rpc addr) as [[top hr]|e2] eqn:Etop; simpl.
      * destruct (simulate_lp_stability_rpc cfg rpc addr) as [[lp lr]|e3] eqn:Elp;
          simpl; [done|].
        intros [= <-]. apply lp_stability_raises in Elp as [-> Hnull].
        exists addr. split; [done|]. left. split; [done|]. by right; right.
      * intros [= <-]. exists addr. split; [done|].
        apply top_holders_raises in Etop as [[-> Hnull]|Hover].
        -- left. split; [done|]. by right; left.
        -- by right.
    + intros [= <-]. apply authorities_raises in Eauth as [-> Hnull].
      exists addr. split; [done|]. left. split; [done|]. by left.
  - intros addr -> (d & Hd & Herr & Hres). unfold analyze_wallet_clustering_rpc.
    unfold simulate_token_authorities_rpc, _solana_rpc_call. by rewrite Hd, Herr, Hres.
  - intros addr total_amount accounts amt e -> Hsa Hin Hraise.
    unfold analyze_wallet_clustering_rpc.
    destruct (simulate_token_authorities_rpc lib rpc addr) as [[[freeze mint] ar]|e1];
      simpl; [|by eexists].
    destruct (top_holders_overflow _ _ _ _ _ _ _ Hsa Hin Hraise) as [e' ->]. simpl.
    by eexists.
Qed.

(** X14. With a token address the engine returns at least two reasons, one of
    the authority check and one of the liquidity check among them, and
    never the no-risk sentence. *)
Theorem engine_reasons_with_token lib cfg rpc now_utc transactions addr a :
  analyze_wallet_clustering_rpc lib cfg rpc now_utc transactions (Some addr) = Returns a →
  (2 ≤ length (returned_reasons a))%nat ∧
  (NoRiskDetected ∉ returned_reasons a) ∧
  (∃ r, HelperReason (authority_reason_text r) ∈ returned_reasons a) ∧
  (∃ r, HelperReason (lp_reason_text r) ∈ returned_reasons a).
Proof.
  unfold analyze_wallet_clustering_rpc.
  destruct (simulate_token_authorities_rpc lib rpc addr) as [[[freeze mint] ar]|e1]
    eqn:Eauth; simpl; [|done].
  destruct (get_top_holders_onchain_rpc lib rpc addr) as [[top hr]|e2]; simpl; [|done].
  destruct (simulate_lp_stability_rpc cfg rpc addr) as [[lp lr]|e3] eqn:Elp;
    simpl; [|done].
  intros [= <-]. unfold returned;
    cbn [returned_score returned_reasons returned_freeze returned_mint returned_share].
  set (w := world_of _ _ _ _).
  assert (∃ r0 ar', ar = r0 :: ar') as (r0 & ar' & ->).
  { destruct ar as [|r0 ar']; [|by eauto]. exfalso. revert Eauth.
    unfold simulate_token_authorities_rpc.
    destruct (_solana_rpc_call _ _) as [[result|]|?]; [| |done]; [|done].
    destruct (value result ≫= data) as [[|data_b64 ?]|]; [done| |done].
    destruct (b64decode lib data_b64) as [raw|?]; [|done].
    destruct (parse_mint raw) as [[mint_present freeze_present]|]; [|done].
    intros [= _ _ H]. by destruct (authority_reasons_spec freeze_present mint_present). }
  assert (∃ r1, lr = [r1]) as (r1 & ->).
  { revert Elp. unfold simulate_lp_stability_rpc.
    destruct (falsy _); [intros [= _ <-]; by eexists|].
    destruct (_solana_rpc_call _ _) as [[result|]|?]; [| |intros [= _ <-]; by eexists];
      [|done].
    destruct (default [] (value result)); [intros [= _ <-]; by eexists|].
    destruct (finds_locked cfg _); intros [= _ <-]; by eexists. }
  set (facts_rs := facts_reasons (token_facts w (Some addr))).
  assert (HelperReason (authority_reason_text r0) ∈ facts_rs
          ∧ HelperReason (lp_reason_text r1) ∈ facts_rs
          ∧ (2 ≤ length facts_rs)%nat) as (Hauth & Hlp & Hlen).
  { unfold facts_rs. simpl. rewrite !fmap_app, !fmap_cons. split; [by left|]. split.
    - right. rewrite !elem_of_app. right; right. by left.
    - simpl. rewrite !length_app. simpl. lia. }
  destruct (reasons_cases w transactions (Some addr))
    as (Hincl & Hlen' & _ & Hno_risk & _).
  split; [|split; [|split]].
  - etrans; [exact Hlen|exact Hlen'].
  - intros (_ & _ & H)%Hno_risk. fold facts_rs in H. rewrite H in Hlen.
    simpl in Hlen. lia.
  - exists r0. by apply Hincl.
  - exists r1. by apply Hincl.
Qed.

Lemma engine_reasons_with_token_witness :
  ∃ a,
    analyze_wallet_clustering_rpc sample_lib sample_cfg sample_rpc (hours 100)
      spread_trades (Some "mint"%string) = Returns a ∧
    (2 ≤ length (returned_reasons a))%nat ∧
    (NoRiskDetected ∉ returned_reasons a) ∧
    (∃ r, HelperReason (authority_reason_text r) ∈ returned_reasons a) ∧
    (∃ r, HelperReason (lp_reason_text r) ∈ returned_reasons a).
Proof.
  eexists. split; [vm_compute; reflexivity|].
  apply (engine_reasons_with_token sample_lib sample_cfg sample_rpc (hours 100)
           spread_trades "mint").
  vm_compute. reflexivity.
Defined.

(** * [collector.py] *)

Lemma bind_raises {A B} (m : Outcome A) (k : A → Outcome B) e :
  m ≫= k = Raises e → m = Raises e ∨ ∃ a, m = Returns a ∧ k a = Raises e.
Proof.
  destruct m as [a|e']; simpl; intros H; [right; by exists a|left; by injection H as ->].
Qed.

Lemma obj_get_raises v key e : obj_get v key = Raises e → e = has_no_get v.
Proof. by destruct v; simpl; intros [= <-]. Qed.

Lemma obj_get_or_raises v key d e : obj_get_or v key d = Raises e → e = has_no_get v.
Proof. by destruct v; simpl; intros [= <-]. Qed.

Lemma float_of_raises lib v e :
  collector.float_of lib v = Raises e →
  collector.caught e = true ∨ exn_class e = OverflowError.
Proof.
  destruct v; simpl; try (intros [= <-]; by left); try done.
  - unfold float_of_int. destruct (round64 (inject_Z n)); intros [= <-]; by right.
  - destruct (parse_float lib s); [done|]. intros [= <-]. by left.
Qed.

Lemma float_or_zero_raises lib d key e :
  collector.float_or_zero lib d key = Raises e →
  e = has_no_get d ∨ collector.caught e = true ∨ exn_class e = OverflowError.
Proof.
  unfold collector.float_or_zero. intros [H|(found & _ & H)]%bind_raises.
  - left. by apply obj_get_raises in H.
  - right. destruct found as [v|]; [|done]. destruct (truthy v); [|done].
    by apply float_of_raises in H.
Qed.

(** A divisor that passed a guard [<= 0] is not zero. *)
Lemma fdiv_guarded x y : fle y (Finite 0) = false → ∃ z, fdiv x y = Returns z.
Proof.
  intros Hguard. unfold fdiv.
  destruct (is_zero y) eqn:Ezero; [|by eexists].
  destruct y as [q| | |]; try done. simpl in *.
  apply Qeq_bool_iff in Ezero. apply Qle_bool_false in Hguard.
  rewrite Ezero in Hguard. by apply Qlt_irrefl in Hguard.
Qed.

(** The body of the [try] raises an [AttributeError] or an [OverflowError],
    or one of the two classes that line 109 catches. *)
Lemma analyze_pair_body_raises lib th p e :
  collector.analyze_pair_body lib th p = Raises e →
  exn_class e = AttributeError ∨ exn_class e = OverflowError
  ∨ collector.caught e = true.
Proof.
  assert (∀ v, exn_class (has_no_get v) = AttributeError) as Hget by done.
  assert (∀ lib d key e,
            collector.float_or_zero lib d key = Raises e →
            exn_class e = AttributeError ∨ exn_class e = OverflowError
            ∨ collector.caught e = true) as Hfloat.
  { intros ? d ? ? [->|[?|?]]%float_or_zero_raises; [left; apply Hget|by right; right|].
    by right; left. }
  unfold collector.analyze_pair_body.
  intros [H|(volume & _ & H)]%bind_raises;
    [apply obj_get_or_raises in H as ->; by left|].
  apply bind_raises in H as [H|(liquidity & _ & H)];
    [apply obj_get_or_raises in H as ->; by left|].
  apply bind_raises in H as [H|(vol_h1 & _ & H)]; [by eapply Hfloat|].
  apply bind_raises in H as [H|(vol_h2 & _ & H)]; [by eapply Hfloat|].
  destruct (fle vol_h2 (Finite 0)) eqn:Eh2; [done|].
  apply bind_raises in H as [H|(liquidity_usd & _ & H)]; [by eapply Hfloat|].
  destruct (fle liquidity_usd (Finite 0)) eqn:Eliq; [done|].
  destruct (fdiv_guarded (fsub vol_h1 vol_h2) vol_h2 Eh2) as [increase Hinc].
  rewrite Hinc in H. simpl in H.
  destruct (fle (fmul increase (Finite 100)) _); [done|].
  destruct (fdiv_guarded vol_h1 liquidity_usd Eliq) as [ratio Hratio].
  rewrite Hratio in H. simpl in H.
  repeat (apply bind_raises in H as [H|(? & _ & H)];
          [apply obj_get_or_raises in H as ->; by left|]).
  done.
Qed.

(** X15. [analyze_pair] does not keep every malformed pair from the caller:
    the [AttributeError] of [.get] on a value that is no dict and the
    [OverflowError] of [float] on an [int] beyond the floats leave it, and
    nothing else does (the guards keep the divisors from zero).  A pair
    that is no dict raises, and so does a pair whose "volume" is there and
    is no dict, a null for instance. *)
Theorem analyze_pair_raises lib th p :
  (∀ e, collector.analyze_pair lib th p = Raises e →
        exn_class e = AttributeError ∨ exn_class e = OverflowError) ∧
  ((∀ fields, p ≠ JObj fields) →
   collector.analyze_pair lib th p = Raises (has_no_get p)) ∧
  (∀ fields volume,
     p = JObj fields → obj_entry "volume" fields = Some volume →
     (∀ entries, volume ≠ JObj entries) →
     collector.analyze_pair lib th p = Raises (has_no_get volume)).
Proof.
  split; [|split].
  - intros e. unfold collector.analyze_pair.
    destruct (collector.analyze_pair_body lib th p) as [r|e'] eqn:Ebody; [done|].
    destruct (collector.caught e') eqn:Ecaught; [done|]. intros [= <-].
    apply analyze_pair_body_raises in Ebody as [?|[?|?]]; [by left|by right|congruence].
  - intros Hp. unfold collector.analyze_pair, collector.analyze_pair_body.
    destruct p; try done. by destruct (Hp fields).
  - intros fields volume -> Hvolume Hno.
    unfold collector.analyze_pair, collector.analyze_pair_body. simpl.
    rewrite Hvolume. simpl. unfold collector.float_or_zero.
    destruct volume; try done. by destruct (Hno fields0).
Qed.

(** The label of a report says whether the reported ratio is above the
    threshold. *)
Lemma analyze_pair_label lib th p a :
  collector.analyze_pair lib th p = Returns (Some a) →
  (collector.wash_trading_risk a = "High Wash-Trading Risk"%string
   ↔ flt (collector.WASH_TRADING_RATIO_THRESHOLD th)
         (collector.volume_liquidity_ratio a) = true).
Proof.
  unfold collector.analyze_pair.
  destruct (collector.analyze_pair_body lib th p) as [r|e] eqn:Ebody;
    [|by destruct (collector.caught e)].
  intros [= ->]. revert Ebody. unfold collector.analyze_pair_body.
  repeat (match goal with
          | |- context [mbind _ ?m] => destruct m; simpl; [|done]
          | |- context [fle ?x ?y] => destruct (fle x y); [done|]
          end).
  intros [= <-]. simpl.
  destruct (flt _ _); [done|]. split; [done|done].
Qed.

(** A pair whose previous-hour volume is no number passes the guards and is
    reported; a ratio of 3.0 to 0.3 is 10.0 as a float and is not above a
    threshold of 10. *)
Lemma analyze_pair_samples :
  (∃ a, collector.analyze_pair sample_lib sample_thresholds nan_pair = Returns (Some a)
        ∧ collector.volume_h2 a = NaN)
  ∧ (∃ a, collector.analyze_pair sample_lib sample_thresholds tenfold_pair
          = Returns (Some a)
          ∧ collector.volume_liquidity_ratio a = Finite 10
          ∧ collector.wash_trading_risk a = "Normal"%string)
  ∧ collector.analyze_pair sample_lib sample_thresholds null_volume_pair
    = Raises none_has_no_get.
Proof.
  split; [|split].
  - eexists. split; [vm_compute; reflexivity|reflexivity].
  - eexists. split; [vm_compute; reflexivity|]. split; reflexivity.
  - vm_compute. reflexivity.
Qed.

(** * [main.py] *)

(** ** The trust score *)

Lemma Qmax_0_sub (x c : Q) : (0 <= c)%Q → (Qmax 0 (Qmax 0 x - c) == Qmax 0 (x - c))%Q.
Proof.
  intros Hc. destruct (Qlt_le_dec x 0) as [Hneg|Hpos].
  - rewrite (Q.max_l 0 x) by (by apply Qlt_le_weak).
    rewrite !Q.max_l; [done| |].
    + apply Qle_trans with (x + - 0)%Q; [|rewrite Qplus_0_r; by apply Qlt_le_weak].
      apply Qplus_le_r. by apply Qopp_le_compat.
    + apply Qle_trans with (0 - 0)%Q; [|done].
      apply Qplus_le_r. by apply Qopp_le_compat.
  - by rewrite (Q.max_r 0 x).
Qed.

Lemma trust_step_closed (b : bool) (c x y : Q) :
  (0 <= c)%Q → (x == Qmax 0 y)%Q →
  ((if b then Qmax 0 (x - c) else x) == Qmax 0 (y - (if b then c else 0)))%Q.
Proof.
  intros Hc Hx. destruct b.
  - rewrite Hx. by apply Qmax_0_sub.
  - rewrite Hx. apply Q.max_compat; [done|]. ring.
Qed.

Lemma derive_trust_closed manipulation_score freeze_present mint_present top_10_share :
  (main.derive_trust manipulation_score freeze_present mint_present top_10_share
   == Qmax 0 (100 - manipulation_score
              - trust_penalty freeze_present mint_present top_10_share))%Q.
Proof.
  unfold main.derive_trust, trust_penalty. cbv zeta.
  rewrite (trust_step_closed (Qlt_bool 30 top_10_share) 10 _
             (100 - manipulation_score - (if freeze_present then 20 else 0)
              - (if mint_present then 20 else 0))%Q); [|done|].
  - apply Q.max_compat; [done|]. ring.
  - rewrite (trust_step_closed mint_present 20 _
               (100 - manipulation_score - (if freeze_present then 20 else 0))%Q);
      [done|done|].
    by rewrite (trust_step_closed freeze_present 20 _ (100 - manipulation_score)%Q).
Qed.

Lemma trust_penalty_nonneg freeze_present mint_present top_10_share :
  (0 <= trust_penalty freeze_present mint_present top_10_share)%Q ∧
  (freeze_present = true → 20 <= trust_penalty freeze_present mint_present top_10_share)%Q.
Proof.
  unfold trust_penalty.
  destruct freeze_present, mint_present, (Qlt_bool 30 top_10_share); by split.
Qed.

Lemma derive_trust_range manipulation_score freeze_present mint_present
    top_10_share :
  (0 <= manipulation_score <= 100)%Q →
  (0 <= main.derive_trust manipulation_score freeze_present mint_present top_10_share
   <= 100)%Q.
Proof.
  intros [H0 H100]. rewrite derive_trust_closed.
  destruct (trust_penalty_nonneg freeze_present mint_present top_10_share) as [Hpen _].
  split; [apply Q.le_max_l|]. apply Q.max_lub; [done|].
  apply Qle_trans with (100 + - 0 + - 0)%Q; [|done].
  apply Qplus_le_compat; [|by apply Qopp_le_compat].
  apply Qplus_le_r. by apply Qopp_le_compat.
Qed.

(** X17. The trust score is 100 minus the manipulation score minus 20 for each
    live authority and 10 for a top-holder share above 30, and never below
    0: the nested [max] of lines 178-186 add up.  It is at most 100 for a
    score that is not negative, and trust and score together are at most
    100 for a score of at most 100. *)
Theorem trust_score_closed_form manipulation_score freeze_present mint_present top_10_share :
  let trust_score :=
    main.derive_trust manipulation_score freeze_present mint_present top_10_share in
  (trust_score == Qmax 0 (100 - manipulation_score
                          - trust_penalty freeze_present mint_present top_10_share))%Q ∧
  (0 <= trust_score)%Q ∧
  ((0 <= manipulation_score)%Q → (trust_score <= 100)%Q) ∧
  ((manipulation_score <= 100)%Q → (trust_score + manipulation_score <= 100)%Q).
Proof.
  cbv zeta.
  pose proof (derive_trust_closed manipulation_score freeze_present mint_present
                top_10_share) as Hclosed.
  destruct (trust_penalty_nonneg freeze_present mint_present top_10_share) as [Hpen _].
  set (penalty := trust_penalty _ _ _) in *.
  split; [done|]. rewrite Hclosed. split; [apply Q.le_max_l|]. split.
  - intros Hs. apply Q.max_lub; [done|].
    apply Qle_trans with (100 - 0 - 0)%Q; [|done].
    apply Qplus_le_compat; [|by apply Qopp_le_compat].
    apply Qplus_le_r. by apply Qopp_le_compat.
  - intros Hs. destruct (Q.max_spec 0 (100 - manipulation_score - penalty))
      as [[_ ->]|[_ ->]].
    + apply Qle_trans with (100 - manipulation_score - 0 + manipulation_score)%Q;
        [|by ring_simplify].
      apply Qplus_le_l. apply Qplus_le_r. by apply Qopp_le_compat.
    + by rewrite Qplus_0_l.
Qed.

(** ** [risk_analysis] *)

Lemma in_0_100_iff x : main.in_0_100 x = true ↔ (0 <= x <= 100)%Q.
Proof. unfold main.in_0_100. by rewrite andb_true_iff, !Qle_bool_iff. Qed.


Lemma engine_result_facts lib cfg rpc now_utc transactions token_address a :
  analyze_wallet_clustering_rpc lib cfg rpc now_utc transactions token_address = Returns a →
  (0 <= returned_score a <= 100)%Q ∧
  (returned_freeze a = true → (85 <= returned_score a)%Q) ∧
  (transactions = [] → (85 <= returned_score a)%Q).
Proof.
  assert (∀ w share,
            let a := returned (analyze_wallet_clustering w transactions token_address)
                              share in
            (0 <= returned_score a <= 100)%Q ∧
            (returned_freeze a = true → (85 <= returned_score a)%Q) ∧
            (transactions = [] → (85 <= returned_score a)%Q)) as Hfacts.
  { intros w share. cbv zeta. unfold returned.
    cbn [returned_score returned_reasons returned_freeze returned_mint returned_share].
    destruct (analyze_facts w transactions token_address)
      as (Hfreeze & _ & _ & Hrange & Hfloor & Hempty).
    split; [done|]. split; [|done]. rewrite Hfreeze. intros H. apply Hfloor. by right. }
  unfold analyze_wallet_clustering_rpc. destruct token_address as [addr|].
  - destruct (simulate_token_authorities_rpc lib rpc addr) as [[[freeze mint] ar]|?];
      simpl; [|done].
    destruct (get_top_holders_onchain_rpc lib rpc addr) as [[top hr]|?]; simpl; [|done].
    destruct (simulate_lp_stability_rpc cfg rpc addr) as [[lp lr]|?]; simpl; [|done].
    intros [= <-]. apply Hfacts.
  - intros [= <-]. apply Hfacts.
Qed.

Lemma nudged_range (score : Q) (high : bool) :
  (0 <= score <= 100)%Q →
  let nudged := if high then Qmin 100 (score + 10) else score in
  (0 <= nudged <= 100)%Q ∧ (score <= nudged)%Q.
Proof.
  intros [H0 H100]. cbv zeta. destruct high; [|by repeat split; try apply Qle_refl].
  assert (score <= score + 10)%Q as Hinc.
  { apply Qle_trans with (score + 0)%Q; [by rewrite Qplus_0_r; apply Qle_refl|].
    by apply Qplus_le_r. }
  split; [split|].
  - apply Q.min_glb; [done|]. by apply Qle_trans with score.
  - apply Q.le_min_l.
  - by apply Q.min_glb.
Qed.

(** ** The pairs of the token *)

Lemma not_in_set_returns token base_addr pair_addr skip :
  main.not_in_set token base_addr pair_addr = Returns skip →
  skip = negb (is_str token base_addr || is_str token pair_addr).
Proof. by destruct base_addr, pair_addr; simpl; intros [= <-]. Qed.

Lemma pair_risk_label a risk :
  main.pair_risk a = Returns risk →
  main.risk_wash_trading_risk risk = collector.wash_trading_risk a.
Proof.
  unfold main.pair_risk.
  destruct (collector.pair_address a); try done.
  by destruct (collector.base_token_address a); intros [= <-].
Qed.

(** What the loop of lines 158-169 has appended when it ends. *)
Lemma collect_pair_risks_spec s token pairs pair_risks collected :
  main.collect_pair_risks s token pairs pair_risks = Returns collected →
  (∀ risk, risk ∈ collected →
     risk ∈ pair_risks
     ∨ ∃ p a, p ∈ pairs
              ∧ collector.analyze_pair (main.lib s) (main.thresholds s) p
                = Returns (Some a)
              ∧ (is_str token (collector.base_token_address a) = true
                 ∨ is_str token (collector.pair_address a) = true)
              ∧ main.pair_risk a = Returns risk) ∧
  (∀ risk, risk ∈ pair_risks → risk ∈ collected) ∧
  (∀ p a, p ∈ pairs →
     collector.analyze_pair (main.lib s) (main.thresholds s) p = Returns (Some a) →
     is_str token (collector.base_token_address a) = true
     ∨ is_str token (collector.pair_address a) = true →
     ∃ risk, main.pair_risk a = Returns risk ∧ risk ∈ collected).
Proof.
  revert pair_risks. induction pairs as [|p rest IH]; intros pair_risks; simpl.
  { intros [= <-]. split; [by left|]. split; [done|]. by intros ? ? ?%elem_of_nil. }
  destruct (collector.analyze_pair (main.lib s) (main.thresholds s) p)
    as [[a|]|e] eqn:Ea; simpl; [| |done].
  - destruct (main.not_in_set token _ _) as [skip|e] eqn:Eskip; simpl; [|done].
    apply not_in_set_returns in Eskip. destruct skip.
    + intros (Hfrom & Hkeep & Hall)%IH. split; [|split; [done|]].
      * intros risk [?|(p' & a' & ? & ?)]%Hfrom; [by left|right].
        exists p', a'. split; [by right|done].
      * intros p' a' [->|Hin]%elem_of_cons Ha' Hmatch; [|by eapply Hall].
        rewrite Ea in Ha'. injection Ha' as <-. symmetry in Eskip.
        apply negb_true_iff, orb_false_iff in Eskip as [? ?].
        destruct Hmatch; congruence.
    + symmetry in Eskip. apply negb_false_iff, orb_true_iff in Eskip.
      destruct (main.pair_risk a) as [risk0|e] eqn:Erisk; simpl; [|done].
      intros (Hfrom & Hkeep & Hall)%IH. split; [|split].
      * intros risk [[?|Hs%list_elem_of_singleton]%elem_of_app|(p' & a' & ? & ?)]%Hfrom.
        -- by left.
        -- subst risk. right. exists p, a. split; [by left|done].
        -- right. exists p', a'. split; [by right|done].
      * intros risk Hin. apply Hkeep, elem_of_app. by left.
      * intros p' a' [->|Hin]%elem_of_cons Ha' Hmatch; [|by eapply Hall].
        rewrite Ea in Ha'. injection Ha' as <-. exists risk0. split; [done|].
        apply Hkeep, elem_of_app. right. by apply list_elem_of_singleton.
  - intros (Hfrom & Hkeep & Hall)%IH. split; [|split; [done|]].
    + intros risk [?|(p' & a' & ? & ?)]%Hfrom; [by left|right].
      exists p', a'. split; [by right|done].
    + intros p' a' [->|Hin]%elem_of_cons Ha' Hmatch; [congruence|by eapply Hall].
Qed.

Lemma dex_high_risk_iff s token pair_risks :
  main.matching_pairs s token = Returns pair_risks →
  main.dex_high_risk pair_risks = true ↔ high_risk_pair s token.
Proof.
  unfold main.matching_pairs. intros (Hfrom & _ & Hall)%collect_pair_risks_spec.
  unfold main.dex_high_risk, high_risk_pair. rewrite existsb_exists. split.
  - intros (risk & Hin & Hlabel). apply bool_decide_eq_true in Hlabel.
    apply list_elem_of_In, Hfrom in Hin as [?%elem_of_nil|(p & a & Hp & Ha & Hmatch & Hrisk)];
      [done|].
    exists p, a. split; [done|]. split; [done|]. split; [done|].
    apply (analyze_pair_label _ _ _ _ Ha). by rewrite <- (pair_risk_label _ _ Hrisk).
  - intros (p & a & Hp & Ha & Hmatch & Hratio).
    destruct (Hall p a Hp Ha Hmatch) as (risk & Hrisk & Hin).
    exists risk. split; [by apply list_elem_of_In|].
    apply bool_decide_eq_true. rewrite (pair_risk_label _ _ Hrisk).
    by apply (analyze_pair_label _ _ _ _ Ha).
Qed.

(** A listing that is missing or empty gives no pair. *)
Lemma matching_pairs_none s token :
  default [] (main.solana_pairs s) = [] → main.matching_pairs s token = Returns [].
Proof. unfold main.matching_pairs. by intros ->. Qed.

(** ** [risk_analysis] *)

(** What [risk_analysis] does, by the outcomes of its three calls. *)
Lemma risk_analysis_cases s token max_transactions :
  match fetch_top_recent_purchases (main.lib s) (main.rpc s) token max_transactions with
  | Raises e => main.risk_analysis s token max_transactions = Raises (main.bad_gateway e)
  | Returns transactions =>
      match analyze_wallet_clustering_rpc (main.lib s) (main.cfg s) (main.rpc s)
              (main.utcnow_engine s) transactions (Some token) with
      | Raises e => main.risk_analysis s token max_transactions = Raises e
      | Returns a =>
          match main.matching_pairs s token with
          | Raises e => main.risk_analysis s token max_transactions = Raises e
          | Returns pair_risks =>
              let high := main.dex_high_risk pair_risks in
              let score :=
                if high then Qmin 100 (returned_score a + 10) else returned_score a in
              let response :=
                {| main.token_address := token;
                   main.manipulation_score := score;
                   main.reasons :=
                     (main.EngineReason <$> returned_reasons a)
                     ++ (if high then [main.DexScreenerWashTrading] else []);
                   main.analyzed_transactions := length transactions;
                   main.timestamp_utc := main.utcnow_response s;
                   main.pair_risks := pair_risks;
                   main.freeze_authority_present := returned_freeze a;
                   main.mint_authority_present := returned_mint a;
                   main.trust_score :=
                     main.derive_trust score (returned_freeze a) (returned_mint a)
                       (in_the_test (returned_share a));
                   main.top_holders_share := returned_share a |} in
              main.risk_analysis s token max_transactions
              = if negb (bool_decide (token = ""%string))
                   && fle (Finite 0) (returned_share a)
                   && fle (returned_share a) (Finite 100)
                then Returns response
                else Raises (mkExn ValidationError "RiskAnalysisResponse")
          end
      end
  end.
Proof.
  unfold main.risk_analysis.
  destruct (fetch_top_recent_purchases _ _ _ _) as [transactions|e0]; [|done].
  destruct (analyze_wallet_clustering_rpc _ _ _ _ _ _) as [a|e] eqn:Eengine; [|done].
  destruct (engine_result_facts _ _ _ _ _ _ _ Eengine) as (Hrange & _).
  destruct a as [score rs freeze mint top]. simpl in *.
  destruct (main.matching_pairs s token) as [pair_risks|e]; simpl; [|done].
  set (high := main.dex_high_risk _).
  destruct (nudged_range score high Hrange) as [Hnudged _]. cbv zeta in Hnudged.
  set (nudged := if high then _ else score) in *.
  pose proof (derive_trust_range nudged freeze mint (in_the_test top) Hnudged) as Htrust.
  unfold main.valid_response. simpl.
  rewrite (proj2 (in_0_100_iff nudged) Hnudged), (proj2 (in_0_100_iff _) Htrust).
  rewrite !andb_true_r.
  assert ((if high then (main.EngineReason <$> rs) ++ [main.DexScreenerWashTrading]
           else main.EngineReason <$> rs)
          = (main.EngineReason <$> rs)
            ++ (if high then [main.DexScreenerWashTrading] else [])) as ->;
    [|done].
  destruct high; [done|by rewrite app_nil_r].
Qed.

(** X18. [risk_analysis] answers exactly when the token address is not empty,
    the fetch of the purchases, the engine and the analysis of the listed
    pairs all return, and the top-holder share lies between 0 and 100.
    When the fetch raises, the handler raises the [HTTPException] of lines
    133-136, which carries the text of the exception; every other
    exception is the one that left the engine or the analysis of the pairs,
    or the validation error of the response model.  The bounds on the
    manipulation score and on the trust score never fail. *)
Theorem risk_analysis_returns_iff s token max_transactions :
  let fetched :=
    fetch_top_recent_purchases (main.lib s) (main.rpc s) token max_transactions in
  let engine transactions :=
    analyze_wallet_clustering_rpc (main.lib s) (main.cfg s) (main.rpc s)
      (main.utcnow_engine s) transactions (Some token) in
  ((∃ r, main.risk_analysis s token max_transactions = Returns r)
   ↔ token ≠ ""%string
     ∧ ∃ transactions a pair_risks,
         fetched = Returns transactions ∧ engine transactions = Returns a
         ∧ main.matching_pairs s token = Returns pair_risks
         ∧ fle (Finite 0) (returned_share a) = true
         ∧ fle (returned_share a) (Finite 100) = true) ∧
  (∀ e0, fetched = Raises e0 →
     main.risk_analysis s token max_transactions
     = Raises (mkExn HTTPException
                 ("Failed to fetch recent transactions: " ++ exn_text e0))) ∧
  (∀ e, main.risk_analysis s token max_transactions = Raises e →
     (∃ e0, fetched = Raises e0 ∧ e = main.bad_gateway e0)
     ∨ (∃ transactions, fetched = Returns transactions ∧ engine transactions = Raises e)
     ∨ main.matching_pairs s token = Raises e
     ∨ exn_class e = ValidationError).
Proof.
  cbv zeta. pose proof (risk_analysis_cases s token max_transactions) as Hcases.
  destruct (fetch_top_recent_purchases _ _ _ _) as [transactions|e0].
  2:{ rewrite Hcases. split; [|split].
      - split; [by intros [? ?]|by intros (_ & ? & ? & ? & ? & _)].
      - by intros ? [= <-].
      - intros e [= <-]. left. by exists e0. }
  destruct (analyze_wallet_clustering_rpc _ _ _ _ _ _) as [a|e1] eqn:Eengine.
  2:{ rewrite Hcases. split; [|split; [done|]].
      - split; [by intros [? ?]|]. intros (_ & ? & ? & ? & [= <-] & ? & _). congruence.
      - intros e [= <-]. right; left. by exists transactions. }
  destruct (main.matching_pairs s token) as [pair_risks|e2].
  2:{ rewrite Hcases. split; [|split; [done|]].
      - split; [by intros [? ?]|]. by intros (_ & ? & ? & ? & _ & _ & ? & _).
      - intros e [= <-]. by right; right; left. }
  cbv zeta in Hcases. rewrite Hcases. clear Hcases. split; [|split; [done|]].
  - split.
    + intros [r Hr]. destruct (bool_decide (token = ""%string)) eqn:Etoken; [done|].
      apply bool_decide_eq_false in Etoken. split; [done|].
      exists transactions, a, pair_risks.
      destruct (fle (Finite 0) (returned_share a));
        destruct (fle (returned_share a) (Finite 100)); simpl in Hr; done.
    + intros (Htoken & ? & a' & ? & [= <-] & Ha & _ & H0 & H100).
      rewrite Eengine in Ha. injection Ha as <-.
      rewrite bool_decide_eq_false_2 by done. rewrite H0, H100. by eexists.
  - intros e. destruct (_ && _); [done|]. intros [= <-]. by right; right; right.
Qed.

(** X19. In every response the token address is the requested one, trust score
    and manipulation score add up to at most 100, at most
    [max_transactions] trades were analysed, and the score is at least 85
    when no trade was found; a live freeze authority means a score of at
    least 85 and a trust score of 0. *)
Theorem response_invariants s token max_transactions r :
  main.risk_analysis s token max_transactions = Returns r →
  main.token_address r = token ∧
  (main.trust_score r + main.manipulation_score r <= 100)%Q ∧
  Z.of_nat (main.analyzed_transactions r) ≤ Z.max 0 max_transactions ∧
  (main.analyzed_transactions r = 0%nat → (85 <= main.manipulation_score r)%Q) ∧
  (main.freeze_authority_present r = true →
   (85 <= main.manipulation_score r)%Q ∧ (main.trust_score r == 0)%Q).
Proof.
  pose proof (risk_analysis_cases s token max_transactions) as Hcases.
  destruct (fetch_top_recent_purchases _ _ _ _) as [transactions|e0] eqn:Efetch;
    [|by rewrite Hcases].
  destruct (analyze_wallet_clustering_rpc _ _ _ _ _ _) as [a|e1] eqn:Eengine;
    [|by rewrite Hcases].
  destruct (main.matching_pairs s token) as [pair_risks|e2]; [|by rewrite Hcases].
  cbv zeta in Hcases. rewrite Hcases. clear Hcases.
  destruct (_ && _); [|done]. intros [= <-]. simpl.
  destruct (engine_result_facts _ _ _ _ _ _ _ Eengine) as (Hrange & Hfreeze & Hempty).
  destruct (nudged_range (returned_score a) (main.dex_high_risk pair_risks) Hrange)
    as [Hnudged Hle].
  cbv zeta in Hnudged, Hle.
  set (score := if main.dex_high_risk _ then _ else returned_score a) in *.
  pose proof (derive_trust_closed score (returned_freeze a) (returned_mint a)
                (in_the_test (returned_share a))) as Hclosed.
  destruct (trust_penalty_nonneg (returned_freeze a) (returned_mint a)
              (in_the_test (returned_share a))) as [Hpen Hpen20].
  set (penalty := trust_penalty _ _ _) in *.
  split; [done|]. split; [|split; [|split]].
  - rewrite Hclosed.
    destruct (Q.max_spec 0 (100 - score - penalty)) as [[_ ->]|[_ ->]].
    + apply Qle_trans with (100 - score + - 0 + score)%Q; [|by ring_simplify].
      apply Qplus_le_l. apply Qplus_le_r. by apply Qopp_le_compat.
    + rewrite Qplus_0_l. by destruct Hnudged.
  - by apply (fetched_purchases_length _ _ _ _ _ Efetch).
  - intros Hnone. apply Qle_trans with (returned_score a); [|done].
    apply Hempty. by apply length_zero_iff_nil.
  - intros Hfrozen. specialize (Hfreeze Hfrozen). specialize (Hpen20 Hfrozen).
    assert (85 <= score)%Q as H85 by (by apply Qle_trans with (returned_score a)).
    split; [done|]. rewrite Hclosed. apply Q.max_l.
    apply Qle_trans with (100 + Qopp 85 + Qopp 20)%Q; [|done].
    apply Qplus_le_compat; [|by apply Qopp_le_compat].
    apply Qplus_le_r. by apply Qopp_le_compat.
Qed.

Lemma response_invariants_witness :
  ∃ r,
    main.risk_analysis sample_service "mint" 10 = Returns r ∧
    main.freeze_authority_present r = true ∧
    main.token_address r = "mint"%string ∧
    (main.trust_score r + main.manipulation_score r <= 100)%Q ∧
    Z.of_nat (main.analyzed_transactions r) ≤ Z.max 0 10 ∧
    (main.analyzed_transactions r = 0%nat → (85 <= main.manipulation_score r)%Q) ∧
    (main.freeze_authority_present r = true →
     (85 <= main.manipulation_score r)%Q ∧ (main.trust_score r == 0)%Q).
Proof.
  eexists. split; [vm_compute; reflexivity|]. split; [reflexivity|].
  apply (response_invariants sample_service "mint" 10). vm_compute. reflexivity.
Defined.

(** X20. The DexScreener reason is in the response exactly when the listing
    holds a pair of the token that [analyze_pair] reports with a ratio of
    volume to liquidity above the threshold; it is then the last reason and
    the score is the engine's plus 10, capped at 100.  Otherwise reasons
    and score are the engine's. *)
Theorem dex_nudge s token max_transactions r :
  main.risk_analysis s token max_transactions = Returns r →
  ∃ transactions a,
    fetch_top_recent_purchases (main.lib s) (main.rpc s) token max_transactions
    = Returns transactions ∧
    analyze_wallet_clustering_rpc (main.lib s) (main.cfg s) (main.rpc s)
      (main.utcnow_engine s) transactions (Some token)
    = Returns a ∧
    (main.DexScreenerWashTrading ∈ main.reasons r ↔ high_risk_pair s token) ∧
    (high_risk_pair s token →
     main.reasons r
     = (main.EngineReason <$> returned_reasons a) ++ [main.DexScreenerWashTrading]
     ∧ main.manipulation_score r = Qmin 100 (returned_score a + 10)) ∧
    (¬ high_risk_pair s token →
     main.reasons r = main.EngineReason <$> returned_reasons a
     ∧ main.manipulation_score r = returned_score a).
Proof.
  pose proof (risk_analysis_cases s token max_transactions) as Hcases.
  destruct (fetch_top_recent_purchases _ _ _ _) as [transactions|e0] eqn:Efetch;
    [|by rewrite Hcases].
  destruct (analyze_wallet_clustering_rpc _ _ _ _ _ _) as [a|e1] eqn:Eengine;
    [|by rewrite Hcases].
  destruct (main.matching_pairs s token) as [pair_risks|e2] eqn:Epairs;
    [|by rewrite Hcases].
  cbv zeta in Hcases. rewrite Hcases. clear Hcases.
  destruct (_ && _); [|done]. intros [= <-]. simpl.
  exists transactions, a. split; [done|]. split; [done|].
  pose proof (dex_high_risk_iff s token pair_risks Epairs) as Hhigh.
  destruct (main.dex_high_risk pair_risks).
  - assert (high_risk_pair s token) as H by (by apply Hhigh).
    split; [|split; [done|done]].
    split; [done|]. intros _. rewrite elem_of_app, list_elem_of_singleton. by right.
  - assert (¬ high_risk_pair s token) as H by (by intros ?%Hhigh).
    rewrite app_nil_r. split; [|split; [done|done]].
    split; [|done]. by intros (? & [=] & _)%list_elem_of_fmap.
Qed.

Lemma dex_nudge_witness :
  ∃ r,
    main.risk_analysis sample_service "mint" 10 = Returns r ∧
    main.manipulation_score r = 95%Q ∧
    main.DexScreenerWashTrading ∈ main.reasons r ∧
    ∃ transactions a,
      fetch_top_recent_purchases (main.lib sample_service) (main.rpc sample_service)
        "mint" 10 = Returns transactions ∧
      analyze_wallet_clustering_rpc (main.lib sample_service) (main.cfg sample_service)
        (main.rpc sample_service) (main.utcnow_engine sample_service)
        transactions (Some "mint"%string)
      = Returns a ∧
      (main.DexScreenerWashTrading ∈ main.reasons r ↔ high_risk_pair sample_service "mint") ∧
      (high_risk_pair sample_service "mint" →
       main.reasons r
       = (main.EngineReason <$> returned_reasons a) ++ [main.DexScreenerWashTrading]
       ∧ main.manipulation_score r = Qmin 100 (returned_score a + 10)) ∧
      (¬ high_risk_pair sample_service "mint" →
       main.reasons r = main.EngineReason <$> returned_reasons a
       ∧ main.manipulation_score r = returned_score a).
Proof.
  eexists. split; [vm_compute; reflexivity|]. split; [reflexivity|].
  split; [vm_compute; repeat constructor|].
  apply (dex_nudge sample_service "mint" 10). vm_compute. reflexivity.
Defined.

(** X21. When the endpoint fails, a request for a token still gets a response
    unless the analysis of the listed pairs raises: no trade analysed, no
    authority reported, a share of 0, a score of at least 85 and a trust
    score of at most 15. *)
Theorem service_endpoint_down s token max_transactions :
  endpoint_fails (main.rpc s) → token ≠ ""%string →
  match main.matching_pairs s token with
  | Raises e => main.risk_analysis s token max_transactions = Raises e
  | Returns _ =>
      ∃ r,
        main.risk_analysis s token max_transactions = Returns r ∧
        main.analyzed_transactions r = 0%nat ∧
        main.freeze_authority_present r = false ∧
        main.mint_authority_present r = false ∧
        main.top_holders_share r = Finite 0 ∧
        (85 <= main.manipulation_score r <= 100)%Q ∧
        (0 <= main.trust_score r <= 15)%Q
  end.
Proof.
  intros Hfails Htoken.
  assert (fetch_top_recent_purchases (main.lib s) (main.rpc s) token max_transactions
          = Returns []) as Hnone.
  { destruct Hfails as (_ & _ & _ & Hsigs).
    destruct (Hsigs token (Z.max (max_transactions * 3) max_transactions)) as [e He].
    unfold fetch_top_recent_purchases, _solana_rpc_call. by rewrite He. }
  pose proof (risk_analysis_cases s token max_transactions) as Hcases.
  rewrite Hnone in Hcases.
  destruct (engine_endpoint_down_helper (main.lib s) (main.cfg s) (main.rpc s)
              (main.utcnow_engine s) [] token Hfails)
    as (a & Ha & Hfreeze & Hmint & Htop).
  rewrite Ha in Hcases.
  destruct (main.matching_pairs s token) as [pair_risks|e]; [|done].
  cbv zeta in Hcases. rewrite Hcases. clear Hcases.
  rewrite bool_decide_eq_false_2 by done. rewrite Htop. simpl.
  eexists. split; [done|]. simpl.
  destruct (engine_result_facts _ _ _ _ _ _ _ Ha) as (Hrange & _ & Hempty).
  destruct (nudged_range (returned_score a) (main.dex_high_risk pair_risks) Hrange)
    as [Hnudged Hle].
  cbv zeta in Hnudged, Hle.
  set (score := if main.dex_high_risk _ then _ else returned_score a) in *.
  assert (85 <= score)%Q as H85.
  { apply Qle_trans with (returned_score a); [by apply Hempty|done]. }
  rewrite Hfreeze, Hmint.
  split; [done|]. split; [done|]. split; [done|]. split; [done|].
  split; [by destruct Hnudged|].
  unfold main.derive_trust. simpl. split; [apply Q.le_max_l|].
  apply Q.max_lub; [done|].
  apply Qle_trans with (100 + Qopp 85)%Q; [|done]. apply Qplus_le_r. by apply Qopp_le_compat.
Qed.

Lemma service_endpoint_down_witness :
  ∃ r,
    main.risk_analysis down_service "mint" 10 = Returns r ∧
    main.analyzed_transactions r = 0%nat ∧
    main.freeze_authority_present r = false ∧
    main.mint_authority_present r = false ∧
    main.top_holders_share r = Finite 0 ∧
    (85 <= main.manipulation_score r <= 100)%Q ∧
    (0 <= main.trust_score r <= 15)%Q.
Proof.
  apply (service_endpoint_down down_service "mint" 10).
  - repeat split; intros; exists connect_error; reflexivity.
  - discriminate.
Defined.

(** Three requests that get no response: a block time in the year 10000
    (the answer is the 502 of lines 133-136), a balance too large for a
    float, and a listed pair whose "volume" is null. *)
Lemma risk_analysis_samples :
  main.risk_analysis (with_rpc late_rpc sample_service) "mint" 10
  = Raises (mkExn HTTPException
              "Failed to fetch recent transactions: year is out of range")
  ∧ (∃ e, main.risk_analysis (with_rpc huge_rpc sample_service) "mint" 10 = Raises e
          ∧ exn_class e = OverflowError)
  ∧ main.risk_analysis (with_pairs [hot_pair; null_volume_pair] sample_service) "mint" 10
    = Raises none_has_no_get.
Proof.
  split; [|split].
  - vm_compute. reflexivity.
  - eexists. split; [vm_compute; reflexivity|reflexivity].
  - vm_compute. reflexivity.
Qed.

(** ** The rate limiter *)

Lemma rate_limiter_local lim store1 store2 client now :
  store1 !! client_key client = store2 !! client_key client →
  (main.rate_limiter lim store1 client now).2 = (main.rate_limiter lim store2 client now).2
  ∧ (main.rate_limiter lim store1 client now).1 !! client_key client
    = (main.rate_limiter lim store2 client now).1 !! client_key client.
Proof.
  intros Heq. unfold main.rate_limiter. fold (client_key client). rewrite Heq.
  destruct (default (0, now) (store2 !! client_key client)) as [count window_start].
  destruct (if Qlt_bool _ _ then _ else _) as [count' window_start'].
  simpl. by rewrite !lookup_insert_eq.
Qed.

Lemma rate_limiter_frame lim store client now key :
  key ≠ client_key client →
  (main.rate_limiter lim store client now).1 !! key = store !! key.
Proof.
  intros Hne. unfold main.rate_limiter. fold (client_key client).
  destruct (default (0, now) (store !! client_key client)) as [count window_start].
  destruct (if Qlt_bool _ _ then _ else _) as [count' window_start'].
  simpl. by rewrite lookup_insert_ne.
Qed.

(** X22. Clients do not spend each other's budget: the outcomes of the requests
    of one client, among any other requests, are those of its requests
    alone, from any store that holds the same entry for it.  A request
    without client address counts as the client "unknown". *)
Theorem rate_limit_per_client lim key requests store1 store2 :
  store1 !! key = store2 !! key →
  outcomes_of key requests (rate_limiter_run lim store1 requests).2
  = (rate_limiter_run lim store2 (filter (λ r, client_key r.1 = key) requests)).2.
Proof.
  revert store1 store2.
  induction requests as [|[client now] rest IH]; intros store1 store2 Heq; [done|].
  cbn [rate_limiter_run].
  destruct (main.rate_limiter lim store1 client now) as [store1' outcome1] eqn:E1.
  destruct (rate_limiter_run lim store1' rest) as [store1'' outcomes1] eqn:Erest1.
  unfold outcomes_of. cbn [snd zip zip_with]. rewrite !filter_cons. cbn [fst].
  destruct (decide (client_key client = key)) as [Hkey|Hkey].
  - subst key. cbn [rate_limiter_run].
    destruct (main.rate_limiter lim store2 client now) as [store2' outcome2] eqn:E2.
    destruct (rate_limiter_run lim store2' _) as [store2'' outcomes2] eqn:Erest2.
    destruct (rate_limiter_local lim store1 store2 client now Heq) as [Hout Hstore].
    rewrite E1, E2 in Hout, Hstore. simpl in Hout, Hstore. subst outcome2.
    rewrite fmap_cons. simpl. f_equal.
    specialize (IH store1' store2' Hstore). rewrite Erest1, Erest2 in IH. exact IH.
  - assert (store1' !! key = store2 !! key) as Heq'.
    { rewrite <- Heq. replace store1' with (main.rate_limiter lim store1 client now).1
        by (by rewrite E1).
      by apply rate_limiter_frame. }
    specialize (IH store1' store2 Heq'). by rewrite Erest1 in IH.
Qed.


Lemma rate_limit_per_client_witness :
  outcomes_of "10.0.0.1"
    [(Some "10.0.0.1", 100); (Some "10.0.0.2", 100); (None, 101);
     (Some "10.0.0.1", 102); (Some "10.0.0.1", 103); (Some "10.0.0.2", 104);
     (Some "10.0.0.1", 105)]%string%Q
    (rate_limiter_run sample_limits ∅
       [(Some "10.0.0.1", 100); (Some "10.0.0.2", 100); (None, 101);
        (Some "10.0.0.1", 102); (Some "10.0.0.1", 103); (Some "10.0.0.2", 104);
        (Some "10.0.0.1", 105)]%string%Q).2
  = (rate_limiter_run sample_limits {[ "10.0.0.2"%string := (7, 0%Q) ]}
       (filter (λ r, client_key r.1 = "10.0.0.1"%string)
          [(Some "10.0.0.1", 100); (Some "10.0.0.2", 100); (None, 101);
           (Some "10.0.0.1", 102); (Some "10.0.0.1", 103); (Some "10.0.0.2", 104);
           (Some "10.0.0.1", 105)]%string%Q)).2.
Proof.
  apply (rate_limit_per_client sample_limits "10.0.0.1"). reflexivity.
Defined.


Lemma rate_limiter_run_window lim client t0 ts count store :
  store !! client_key client = Some (count, t0) →
  Forall (λ t, (t - t0 <= inject_Z (main.RATE_LIMIT_WINDOW_SEC lim))%Q) ts →
  (rate_limiter_run lim store (pair client <$> ts)).2
  = (λ i, if main.RATE_LIMIT_REQUESTS lim <? count + Z.of_nat i + 1
          then Raises main.too_many_requests else Returns ()) <$> seq 0 (length ts).
Proof.
  revert count store. induction ts as [|t ts IH]; intros count store Hentry Hts; [done|].
  apply Forall_cons in Hts as [Ht Hts].
  rewrite fmap_cons. cbn [rate_limiter_run].
  destruct (main.rate_limiter lim store client t) as [store' outcome] eqn:Estep.
  destruct (rate_limiter_run lim store' _) as [store'' outcomes] eqn:Erest.
  revert Estep. unfold main.rate_limiter. fold (client_key client). rewrite Hentry.
  simpl default. cbv iota beta.
  apply Qlt_bool_false in Ht. rewrite Ht. intros [= <- <-].
  specialize (IH (count + 1) _ (lookup_insert_eq store _ _) Hts).
  rewrite Erest in IH. simpl in IH. simpl. rewrite IH.
  rewrite Z.add_0_r. f_equal.
  rewrite <- fmap_S_seq, <- list_fmap_compose. apply list_fmap_ext.
  intros i k _. simpl. by replace (count + 1 + Z.of_nat k + 1)
                          with (count + Z.of_nat (S k) + 1) by lia.
Qed.

(** X23. A client that is new, or whose window has expired, opens a window with
    its request: of that request and those that follow within
    [RATE_LIMIT_WINDOW_SEC] of it, the first [RATE_LIMIT_REQUESTS] are
    admitted and every later one gets the 429. *)
Theorem rate_limit_budget lim store client t0 ts :
  store !! client_key client = None
  ∨ (∃ count window_start,
       store !! client_key client = Some (count, window_start)
       ∧ (inject_Z (main.RATE_LIMIT_WINDOW_SEC lim) < t0 - window_start)%Q) →
  Forall (λ t, (t - t0 <= inject_Z (main.RATE_LIMIT_WINDOW_SEC lim))%Q) ts →
  (rate_limiter_run lim store (pair client <$> t0 :: ts)).2
  = (λ i, if Z.of_nat i <? main.RATE_LIMIT_REQUESTS lim
          then Returns () else Raises main.too_many_requests) <$> seq 0 (S (length ts)).
Proof.
  intros Hentry Hts. rewrite fmap_cons. cbn [rate_limiter_run].
  destruct (main.rate_limiter lim store client t0) as [store' outcome] eqn:Estep.
  destruct (rate_limiter_run lim store' _) as [store'' outcomes] eqn:Erest.
  assert (store' !! client_key client = Some (1, t0)
          ∧ outcome = if main.RATE_LIMIT_REQUESTS lim <? 1
                      then Raises main.too_many_requests else Returns ()) as [Hstore ->].
  { revert Estep. unfold main.rate_limiter. fold (client_key client).
    destruct Hentry as [->|(count & window_start & -> & Hexpired)]; simpl default.
    - cbv iota beta.
      match goal with |- context [Qlt_bool ?a ?b] => destruct (Qlt_bool a b) end;
        intros [= <- <-]; by rewrite lookup_insert_eq.
    - cbv iota beta. apply Qlt_bool_iff in Hexpired. rewrite Hexpired.
      intros [= <- <-]. by rewrite lookup_insert_eq. }
  pose proof (rate_limiter_run_window lim client t0 ts 1 store' Hstore Hts) as Hrest.
  rewrite Erest in Hrest. simpl in Hrest. simpl. rewrite Hrest. f_equal.
  - by destruct (main.RATE_LIMIT_REQUESTS lim); try destruct p.
  - rewrite <- fmap_S_seq, <- list_fmap_compose. apply list_fmap_ext.
    intros i k _. simpl.
    destruct (Z.ltb_spec (main.RATE_LIMIT_REQUESTS lim) (1 + Z.of_nat k + 1)),
             (Z.ltb_spec (Z.of_nat (S k)) (main.RATE_LIMIT_REQUESTS lim)); (done || lia).
Qed.


Lemma rate_limit_budget_witness :
  (rate_limiter_run sample_limits ∅
     (pair (Some "10.0.0.1"%string) <$> [100; 101; 130; 160; 160]%Q)).2
  = (λ i, if Z.of_nat i <? main.RATE_LIMIT_REQUESTS sample_limits
          then Returns () else Raises main.too_many_requests) <$> seq 0 5.
Proof.
  apply (rate_limit_budget sample_limits ∅ (Some "10.0.0.1"%string) 100%Q
           [101; 130; 160; 160]%Q).
  - left. reflexivity.
  - repeat (constructor; [by vm_compute|]). constructor.
Defined.

